(** * Quote-origin pipeline (qdd2): a shallow embedding and its properties.

    The development follows the Python sources module by module:
    [text_utils], [entities], [keywords], [query_builder], [snippet_matcher],
    [search_client] and [backend_api].

    Conventions of the embedding.
    - A Python [str] is a sequence of Unicode code points: [pystr := list N].
      [len], slicing, [in] and [strip] then count code points as Python does.
    - A Python [int] is a [Z]; a [float] is the rational it denotes ([Q]);
      NaN and the infinities are outside the model.
    - A call that may raise returns a [result]: [Ok v] or [Raise e], where [e]
      is an instance of a subclass of Python's [Exception].
    - External collaborators (tagger, translator, embedder, classifier, HTTP
      session, Unicode tables) are parameters of the functions that use them. *)

From Stdlib Require Import List ZArith NArith QArith Qround Qabs Bool Lia String Ascii.
From Stdlib Require Import Permutation Sorted DecimalString.
From Stdlib Require Import Lqa.
Import ListNotations.

Local Open Scope Z_scope.

(* ================================================================== *)
(** ** Python strings *)

Module PyStr.

Definition pystr := list N.

(** An ASCII literal of the source as a [pystr]. *)
Definition str (lit : string) : pystr :=
  map N_of_ascii (list_ascii_of_string lit).

(** [a == b] *)
Fixpoint eqb (a b : pystr) : bool :=
  match a, b with
  | [], [] => true
  | x :: a', y :: b' => (x =? y)%N && eqb a' b'
  | _, _ => false
  end.

(** [bool(s)]: a string is truthy when it is not empty. *)
Definition truthy (s : pystr) : bool :=
  match s with [] => false | _ => true end.

Definition len (s : pystr) : Z := Z.of_nat (List.length s).

(** [str.isspace] on one code point (the Unicode White_Space set that Python
    uses for [strip], [split] and the regex class [\s]). *)
Definition isspace (c : N) : bool :=
  ((9 <=? c) && (c <=? 13) || (28 <=? c) && (c <=? 32) || (c =? 133)
   || (c =? 160) || (c =? 5760) || (8192 <=? c) && (c <=? 8202)
   || (c =? 8232) || (c =? 8233) || (c =? 8239) || (c =? 8287)
   || (c =? 12288))%N.

Fixpoint lstrip (s : pystr) : pystr :=
  match s with
  | c :: s' => if isspace c then lstrip s' else s
  | [] => []
  end.

Definition rstrip (s : pystr) : pystr := rev (lstrip (rev s)).

(** [s.strip()] *)
Definition strip (s : pystr) : pystr := rstrip (lstrip s).

(** [sep.join(parts)] *)
Fixpoint join (sep : pystr) (parts : list pystr) : pystr :=
  match parts with
  | [] => []
  | [p] => p
  | p :: rest => p ++ sep ++ join sep rest
  end.

(** [s.split(c)] for a one-character separator: always at least one piece. *)
Fixpoint split_char (c : N) (s : pystr) : list pystr :=
  match s with
  | [] => [[]]
  | x :: s' =>
      if (x =? c)%N then [] :: split_char c s'
      else match split_char c s' with
           | p :: ps => (x :: p) :: ps
           | [] => [[x]]
           end
  end.

(** [s.split()] : whitespace-separated words, empty pieces dropped.
    [cur] is the word being read, reversed. *)
Fixpoint split_ws_aux (cur : pystr) (s : pystr) : list pystr :=
  match s with
  | [] => match cur with [] => [] | _ => [rev cur] end
  | x :: s' =>
      if isspace x
      then match cur with
           | [] => split_ws_aux [] s'
           | _ => rev cur :: split_ws_aux [] s'
           end
      else split_ws_aux (x :: cur) s'
  end.

Definition split_ws (s : pystr) : list pystr := split_ws_aux [] s.

Fixpoint is_prefix (p s : pystr) : bool :=
  match p, s with
  | [], _ => true
  | x :: p', y :: s' => (x =? y)%N && is_prefix p' s'
  | _ :: _, [] => false
  end.

(** [sub in s] : [sub] occurs in [s] as a contiguous substring. *)
Fixpoint contains (sub s : pystr) : bool :=
  is_prefix sub s ||
  match s with
  | [] => false
  | _ :: s' => contains sub s'
  end.

(** [s.replace(c, "")] for a one-character [c]. *)
Definition remove_char (c : N) (s : pystr) : pystr :=
  filter (fun x => negb (x =? c)%N) s.

(** [str(z)] for an [int]. *)
Definition of_int (z : Z) : pystr := str (NilZero.string_of_int (Z.to_int z)).

End PyStr.

Import PyStr.

(* ================================================================== *)
(** ** Exceptions and results *)

Inductive exn_class :=
| ValueError | IndexError | AssertionError | AttributeError
| RequestException | HTTPError | JSONDecodeError | RuntimeError.

(** An instance of a subclass of [Exception]; [exn_msg] is [str(e)]. *)
Record exn := mk_exn { exn_cls : exn_class; exn_msg : pystr }.

Inductive result (A : Type) :=
| Ok (a : A)
| Raise (e : exn).
Arguments Ok {A} a.
Arguments Raise {A} e.

Definition bind {A B} (m : result A) (k : A -> result B) : result B :=
  match m with
  | Ok a => k a
  | Raise e => Raise e
  end.


(* ================================================================== *)
(** ** Python lists: slicing *)

(** Index normalisation of a slice bound: a negative bound counts from the
    end, and the result is clamped to [0, n]. *)
Definition slice_bound (n i : Z) : Z :=
  let j := if i <? 0 then i + n else i in
  Z.max 0 (Z.min n j).

(** [l[a:b]] *)
Definition py_slice {A} (l : list A) (a b : Z) : list A :=
  let n := Z.of_nat (List.length l) in
  let a' := slice_bound n a in
  let b' := slice_bound n b in
  firstn (Z.to_nat (b' - a')) (skipn (Z.to_nat a') l).

(* ================================================================== *)
(** ** snippet_matcher.py : extract_span *)

Module SnippetSpan.

Definition extract_span (sentences : list pystr) (center_idx : Z)
    (num_before num_after : Z) (join_with : pystr)
  : result (pystr * Z * Z) :=
  let n := Z.of_nat (List.length sentences) in
  if n =? 0 then Raise (mk_exn ValueError (str "sentences list is empty"))
  else if negb ((0 <=? center_idx) && (center_idx <? n)) then
    Raise (mk_exn IndexError
             (str "center_idx " ++ of_int center_idx
              ++ str " is out of range for " ++ of_int n ++ str " sentences"))
  else
    let start_idx := Z.max 0 (center_idx - num_before) in
    let end_idx := Z.min (n - 1) (center_idx + num_after) in
    let span := join join_with (py_slice sentences start_idx (end_idx + 1)) in
    Ok (span, start_idx, end_idx).

(** The sentences with index in [lo .. hi], both ends included, as the
    specification words the window. *)
Definition sentences_between (sentences : list pystr) (lo hi : Z) : list pystr :=
  firstn (Z.to_nat (hi - lo + 1)) (skipn (Z.to_nat lo) sentences).

End SnippetSpan.

(* ================================================================== *)
(** ** text_utils.py *)

Module TextUtils.

Section WithUnicode.
(** [str.lower], a Unicode table of the Python runtime. *)
Variable lower : pystr -> pystr.

(** The character class of [normalize_korean_phrase].  The source writes
    the pattern as the raw string r"[·‧ㆍ\\-_/\\s]".  In a raw string the
    two backslashes stay two characters, so the class reads: the three
    middle dots (U+00B7, U+2027, U+318D), the range from backslash (U+005C)
    to underscore (U+005F), the slash (U+002F), a backslash again and the
    letter s (U+0073). *)
Definition normalize_class (c : N) : bool :=
  ((c =? 183) || (c =? 8231) || (c =? 12685)
   || (92 <=? c) && (c <=? 95) || (c =? 47) || (c =? 92) || (c =? 115))%N.

(** [re.sub(class, "", text).lower()] *)
Definition normalize_korean_phrase (text : pystr) : pystr :=
  lower (filter (fun c => negb (normalize_class c)) text).
End WithUnicode.

(** [str.lower] restricted to the code points the examples use: the ASCII
    letters are lowered, every other code point (Hangul has no case) is kept. *)
Definition ascii_lower (s : pystr) : pystr :=
  map (fun c => if ((65 <=? c) && (c <=? 90))%N then (c + 32)%N else c) s.

End TextUtils.

(* ================================================================== *)
(** ** config.py *)

Module Config.

Definition NER_LABELS : list pystr :=
  [str "PER"; str "ORG"; str "LOC"; str "DAT"; str "AFW"].


End Config.

(** [x in l] for a list or set of strings. *)
Definition str_mem (x : pystr) (l : list pystr) : bool := existsb (PyStr.eqb x) l.

(* ================================================================== *)
(** ** entities.py : merge_ner_entities *)

Module Entities.

(** One raw prediction of the tagger: [{"entity", "word", "start", "end"}]. *)
Record token := mk_token {
  tok_entity : pystr;
  tok_word : pystr;
  tok_start : Z;
  tok_end : Z
}.

(** A merged entity: [{"label", "word"}]. *)
Record entity := mk_entity { ent_label : pystr; ent_word : pystr }.

(** A flushed buffer.  Only non-empty buffers are appended to
    [merged_groups], so a group is its first token and the rest. *)
Definition group := (token * list token)%type.

Definition hyphen : N := 45.

(** [parts = (ent.get("entity") or "").split("-")] *)
Definition tag_parts (t : token) : list pystr := split_char hyphen (tok_entity t).

(** [parts[0] if parts else ""] *)
Definition entity_type (t : token) : pystr := hd [] (tag_parts t).

(** [parts[1] if len(parts) > 1 else "B"] *)
Definition tag_type (t : token) : pystr :=
  match tag_parts t with
  | _ :: p1 :: _ => p1
  | _ => str "B"
  end.

(** [if buffer: merged_groups.append(buffer)] *)
Definition flush (merged_groups : list group) (buffer : list token) : list group :=
  match buffer with
  | [] => merged_groups
  | t :: ts => merged_groups ++ [(t, ts)]
  end.

(** [buffer[-1]] of a non-empty buffer [t :: ts] *)
Definition buffer_last (t : token) (ts : list token) : token := last ts t.

(** One iteration of the grouping loop on the state
    [(merged_groups, buffer)]. *)
Definition bio_step (st : list group * list token) (ent : token)
  : list group * list token :=
  let '(merged_groups, buffer) := st in
  if negb (str_mem (entity_type ent) Config.NER_LABELS) then st
  else if PyStr.eqb (tag_type ent) (str "B") then
    (flush merged_groups buffer, [ent])
  else
    match PyStr.eqb (tag_type ent) (str "I"), buffer with
    | true, t :: ts =>
        let prev := buffer_last t ts in
        let prev_type := entity_type prev in
        if PyStr.eqb (entity_type ent) prev_type
           && (tok_start ent <=? tok_end prev + 1)
        then (merged_groups, buffer ++ [ent])
        else (merged_groups ++ [(t, ts)], [ent])
    | _, _ => (flush merged_groups buffer, [])
    end.

Definition bio_groups (results : list token) : list group :=
  let '(merged_groups, buffer) := fold_left bio_step results ([], []) in
  flush merged_groups buffer.

(** [s.replace("##", "")] : non-overlapping occurrences, left to right. *)
Fixpoint remove_marker (s : pystr) : pystr :=
  match s with
  | [] => []
  | x :: s' =>
      match s' with
      | y :: s'' =>
          if ((x =? 35) && (y =? 35))%N then remove_marker s''
          else x :: remove_marker s'
      | [] => [x]
      end
  end.

(** ["".join([str(e.get("word", "")).replace("##", "") for e in group]).strip()] *)
Definition group_word (g : group) : pystr :=
  strip (List.concat (map (fun e => remove_marker (tok_word e)) (fst g :: snd g))).

(** The set of one-character words of the second filter: the two quotes,
    the brackets, comma, full stop, exclamation and question mark. *)
Definition single_punct : list pystr :=
  map (fun c => [c]) [34; 39; 40; 41; 91; 93; 123; 125; 44; 46; 33; 63]%N.

Definition middle_dot : N := 183.

(** The three filters of step 4; [true] when the word is kept. *)
Definition keep_word (word : pystr) : bool :=
  if len word <? 2 then false
  else if str_mem word single_punct then false
  else if PyStr.eqb
            (remove_char middle_dot (remove_char hyphen (remove_char 32%N word))) []
  then false
  else true.

Definition finalize (merged_groups : list group) : list entity :=
  flat_map (fun g =>
              let word := group_word g in
              if keep_word word then [mk_entity (entity_type (fst g)) word] else [])
           merged_groups.

Definition merge_ner_entities (results : list token) : list entity :=
  finalize (bio_groups results).

(** The third filter on its own: the word is made of spaces, hyphens and
    middle dots only. *)
Definition only_filler (word : pystr) : bool :=
  forallb (fun c => ((c =? 32) || (c =? hyphen) || (c =? middle_dot))%N) word.

(** A punctuation character as the specification means it: the ASCII
    punctuation of [string.punctuation] and the middle dot. *)
Definition is_punctuation (c : N) : bool :=
  ((33 <=? c) && (c <=? 47) || (58 <=? c) && (c <=? 64)
   || (91 <=? c) && (c <=? 96) || (123 <=? c) && (c <=? 126)
   || (c =? middle_dot))%N.

(** The tokens of a buffer carry one label. *)
Definition one_label (buffer : list token) : Prop :=
  forall t t', In t buffer -> In t' buffer -> entity_type t = entity_type t'.

(** The rule of the specification for an I-tagged token: whether it
    continues the open buffer, and the state it leads to. *)
Definition continues (buffer : list token) (ent : token) : bool :=
  match buffer with
  | [] => false
  | t :: ts =>
      let prev := buffer_last t ts in
      PyStr.eqb (entity_type ent) (entity_type prev)
      && (tok_start ent <=? tok_end prev + 1)
  end.

Definition inside_rule (st : list group * list token) (ent : token)
  : list group * list token :=
  let '(merged_groups, buffer) := st in
  if continues buffer ent then (merged_groups, buffer ++ [ent])
  else (flush merged_groups buffer, [ent]).

(** Tokens of the examples: an I-tagged person token with no token before
    it, and a B-tagged token whose text is two exclamation marks. *)
Definition orphan_token : token := mk_token (str "PER-I") (str "Kim") 0 3.
Definition shout_token : token := mk_token (str "PER-B") (str "!!") 0 2.

(** [extract_ner_entities]: the tagger runs on every sentence and the merged
    entities are concatenated. *)
Definition extract_ner_entities (split_sentences : pystr -> list pystr)
    (ner : pystr -> list token) (text : pystr) : list entity :=
  flat_map (fun sentence => merge_ner_entities (ner sentence)) (split_sentences text).

End Entities.

(* ================================================================== *)
(** ** keywords.py : extract_entities_only *)

Module Keywords.
Import Entities.

(** [entities_by_type]: a dict from label to list of words, in insertion
    order. *)
Definition by_type := list (pystr * list pystr).

(** [set.add] and [set.discard] on a set kept as a duplicate-free list. *)
Definition set_add (x : pystr) (s : list pystr) : list pystr :=
  if str_mem x s then s else s ++ [x].

Definition set_discard (x : pystr) (s : list pystr) : list pystr :=
  filter (fun y => negb (PyStr.eqb y x)) s.

(** [a in b and a != b] *)
Definition strict_sub (a b : pystr) : bool :=
  contains a b && negb (PyStr.eqb a b).

Section WithNormalize.
(** [normalize_korean_phrase] *)
Variable normalize : pystr -> pystr.
(** The order in which [list(seen_normalized)] enumerates the set; Python
    leaves it unspecified. *)
Variable enum : list pystr -> list pystr.

(** Case B: drop every word whose normal form is [seen], in every label. *)
Definition purge (seen : pystr) (ebt : by_type) : by_type :=
  map (fun '(lbl, ws) =>
         (lbl, filter (fun w => negb (PyStr.eqb (normalize w) seen)) ws)) ebt.

(** The inner loop over the snapshot [list(seen_normalized)]: returns
    [is_duplicate] and the updated set and dict. *)
Fixpoint scan_seen (normalized : pystr) (snapshot : list pystr)
    (seen_normalized : list pystr) (ebt : by_type)
  : bool * list pystr * by_type :=
  match snapshot with
  | [] => (false, seen_normalized, ebt)
  | seen :: rest =>
      if strict_sub normalized seen then (true, seen_normalized, ebt)
      else if strict_sub seen normalized then
        scan_seen normalized rest (set_discard seen seen_normalized) (purge seen ebt)
      else scan_seen normalized rest seen_normalized ebt
  end.

(** [entities_by_type.setdefault(label, [])] then the guarded append. *)
Fixpoint add_word (label word : pystr) (ebt : by_type) : by_type :=
  match ebt with
  | [] => [(label, [word])]
  | (lbl, ws) :: rest =>
      if PyStr.eqb lbl label
      then (lbl, if str_mem word ws then ws else ws ++ [word]) :: rest
      else (lbl, ws) :: add_word label word rest
  end.

(** One iteration of the loop over the entities, on the state
    [(seen_normalized, entities_by_type)]. *)
Definition dedup_step (st : list pystr * by_type) (ent : entity)
  : list pystr * by_type :=
  let '(seen_normalized, ebt) := st in
  let normalized := normalize (ent_word ent) in
  let '(is_duplicate, seen1, ebt1) :=
    scan_seen normalized (enum seen_normalized) seen_normalized ebt in
  if is_duplicate then (seen1, ebt1)
  else (set_add normalized seen1, add_word (ent_label ent) (ent_word ent) ebt1).

Definition dedup_loop (entities : list entity) : list pystr * by_type :=
  fold_left dedup_step entities ([], []).

(** The part of [extract_entities_only] after the tagger has run: the
    returned [entities_by_type]. *)
Definition entities_by_type (entities : list entity) : by_type :=
  snd (dedup_loop entities).

(** The rule of the specification for the next entity, on the state
    [(seen_normalized, entities_by_type)]: an entity whose normal form is a
    strict substring of a seen one is skipped; otherwise every seen form that
    is a strict substring of the new one is removed from the set, the words
    with such a normal form are removed from every label's list, and the new
    word is added. *)
Definition subsumed (normalized : pystr) (seen_normalized : list pystr) : bool :=
  existsb (strict_sub normalized) seen_normalized.

Definition drop_shorter (normalized : pystr) (seen_normalized : list pystr)
  : list pystr :=
  filter (fun s => negb (strict_sub s normalized)) seen_normalized.

Definition purge_shorter (normalized : pystr) (ebt : by_type) : by_type :=
  map (fun '(lbl, ws) =>
         (lbl, filter (fun w => negb (strict_sub (normalize w) normalized)) ws)) ebt.

Definition containment_step (st : list pystr * by_type) (ent : entity)
  : list pystr * by_type :=
  let '(seen_normalized, ebt) := st in
  let normalized := normalize (ent_word ent) in
  if subsumed normalized seen_normalized then st
  else (set_add normalized (drop_shorter normalized seen_normalized),
        add_word (ent_label ent) (ent_word ent) (purge_shorter normalized ebt)).

(** The invariant of the loop: no seen form is a strict substring of
    another, and the normal form of every listed word is in the set. *)
Definition antichain (seen_normalized : list pystr) : Prop :=
  forall a b, In a seen_normalized -> In b seen_normalized -> strict_sub a b = false.

Definition words_seen (seen_normalized : list pystr) (ebt : by_type) : Prop :=
  forall lbl ws w, In (lbl, ws) ebt -> In w ws -> In (normalize w) seen_normalized.

Definition dedup_inv (st : list pystr * by_type) : Prop :=
  antichain (fst st) /\ words_seen (fst st) (snd st).

Definition extract_entities_only (split_sentences : pystr -> list pystr)
    (ner : pystr -> list token) (text : pystr) : list entity * by_type :=
  let entities := extract_ner_entities split_sentences ner text in
  (entities, entities_by_type entities).
End WithNormalize.

End Keywords.

(** The words of the examples: U+C11C U+C6B8 and U+C11C U+C6B8 U+C2DC. *)
Module KeywordExamples.
Import Entities.

Definition seoul : pystr := [49436; 50872]%N.
Definition seoul_si : pystr := [49436; 50872; 49884]%N.
Definition loc (word : pystr) : entity := mk_entity (str "LOC") word.

End KeywordExamples.

(* ================================================================== *)
(** ** query_builder.py : _normalize_token, _dedupe_preserve *)

Module QueryBuilder.

Section WithUnicode.
(** The regex class [\w] and [str.lower], Unicode tables of the runtime. *)
Variable is_word : N -> bool.
Variable lower : pystr -> pystr.

(** [re.sub(r"[^\w\s]", " ", tok).lower()], then
    [" ".join(normalized.split()).strip()]. *)
Definition _normalize_token (tok : pystr) : pystr :=
  let normalized :=
    lower (map (fun c => if is_word c || isspace c then c else 32%N) tok) in
  strip (join (str " ") (split_ws normalized)).
End WithUnicode.

Section Dedupe.
Variable normalize : pystr -> pystr.

(** The loop of [_dedupe_preserve] on the state [(seen, out)]. *)
Fixpoint dedupe_loop (seq : list pystr) (seen : list pystr) (out : list pystr)
  : list pystr :=
  match seq with
  | [] => out
  | item :: rest =>
      if negb (truthy item) then dedupe_loop rest seen out
      else
        let norm := normalize item in
        if negb (truthy norm) || str_mem norm seen then dedupe_loop rest seen out
        else dedupe_loop rest (norm :: seen) (out ++ [item])
  end.

Definition dedupe_with (seq : list pystr) : list pystr := dedupe_loop seq [] [].

(** The set [seen] once the loop has read [seq]. *)
Fixpoint seen_after (seq : list pystr) (seen : list pystr) : list pystr :=
  match seq with
  | [] => seen
  | item :: rest =>
      if negb (truthy item) then seen_after rest seen
      else
        let norm := normalize item in
        if negb (truthy norm) || str_mem norm seen then seen_after rest seen
        else seen_after rest (norm :: seen)
  end.

(** The specification's rule for a token that follows the tokens [earlier]:
    it is kept when it is not empty, its normalized form is not empty, and
    no earlier token has the same normalized form. *)
Definition first_seen (earlier : list pystr) (item : pystr) : bool :=
  truthy item && truthy (normalize item)
  && negb (existsb (fun x => truthy x && PyStr.eqb (normalize x) (normalize item))
             earlier).
End Dedupe.

Definition _dedupe_preserve (is_word : N -> bool) (lower : pystr -> pystr)
    (seq : list pystr) : list pystr :=
  dedupe_with (_normalize_token is_word lower) seq.

(** [\w] restricted to the code points the examples use: ASCII letters,
    digits, the underscore and the Hangul syllables. *)
Definition basic_is_word (c : N) : bool :=
  ((48 <=? c) && (c <=? 57) || (65 <=? c) && (c <=? 90) || (c =? 95)
   || (97 <=? c) && (c <=? 122) || (44032 <=? c) && (c <=? 55203))%N.

End QueryBuilder.

(* ================================================================== *)
(** ** snippet_matcher.py : span matching over candidates *)

Module SnippetMatcher.
Import SnippetSpan.

(** The dict returned by [find_best_match_span_in_snippet]. *)
Record span_res := mk_span_res {
  sr_url : pystr;
  sr_best_sentence : pystr;
  sr_best_score : Q;
  sr_span_text : pystr;
  sr_span_start_idx : Z;
  sr_span_end_idx : Z
}.

(** A search candidate: [cand.get("url")] and [cand.get("snippet")]. *)
Record candidate := mk_candidate {
  cand_url : option pystr;
  cand_snippet : option pystr
}.

(** The value returned by [find_best_span_from_candidates_debug]: the dict
    [best_global] and the list stored under its key ["top_k_candidates"]. *)
Record best_global := mk_best_global {
  bg_best : span_res;
  bg_top_k_candidates : list span_res
}.

(** [a < b] on floats. *)
Definition Qltb (a b : Q) : bool := negb (Qle_bool b a).

(** [torch.argmax]: the index of the first maximal value. *)
Fixpoint argmax_from (best_i : nat) (best : Q) (i : nat) (l : list Q) : nat :=
  match l with
  | [] => best_i
  | x :: r =>
      if Qltb best x then argmax_from i x (S i) r
      else argmax_from best_i best (S i) r
  end.

Definition argmax (l : list Q) : result nat :=
  match l with
  | [] => Raise (mk_exn RuntimeError (str "argmax of an empty tensor"))
  | x :: r => Ok (argmax_from 0%nat x 1%nat r)
  end.

(** [l[i]] for an index that is known to be non-negative. *)
Definition index {A} (l : list A) (i : nat) : result A :=
  match nth_error l i with
  | Some x => Ok x
  | None => Raise (mk_exn IndexError (str "list index out of range"))
  end.

Fixpoint map_result {A B} (f : A -> result B) (l : list A) : result (list B) :=
  match l with
  | [] => Ok []
  | x :: r =>
      match f x with
      | Raise e => Raise e
      | Ok y => match map_result f r with
                | Raise e => Raise e
                | Ok ys => Ok (y :: ys)
                end
      end
  end.

(** [sorted(l, key=best_score, reverse=True)]: a stable sort, so results
    with equal scores keep their original order. *)
Fixpoint insert_desc (x : span_res) (l : list span_res) : list span_res :=
  match l with
  | [] => [x]
  | y :: r =>
      if Qle_bool (sr_best_score y) (sr_best_score x) then x :: l
      else y :: insert_desc x r
  end.

Definition sorted_desc (l : list span_res) : list span_res :=
  fold_right insert_desc [] l.

(** The order of the sorted list: [a] is ranked before [b]. *)
Definition score_ge (a b : span_res) : Prop :=
  (sr_best_score b <= sr_best_score a)%Q.

Section WithModel.
(** [split_into_sentences(text, is_ko=False)] *)
Variable split_into_sentences : pystr -> list pystr.
(** The sentence-embedding model: loading it may fail, and so may the two
    [encode] calls and [cos_sim], taken together as [similarities]. *)
Variable model : Type.
Variable get_sentence_model : result model.
Variable similarities : model -> pystr -> list pystr -> result (list Q).

Definition find_best_match_span_in_snippet (quote_text : pystr)
    (snippet_text : option pystr) (url : pystr) (num_before num_after : Z)
  : result (option span_res) :=
  match snippet_text with
  | None => Ok None
  | Some snippet =>
    if negb (truthy snippet) then Ok None
    else
      let quote_sentences := split_into_sentences quote_text in
      bind
        (match quote_sentences with
         | [] => Ok quote_text
         | _ =>
             bind (extract_span quote_sentences
                     (Z.of_nat (List.length quote_sentences) / 2)
                     num_before num_after (str " "))
                  (fun r => Ok (fst (fst r)))
         end)
        (fun quote_span_text =>
      let sentences := split_into_sentences snippet in
      match sentences with
      | [] => Ok None
      | _ =>
        bind get_sentence_model (fun sim_model =>
        let attempt :=
          bind (map_result
                  (fun center_idx =>
                     extract_span sentences (Z.of_nat center_idx)
                       num_before num_after (str " "))
                  (seq 0 (List.length sentences)))
               (fun spans =>
          bind (similarities sim_model quote_span_text
                  (map (fun s => fst (fst s)) spans))
               (fun sims =>
          bind (argmax sims) (fun best_idx =>
          bind (index sims best_idx) (fun best_score =>
          Ok (spans, best_idx, best_score))))) in
        match attempt with
        | Raise _ => Ok None
        | Ok (spans, best_idx, best_score) =>
            bind (index spans best_idx) (fun best =>
            let '(best_span_text, s_idx, e_idx) := best in
            bind (index sentences best_idx) (fun best_sentence =>
            Ok (Some (mk_span_res url best_sentence best_score
                        best_span_text s_idx e_idx))))
        end)
      end)
  end.
End WithModel.

Section OverCandidates.
(** The per-snippet matcher, with [quote_text], [snippet_text], [url],
    [num_before] and [num_after] as arguments. *)
Variable match_snippet :
  pystr -> option pystr -> pystr -> Z -> Z -> result (option span_res).

(** What one candidate contributes to [global_candidates]. *)
Definition candidate_result (quote_en : pystr) (num_before num_after : Z)
    (min_score : Q) (cand : candidate) : option span_res :=
  match cand_url cand with
  | None => None
  | Some url =>
      if negb (truthy url) then None
      else
        match match_snippet quote_en (cand_snippet cand) url num_before num_after with
        | Raise _ => None
        | Ok None => None
        | Ok (Some span_res) =>
            if Qltb (sr_best_score span_res) min_score then None
            else Some span_res
        end
  end.

Definition global_candidates (quote_en : pystr) (candidates : list candidate)
    (num_before num_after : Z) (min_score : Q) : list span_res :=
  flat_map (fun cand =>
              match candidate_result quote_en num_before num_after min_score cand with
              | Some r => [r]
              | None => []
              end) candidates.

Definition find_best_span_from_candidates_debug (quote_en : pystr)
    (candidates : list candidate) (num_before num_after : Z) (min_score : Q)
  : option best_global :=
  let found := global_candidates quote_en candidates num_before num_after min_score in
  match sorted_desc found with
  | [] => None
  | (best :: _) as sorted_candidates => Some (mk_best_global best sorted_candidates)
  end.
End OverCandidates.

End SnippetMatcher.

(** A sentence splitter and an embedding model for the examples: sentences
    end at a full stop, and the similarity of a span is its length. *)
Module MatcherExamples.
Import SnippetMatcher.

Definition split_at_stops (text : pystr) : list pystr :=
  filter truthy (split_char 46%N text).

Definition length_similarity (_ : unit) (_ : pystr) (spans : list pystr)
  : result (list Q) :=
  Ok (map (fun s => inject_Z (len s)) spans).

Definition match_by_length : pystr -> option pystr -> pystr -> Z -> Z
                             -> result (option span_res) :=
  find_best_match_span_in_snippet split_at_stops unit (Ok tt) length_similarity.

End MatcherExamples.

(* ================================================================== *)
(** ** search_client.py : google_cse_search *)

Module SearchClient.

(** The query parameters sent to the endpoint. *)
Record cse_params := mk_params {
  p_key : pystr; p_cx : pystr; p_q : pystr; p_num : Z; p_start : Z;
  p_hl : pystr; p_gl : pystr; p_lr : option pystr; p_safe : option pystr
}.

(** What the process has done so far: the GET requests issued and the
    delays slept, oldest first. *)
Record world := mk_world { requests : list cse_params; sleeps : list Q }.

Definition retryable (status : Z) : bool :=
  existsb (Z.eqb status) [429; 500; 502; 503; 504].

(** [resp.raise_for_status()]: raises [HTTPError] for a 4xx or 5xx status. *)
Definition raise_for_status (status : Z) : result unit :=
  if (400 <=? status) && (status <? 600)
  then Raise (mk_exn HTTPError (of_int status ++ str " Error"))
  else Ok tt.

(** [except requests.RequestException]: the clause catches the class and
    its subclasses; [HTTPError] and [requests.JSONDecodeError] are two of
    them. *)
Definition is_request_exception (c : exn_class) : bool :=
  match c with
  | RequestException | HTTPError | JSONDecodeError => true
  | _ => false
  end.

Section Client.
(** The parsed JSON body of a response, and the literal [{"items": []}]. *)
Variable body : Type.
Variable empty_items : body.

(** The outcome of one [SESSION.get]: a response with its status and the
    value that [resp.json()] gives on its body; a response whose body is not
    JSON, on which [resp.json()] raises [requests.JSONDecodeError] with the
    message [msg]; or a [requests.RequestException] (connection error,
    timeout). *)
Inductive http_outcome :=
| Resp (status : Z) (json : body)
| RespNotJson (status : Z) (msg : pystr)
| NetFail (msg : pystr).

(** [os.getenv], the two credential values of config.py (the file sets
    them to literals of 39 and 17 characters; they are not repeated here),
    the outcome of the k-th GET of the session and the k-th draw of
    [random.uniform(0, 0.25)]. *)
Variable getenv : pystr -> option pystr.
Variable GOOGLE_API_KEY_ENV GOOGLE_CSE_CX_ENV : pystr.
Variable session_get : nat -> http_outcome.
Variable jitter : nat -> Q.

(** [os.getenv(name) or (name if name and len(name) > bound else None)] *)
Definition credential (name : pystr) (bound : Z) : option pystr :=
  match getenv name with
  | Some v =>
      if truthy v then Some v
      else if truthy name && (len name >? bound) then Some name else None
  | None => if truthy name && (len name >? bound) then Some name else None
  end.

(** A credential is absent from the environment when the variable is unset
    or empty, and from the configuration when the configured value is not
    longer than the bound the source asks for. *)
Definition env_absent (name : pystr) : Prop :=
  getenv name = None \/ getenv name = Some [].

Definition credential_absent (name : pystr) (bound : Z) : Prop :=
  env_absent name /\ len name <= bound.

(** [time.sleep(backoff ** attempt + random.uniform(0, 0.25))] *)
Definition backoff_sleep (backoff : Q) (attempt : Z) (w : world) : world :=
  let sleep_s := (Qpower backoff attempt + jitter (List.length (sleeps w)))%Q in
  mk_world (requests w) (sleeps w ++ [sleep_s]).

Definition do_get (params : cse_params) (w : world) : http_outcome * world :=
  (session_get (List.length (requests w)),
   mk_world (requests w ++ [params]) (sleeps w)).

(** How the [try] block of one attempt ends when it does not raise. *)
Inductive flow :=
| Returned (json : body)
| NextAttempt.

(** The [try] block of one attempt from the status test on; [json] is the
    outcome of [resp.json()], which runs for a status 200 only. *)
Definition on_response (status : Z) (json : result body) (backoff : Q)
    (attempt : Z) (w : world) : result flow * world :=
  if status =? 200 then
    match json with
    | Ok data => (Ok (Returned data), w)
    | Raise e => (Raise e, w)
    end
  else if retryable status then (Ok NextAttempt, backoff_sleep backoff attempt w)
  else
    match raise_for_status status with
    | Raise e => (Raise e, w)
    | Ok _ => (Ok NextAttempt, w)
    end.

(** The [try] block of one attempt. *)
Definition attempt_try (outcome : http_outcome) (backoff : Q) (attempt : Z)
    (w : world) : result flow * world :=
  match outcome with
  | NetFail msg => (Raise (mk_exn RequestException msg), w)
  | Resp status json => on_response status (Ok json) backoff attempt w
  | RespNotJson status msg =>
      on_response status (Raise (mk_exn JSONDecodeError msg)) backoff attempt w
  end.

(** [for attempt in range(retries)], with [fuel] attempts left. *)
Fixpoint retry_loop (params : cse_params) (backoff : Q) (fuel : nat)
    (attempt : Z) (w : world) : result body * world :=
  match fuel with
  | O => (Ok empty_items, w)
  | S fuel' =>
      let '(outcome, w1) := do_get params w in
      match attempt_try outcome backoff attempt w1 with
      | (Ok (Returned json), w2) => (Ok json, w2)
      | (Ok NextAttempt, w2) => retry_loop params backoff fuel' (attempt + 1) w2
      | (Raise e, w2) =>
          if is_request_exception (exn_cls e)
          then retry_loop params backoff fuel' (attempt + 1)
                 (backoff_sleep backoff attempt w2)
          else (Raise e, w2)
      end
  end.

Definition assert_message : pystr :=
  str "Set GOOGLE_API_KEY and GOOGLE_CSE_CX environment variables (or populate config values)".

Definition google_cse_search (q : pystr) (num start : Z) (lr : option pystr)
    (hl gl : pystr) (safe : option pystr) (retries : Z) (backoff : Q)
    (w : world) : result body * world :=
  match credential GOOGLE_API_KEY_ENV 20, credential GOOGLE_CSE_CX_ENV 5 with
  | Some api_key, Some cse_cx =>
      let params :=
        mk_params api_key cse_cx q
          (Z.max 1 (Z.min 10 num)) (Z.max 1 (Z.min 91 start)) hl gl
          (match lr with
           | Some l => if truthy l then Some l else None
           | None => None
           end)
          (match safe with
           | Some s => if str_mem s [str "active"; str "off"] then Some s else None
           | None => None
           end) in
      retry_loop params backoff (Z.to_nat retries) 0 w
  | _, _ => (Raise (mk_exn AssertionError assert_message), w)
  end.

(** The call with the defaults of the signature: [num=10], [start=1],
    [lr=None], [hl="en"], [gl="us"], [safe=None], [retries=3],
    [backoff=1.4]. *)
Definition google_cse_search_default (q : pystr) (w : world)
  : result body * world :=
  google_cse_search q 10 1 None (str "en") (str "us") None 3 (14 # 10) w.
End Client.

Arguments Resp {body} status json.
Arguments RespNotJson {body} status msg.
Arguments NetFail {body} msg.

End SearchClient.

(** Scripted sessions for the examples. *)
Module SearchExamples.
Import SearchClient.

(** The session of the examples: the outcomes of the successive GETs, then
    connection errors. *)
Definition scripted (outcomes : list (http_outcome pystr)) (k : nat)
  : http_outcome pystr :=
  nth k outcomes (NetFail (str "connection refused")).

(** The default call of the examples, with both credentials set in the
    environment and a constant jitter of 0.1 s. *)
Definition search_with (outcomes : list (http_outcome pystr))
  : result pystr * world :=
  google_cse_search_default pystr (str "{items: []}")
    (fun _ => Some (str "secret")) (str "GOOGLE_API_KEY") (str "GOOGLE_CSE_CX")
    (scripted outcomes) (fun _ => 1 # 10) (str "query") (mk_world [] []).

End SearchExamples.

(* ================================================================== *)
(** ** backend_api.py : find_quote_origin *)

Module BackendApi.
Import SnippetMatcher.

Record QuoteRequest := mk_request {
  quote_id : pystr;
  quote_content : pystr;
  article_text : option pystr;
  article_date : option pystr;
  debug : bool;
  top_matches : Z
}.

Record CandidateResult := mk_candidate_result {
  candidate_index : Z;
  original_span : pystr;
  similarity_score : Q;
  source_url : pystr;
  best_sentence : option pystr;
  distortion_score : option Q;
  is_distorted : option bool
}.

(** The values stored in the [debug_info] dict. *)
Inductive debug_value :=
| DPipeline (entities : list pystr) (keywords_count : Z)
| DStr (s : pystr)
| DInt (z : Z).

Definition debug_dict := list (pystr * debug_value).

(** The declared fields of the pydantic model [QuoteResponse]. *)
Record QuoteResponse := mk_response {
  r_quote_id : pystr;
  r_quote_content : pystr;
  r_candidates : list CandidateResult;
  r_best_candidate : option CandidateResult;
  r_error : option pystr;
  r_debug_info : option debug_dict
}.

(** A value passed as keyword argument or found in the serialised response. *)
Inductive pyval :=
| VNone
| VStr (s : pystr)
| VFloat (q : Q)
| VCandidate (c : CandidateResult)
| VCandidates (l : list CandidateResult)
| VDebug (d : debug_dict).

Definition kwargs := list (pystr * pyval).

Fixpoint lookup {V} (key : pystr) (d : list (pystr * V)) : option V :=
  match d with
  | [] => None
  | (k, v) :: rest => if PyStr.eqb k key then Some v else lookup key rest
  end.

(** [d[key] = v] on a dict in insertion order. *)
Fixpoint dict_set {V} (key : pystr) (v : V) (d : list (pystr * V)) : list (pystr * V) :=
  match d with
  | [] => [(key, v)]
  | (k, v0) :: rest =>
      if PyStr.eqb k key then (k, v) :: rest else (k, v0) :: dict_set key v rest
  end.

Definition validation_error (field : string) : exn :=
  mk_exn ValueError (str "validation error for QuoteResponse: " ++ str field).

(** [QuoteResponse(...)] called with keyword arguments.  The model is a pydantic [BaseModel] with the
    default configuration: a required field that is missing or of the wrong
    type fails validation, an optional field defaults to [None], and a
    keyword that names no declared field is ignored. *)
Definition QuoteResponse_init (kw : kwargs) : result QuoteResponse :=
  match lookup (str "quote_id") kw with
  | Some (VStr qid) =>
    match lookup (str "quote_content") kw with
    | Some (VStr content) =>
      match lookup (str "candidates") kw with
      | Some (VCandidates cands) =>
        match
          match lookup (str "best_candidate") kw with
          | None | Some VNone => Ok None
          | Some (VCandidate c) => Ok (Some c)
          | Some _ => Raise (validation_error "best_candidate")
          end,
          match lookup (str "error") kw with
          | None | Some VNone => Ok None
          | Some (VStr e) => Ok (Some e)
          | Some _ => Raise (validation_error "error")
          end,
          match lookup (str "debug_info") kw with
          | None | Some VNone => Ok None
          | Some (VDebug d) => Ok (Some d)
          | Some _ => Raise (validation_error "debug_info")
          end
        with
        | Ok best, Ok err, Ok dbg => Ok (mk_response qid content cands best err dbg)
        | Raise e, _, _ | _, Raise e, _ | _, _, Raise e => Raise e
        end
      | _ => Raise (validation_error "candidates")
      end
    | _ => Raise (validation_error "quote_content")
    end
  | _ => Raise (validation_error "quote_id")
  end.

Definition opt_val {A} (inj : A -> pyval) (o : option A) : pyval :=
  match o with
  | Some a => inj a
  | None => VNone
  end.

(** The outbound JSON object: the endpoint declares
    [response_model=QuoteResponse], so the body holds the declared fields. *)
Definition response_json (r : QuoteResponse) : list (pystr * pyval) :=
  [ (str "quote_id", VStr (r_quote_id r));
    (str "quote_content", VStr (r_quote_content r));
    (str "candidates", VCandidates (r_candidates r));
    (str "best_candidate", opt_val VCandidate (r_best_candidate r));
    (str "error", opt_val VStr (r_error r));
    (str "debug_info", opt_val VDebug (r_debug_info r)) ].

(** The dict returned by [build_queries_from_text], as far as the endpoint
    reads it: the keys of [entities_by_type] and the two queries. *)
Record pipeline_result := mk_pipeline_result {
  pr_entities_by_type : Keywords.by_type;
  pr_query_ko : option pystr;
  pr_query_en : option pystr
}.

(** The JSON values that are not objects, and the name of the Python type
    that [json] gives them. *)
Inductive json_kind := JString | JInt | JFloat | JBool | JNull | JArray.

Definition type_name (kind : json_kind) : pystr :=
  match kind with
  | JString => str "str"
  | JInt => str "int"
  | JFloat => str "float"
  | JBool => str "bool"
  | JNull => str "NoneType"
  | JArray => str "list"
  end.

(** One element of the ["items"] array of the search response: a JSON object
    with its optional ["link"], ["formattedUrl"] and ["snippet"], or a JSON
    value that is not an object. *)
Inductive search_item :=
| ItemDict (link formattedUrl snippet : option pystr)
| ItemOther (kind : json_kind).

(** The dict returned by [score_quote_pair]. *)
Record distortion := mk_distortion { prob_distorted : Q; d_is_distorted : bool }.

(** The external collaborators of the endpoint. *)
Record collaborators := mk_collaborators {
  build_queries_from_text :
    pystr -> pystr -> option pystr -> bool -> result pipeline_result;
  translate_ko_to_en : pystr -> result pystr;
  (** [google_cse_search(query, num=10, debug=...)]; the value is
      [data.get("items")], [None] when the key is absent or null. *)
  cse_search : pystr -> bool -> result (option (list search_item));
  match_snippet :
    pystr -> option pystr -> pystr -> Z -> Z -> result (option span_res);
  score_quote_pair : pystr -> pystr -> result distortion
}.

(** [a or b] on optional strings. *)
Definition or_str (a b : option pystr) : option pystr :=
  match a with
  | Some s => if truthy s then a else b
  | None => b
  end.

Definition truthy_opt (a : option pystr) : bool :=
  match a with
  | Some s => truthy s
  | None => false
  end.

(** Round half to even, as [round] does on the exact value of a float. *)
Definition round_half_even (q : Q) : Z :=
  let f := Qfloor q in
  match Qcompare (q - inject_Z f) (1 # 2) with
  | Lt => f
  | Gt => f + 1
  | Eq => if Z.even f then f else f + 1
  end.

(** [round(q, ndigits)] with [scale = 10 ** ndigits]. *)
Definition py_round (q : Q) (scale : positive) : Q :=
  Qmake (round_half_even (q * inject_Z (Zpos scale))) scale.

(** The largest [e] with [2 ** e <= q], for a positive [q]. *)
Definition floor_log2 (q : Q) : Z :=
  let e0 := Z.log2 (Qnum q) - Z.log2 (Zpos (Qden q)) in
  if Qle_bool (Qpower 2 e0) q then e0 else e0 - 1.

(** The float nearest to [q], ties going to the even significand: a float
    (IEEE 754 binary64) has 53 significant bits, and the floats below
    [2 ** -1022] are [2 ** -1074] apart.  Values beyond the largest float
    are outside the model. *)
Definition binary64_round (q : Q) : Q :=
  if Qeq_bool q 0 then 0
  else
    let e := Z.max (floor_log2 (Qabs q) - 52) (-1074) in
    (inject_Z (round_half_even (q / Qpower 2 e)) * Qpower 2 e)%Q.

(** [a * b] on floats: the exact product, rounded to the nearest float. *)
Definition float_mul (a b : Q) : Q := binary64_round (a * b).

(** The body of the loop of step 5 for one search item. *)
Definition item_candidate (item : search_item) : result (option candidate) :=
  match item with
  | ItemOther kind =>
      Raise (mk_exn AttributeError
               (str "'" ++ type_name kind ++ str "' object has no attribute 'get'"))
  | ItemDict link formattedUrl snippet =>
      let url := or_str link formattedUrl in
      let snippet := match or_str snippet (Some []) with Some s => s | None => [] end in
      if truthy_opt url && truthy snippet && (len (strip snippet) >? 0)
      then Ok (Some (mk_candidate url (Some snippet)))
      else Ok None
  end.

Fixpoint candidates_for_matching (items : list search_item) : result (list candidate) :=
  match items with
  | [] => Ok []
  | item :: rest =>
      bind (item_candidate item) (fun c =>
      bind (candidates_for_matching rest) (fun cs =>
      Ok (match c with Some c => c :: cs | None => cs end)))
  end.

Section Endpoint.
Variable env : collaborators.
Variable request : QuoteRequest.

(** The body of the loop of step 6 for the candidate of rank [idx]. *)
Definition candidate_result_item (quote_en : pystr) (idx : Z) (cand : span_res)
  : CandidateResult :=
  let span_text :=
    if truthy (sr_span_text cand) then sr_span_text cand else sr_best_sentence cand in
  let scored :=
    if truthy span_text then
      match score_quote_pair env quote_en span_text with
      | Ok d => (Some (prob_distorted d), Some (d_is_distorted d))
      | Raise _ => (None, None)
      end
    else (None, None) in
  mk_candidate_result idx span_text (py_round (sr_best_score cand) 10000)
    (sr_url cand) (Some (sr_best_sentence cand)) (fst scored) (snd scored).

Fixpoint enumerate_results (quote_en : pystr) (idx : Z) (cands : list span_res)
  : list CandidateResult :=
  match cands with
  | [] => []
  | cand :: rest =>
      candidate_result_item quote_en idx cand
      :: enumerate_results quote_en (idx + 1) rest
  end.

(** The loop of step 10: the largest distortion probability of the
    candidates that have one. *)
Definition max_distortion_prob (candidate_results : list CandidateResult)
  : option Q :=
  fold_left
    (fun acc cand =>
       match distortion_score cand with
       | None => acc
       | Some d =>
           match acc with
           | None => Some d
           | Some m => if Qltb m d then Some d else acc
           end
       end)
    candidate_results None.

(** Step 10: [(max_distortion_score, label)]. *)
Definition quote_label (candidate_results : list CandidateResult)
  : option Q * option pystr :=
  match max_distortion_prob candidate_results with
  | None => (None, None)
  | Some p =>
      let max_distortion_score := py_round (float_mul p 100) 100 in
      (Some max_distortion_score,
       Some (if Qle_bool 50 max_distortion_score
             then str "distorted" else str "normal"))
  end.

(** [debug_info[key] = v], done only [if request.debug]. *)
Definition debug_set (key : string) (v : debug_value) (dbg : option debug_dict)
  : option debug_dict :=
  if debug request then
    match dbg with
    | Some d => Some (dict_set (str key) v d)
    | None => None
    end
  else dbg.

(** An early [return QuoteResponse(... candidates=[], error=...)]. *)
Definition error_response (message : pystr) (dbg : option debug_dict)
  : result QuoteResponse :=
  QuoteResponse_init
    [ (str "quote_id", VStr (quote_id request));
      (str "quote_content", VStr (quote_content request));
      (str "candidates", VCandidates []);
      (str "error", VStr message);
      (str "debug_info", opt_val VDebug dbg) ].

(** Steps 5 to 10, once the search has returned items. *)
Definition match_and_score (quote_en : pystr) (search_items : list search_item)
    (dbg : option debug_dict) : result QuoteResponse * option debug_dict :=
  let dbg := debug_set "search_items_count"
               (DInt (Z.of_nat (List.length search_items))) dbg in
  match candidates_for_matching search_items with
  | Raise e => (Raise e, dbg)
  | Ok cands =>
    match find_best_span_from_candidates_debug (match_snippet env)
            quote_en cands 1 1 0 with
    | None => (error_response (str "No matching spans found") dbg, dbg)
    | Some best_span =>
      let top_k := bg_top_k_candidates best_span in
      let candidate_results :=
        enumerate_results quote_en 0 (py_slice top_k 0 (top_matches request)) in
      let best_candidate := hd_error candidate_results in
      let '(max_distortion_score, label) := quote_label candidate_results in
      let dbg := debug_set "total_candidates_found"
                   (DInt (Z.of_nat (List.length candidate_results))) dbg in
      (QuoteResponse_init
         [ (str "quote_id", VStr (quote_id request));
           (str "quote_content", VStr (quote_content request));
           (str "candidates", VCandidates candidate_results);
           (str "best_candidate", opt_val VCandidate best_candidate);
           (str "max_distortion_score", opt_val VFloat max_distortion_score);
           (str "label", opt_val VStr label);
           (str "error", VNone);
           (str "debug_info", opt_val VDebug dbg) ], dbg)
    end
  end.

(** The [try] block of the endpoint, with the [debug_info] dict it starts
    from; it returns the dict as it stands when the block ends or raises. *)
Definition find_quote_origin_try (dbg : option debug_dict)
  : result QuoteResponse * option debug_dict :=
  match article_text request with
  | None => (error_response (str "article_text is required") dbg, dbg)
  | Some text =>
    if negb (truthy text) then
      (error_response (str "article_text is required") dbg, dbg)
    else if negb (truthy (quote_content request))
            || (len (strip (quote_content request)) =? 0) then
      (error_response (str "quote_content is empty") dbg, dbg)
    else
      match build_queries_from_text env text (quote_content request)
              (article_date request) (debug request) with
      | Raise e =>
          (error_response (str "Pipeline failed: " ++ exn_msg e) dbg, dbg)
      | Ok result =>
        let dbg := debug_set "pipeline_result"
                     (DPipeline (map fst (pr_entities_by_type result)) 0) dbg in
        let quote_en :=
          match translate_ko_to_en env (quote_content request) with
          | Ok t => t
          | Raise _ => quote_content request
          end in
        let dbg := debug_set "quote_en" (DStr quote_en) dbg in
        match or_str (pr_query_en result) (pr_query_ko result) with
        | None => (error_response (str "Could not generate search query") dbg, dbg)
        | Some query =>
          if negb (truthy query) then
            (error_response (str "Could not generate search query") dbg, dbg)
          else
            match cse_search env query (debug request) with
            | Raise e =>
                (error_response (str "Search failed: " ++ exn_msg e) dbg, dbg)
            | Ok items =>
                match items with
                | None | Some [] =>
                    (error_response (str "No search results found") dbg, dbg)
                | Some search_items => match_and_score quote_en search_items dbg
                end
            end
        end
      end
  end.

(** The search stage is reached and returns zero items. *)
Definition search_returns_nothing : Prop :=
  exists text result query,
    article_text request = Some text /\ truthy text = true
    /\ truthy (quote_content request) = true
    /\ len (strip (quote_content request)) <> 0
    /\ build_queries_from_text env text (quote_content request)
         (article_date request) (debug request) = Ok result
    /\ or_str (pr_query_en result) (pr_query_ko result) = Some query
    /\ truthy query = true
    /\ (cse_search env query (debug request) = Ok None
        \/ cse_search env query (debug request) = Ok (Some [])).

(** The endpoint: the [try] block under the catch-all
    [except Exception as e]. *)
Definition find_quote_origin : result QuoteResponse :=
  let debug_info := if debug request then Some [] else None in
  match find_quote_origin_try debug_info with
  | (Ok response, _) => Ok response
  | (Raise e, dbg) => error_response (str "Unexpected error: " ++ exn_msg e) dbg
  end.
End Endpoint.

End BackendApi.

(** Collaborators and requests for the examples. *)
Module EndpointExamples.
Import SnippetMatcher BackendApi.

(** A pipeline that produces the English query "q", a translator that is the
    identity, a search that returns [items], a matcher that finds one span of
    similarity 0.7 in every snippet, and a classifier that answers [prob]. *)
Definition example_env (items : option (list search_item)) (prob : Q)
  : collaborators :=
  mk_collaborators
    (fun _ _ _ _ => Ok (mk_pipeline_result [] None (Some (str "q"))))
    (fun s => Ok s)
    (fun _ _ => Ok items)
    (fun _ _ url _ _ =>
       Ok (Some (mk_span_res url (str "sentence") (7 # 10) (str "span") 0 0)))
    (fun _ _ =>
       Ok (mk_distortion prob (Qle_bool (1 # 2) prob))).

Definition example_request : QuoteRequest :=
  mk_request (str "q1001") (str "quote") (Some (str "article")) None false 5.

Definition one_hit : option (list search_item) :=
  Some [ItemDict (Some (str "http://a")) None (Some (str "snippet"))].

(** A candidate result whose distortion probability is [p]. *)
Definition scored (p : Q) : CandidateResult :=
  mk_candidate_result 0 (str "span") (7 # 10) (str "http://a") None (Some p) None.

End EndpointExamples.

(* ================================================================== *)
(** ** The retrieval client seen from its callers *)

Module SearchSpec.
Import SearchClient BackendApi.

Section FirstOk.
Variable body : Type.
Variable session_get : nat -> http_outcome body.

(** Of the [n] GETs numbered from [k], the first that is answered with
    status 200 and a body that is JSON: its number and its parsed body. *)
Fixpoint first_ok (k n : nat) : option (nat * body) :=
  match n with
  | O => None
  | S n' =>
      match session_get k with
      | Resp status json =>
          if status =? 200 then Some (k, json) else first_ok (S k) n'
      | RespNotJson _ _ | NetFail _ => first_ok (S k) n'
      end
  end.
End FirstOk.

(** The call of the endpoint, [google_cse_search(query, num=10, debug=...)],
    on a fresh world, followed by [data.get("items")]: the parsed body is
    the value stored under ["items"]. *)
Definition endpoint_search (getenv : pystr -> option pystr) (key cx : pystr)
    (session_get : nat -> http_outcome (option (list search_item)))
    (jitter : nat -> Q) (query : pystr) (_ : bool)
  : result (option (list search_item)) :=
  fst (google_cse_search_default (option (list search_item)) (Some [])
         getenv key cx session_get jitter query (mk_world [] [])).

(** The collaborators [env] with the search of the endpoint wired to the
    retrieval client. *)
Definition with_search (env : collaborators)
    (search : pystr -> bool -> result (option (list search_item)))
  : collaborators :=
  mk_collaborators (build_queries_from_text env) (translate_ko_to_en env)
    search (match_snippet env) (score_quote_pair env).

End SearchSpec.

(* ================================================================== *)
(** ** The endpoint seen from its callers *)

Module EndpointSpec.
Import SnippetMatcher BackendApi.

(** The collaborators [env] with another translator, or another
    classifier. *)
Definition with_translate (env : collaborators) (translate : pystr -> result pystr)
  : collaborators :=
  mk_collaborators (build_queries_from_text env) translate
    (cse_search env) (match_snippet env) (score_quote_pair env).

Definition with_classifier (env : collaborators)
    (classifier : pystr -> pystr -> result distortion) : collaborators :=
  mk_collaborators (build_queries_from_text env) (translate_ko_to_en env)
    (cse_search env) (match_snippet env) classifier.

(** A candidate and a response with the two distortion fields blanked. *)
Definition without_distortion (c : CandidateResult) : CandidateResult :=
  mk_candidate_result (candidate_index c) (original_span c) (similarity_score c)
    (source_url c) (best_sentence c) None None.

Definition response_without_distortion (r : QuoteResponse) : QuoteResponse :=
  mk_response (r_quote_id r) (r_quote_content r)
    (map without_distortion (r_candidates r))
    (option_map without_distortion (r_best_candidate r))
    (r_error r) (r_debug_info r).

(** The request passes validation, the pipeline succeeds and produces the
    search query [query]. *)
Definition reaches_search (env : collaborators) (request : QuoteRequest)
    (query : pystr) : Prop :=
  exists text result,
    article_text request = Some text /\ truthy text = true
    /\ truthy (quote_content request) = true
    /\ len (strip (quote_content request)) <> 0
    /\ build_queries_from_text env text (quote_content request)
         (article_date request) (debug request) = Ok result
    /\ or_str (pr_query_en result) (pr_query_ko result) = Some query
    /\ truthy query = true.

(** The order of the candidate list of a response. *)
Definition similarity_ge (a b : CandidateResult) : Prop :=
  (similarity_score b <= similarity_score a)%Q.

(** A response of the endpoint is an error response without candidates, or
    the scored prefix of the sorted matches. *)
Definition error_shape (r : QuoteResponse) : Prop :=
  r_candidates r = [] /\ r_best_candidate r = None /\ r_error r <> None.

Definition success_shape (env : collaborators) (request : QuoteRequest)
    (r : QuoteResponse) : Prop :=
  exists quote_en cands bg,
    find_best_span_from_candidates_debug (match_snippet env) quote_en cands 1 1 0
    = Some bg
    /\ r_candidates r
       = enumerate_results env quote_en 0
           (py_slice (bg_top_k_candidates bg) 0 (top_matches request))
    /\ r_best_candidate r = hd_error (r_candidates r)
    /\ r_error r = None.

(** Two outcomes of the [try] block that differ at most in the distortion
    fields of the candidates. *)
Definition same_up_to_distortion
    (a b : result QuoteResponse * option debug_dict) : Prop :=
  snd a = snd b
  /\ match fst a, fst b with
     | Ok r, Ok r' => response_without_distortion r = response_without_distortion r'
     | Raise e, Raise e' => e = e'
     | _, _ => False
     end.

End EndpointSpec.

(* ================================================================== *)
(** ** Token sequences for the properties of merge_ner_entities *)

Module EntitySpec.
Import Entities.

(** The token passes the label filter of the loop. *)
Definition is_target (t : token) : bool :=
  str_mem (entity_type t) Config.NER_LABELS.

(** [rest] continues a group whose last token is [prev]: every token is
    I-tagged with the label [label], and starts at most one character after
    the end of the token before it. *)
Fixpoint chained (label : pystr) (prev : token) (rest : list token) : Prop :=
  match rest with
  | [] => True
  | t :: rest' =>
      tag_type t = str "I" /\ entity_type t = label
      /\ tok_start t <= tok_end prev + 1
      /\ chained label t rest'
  end.

(** The tokens held by the state of the loop. *)
Definition group_tokens (g : group) : list token := fst g :: snd g.

Definition state_tokens (st : list group * list token) : list token :=
  flat_map group_tokens (fst st) ++ snd st.

End EntitySpec.

(* ================================================================== *)
(** ** The result of extract_entities_only as a set *)

Module KeywordSpec.
Import Entities Keywords.

(** The word [word] is listed under the label [label]. *)
Definition listed (ebt : by_type) (label word : pystr) : Prop :=
  exists ws, In (label, ws) ebt /\ In word ws.

Section Maximal.
Variable normalize : pystr -> pystr.

(** No entity of the input has a normal form that strictly contains [n]. *)
Definition maximal (entities : list entity) (n : pystr) : Prop :=
  forall e, In e entities -> strict_sub n (normalize (ent_word e)) = false.

(** The state of the loop after it has read the entities [done]: every
    entity read is covered by a seen form, every seen form is the normal
    form of an entity read, and the listed words are the entities read whose
    normal form is still in the set. *)
Definition covers (done : list entity) (st : list pystr * by_type) : Prop :=
  (forall e, In e done ->
     exists s, In s (fst st) /\ contains (normalize (ent_word e)) s = true)
  /\ (forall s, In s (fst st) -> exists e, In e done /\ normalize (ent_word e) = s)
  /\ (forall l w, listed (snd st) l w -> In (mk_entity l w) done)
  /\ (forall l w, In (mk_entity l w) done -> In (normalize w) (fst st) ->
        listed (snd st) l w).

(** Each label is a key once, and no list holds a word twice. *)
Definition no_repeats (ebt : by_type) : Prop :=
  NoDup (map fst ebt) /\ forall l ws, In (l, ws) ebt -> NoDup ws.
End Maximal.

End KeywordSpec.

(* ================================================================== *)
(** ** text_utils.py : clean_text, split_sentences, contains_korean,
       dedupe_preserve_order; snippet_matcher.py : split_into_sentences *)

Module Sentences.

(** [re.sub(r"\s+", " ", text)]: every maximal run of whitespace becomes one
    space.  [in_run] says that the previous character was whitespace. *)
Fixpoint collapse_ws (in_run : bool) (s : pystr) : pystr :=
  match s with
  | [] => []
  | c :: s' =>
      if isspace c then
        if in_run then collapse_ws true s' else 32%N :: collapse_ws true s'
      else c :: collapse_ws false s'
  end.

Definition clean_text (text : option pystr) : pystr :=
  match text with
  | None => []
  | Some t => strip (collapse_ws false t)
  end.

(** The class [가-힣], U+AC00 to U+D7A3. *)
Definition is_hangul (c : N) : bool := ((44032 <=? c) && (c <=? 55203))%N.

(** The class [가-힣A-Za-z] of the lookahead of [split_sentences]. *)
Definition is_letter (c : N) : bool :=
  (is_hangul c || (65 <=? c) && (c <=? 90) || (97 <=? c) && (c <=? 122))%N.

(** The class [.!?] of the lookbehind. *)
Definition sentence_end (c : N) : bool :=
  ((c =? 46) || (c =? 33) || (c =? 63))%N.

(** [text or ""] *)
Definition or_empty (text : option pystr) : pystr :=
  match text with Some t => t | None => [] end.

(** [bool(re.search(r"[가-힣]", text or ""))] *)
Definition contains_korean (text : option pystr) : bool :=
  existsb is_hangul (or_empty text).

(** [re.split] on the pattern [(?<=[.!?])\s+] followed by a lookahead.  The
    pattern matches at the first character of a whitespace run that comes
    right after one of [.!?], takes the whole run, and needs [ahead] to hold
    of the text after the run; a shorter run ends before whitespace, and a
    later start has whitespace behind it, so a run that fails is kept in the
    piece.  [skipping]: inside a matched run; [prev_end]: the previous
    character is one of [.!?]; [cur]: the piece being read, reversed. *)
Fixpoint re_split_aux (ahead : pystr -> bool) (skipping prev_end : bool)
    (cur s : pystr) : list pystr :=
  match s with
  | [] => [rev cur]
  | c :: s' =>
      if isspace c then
        if skipping then re_split_aux ahead true false cur s'
        else if prev_end && ahead (lstrip s')
             then rev cur :: re_split_aux ahead true false [] s'
             else re_split_aux ahead false false (c :: cur) s'
      else re_split_aux ahead false (sentence_end c) (c :: cur) s'
  end.

Definition re_split (ahead : pystr -> bool) (s : pystr) : list pystr :=
  re_split_aux ahead false false [] s.

(** The lookahead [(?=[가-힣A-Za-z])]. *)
Definition letter_ahead (s : pystr) : bool :=
  match s with
  | c :: _ => is_letter c
  | [] => false
  end.

(** text_utils.split_sentences *)
Definition split_sentences (text : option pystr) : list pystr :=
  let text := clean_text text in
  if negb (truthy text) then [] else re_split letter_ahead text.

(** The two [continue] tests of the loop of [split_into_sentences], after
    the test for an empty sentence. *)
Definition long_enough (is_ko : bool) (s : pystr) : bool :=
  negb (is_ko && (len s <? 10)) && negb (negb is_ko && (len s <? 20)).

(** snippet_matcher.split_into_sentences *)
Definition split_into_sentences (text : option pystr) (is_ko : option bool)
  : list pystr :=
  let is_ko := match is_ko with
               | None => contains_korean text
               | Some b => b
               end in
  let rough := re_split (fun _ => true) (or_empty text) in
  filter (fun s => truthy s && long_enough is_ko s)
         (map (fun s => clean_text (Some s)) rough).

(** The loop of [dedupe_preserve_order] on the state [(seen, result)]. *)
Fixpoint dedupe_order_loop (items seen result : list pystr) : list pystr :=
  match items with
  | [] => result
  | item :: rest =>
      if str_mem item seen then dedupe_order_loop rest seen result
      else dedupe_order_loop rest (item :: seen) (result ++ [item])
  end.

Definition dedupe_preserve_order (items : list pystr) : list pystr :=
  dedupe_order_loop items [] [].

(** A word of [str.split]: not empty and free of whitespace. *)
Definition is_a_word (w : pystr) : bool :=
  truthy w && forallb (fun c => negb (isspace c)) w.

(** Whitespace occurs only as single spaces between other characters, never
    at the end. *)
Fixpoint single_spaced (s : pystr) : bool :=
  match s with
  | [] => true
  | c :: s' =>
      (if isspace c
       then (c =? 32)%N && match s' with
                           | d :: _ => negb (isspace d)
                           | [] => false
                           end
       else true) && single_spaced s'
  end.

(** The piece ends with one of [.!?]. *)
Definition ends_sentence (p : pystr) : bool :=
  match rev p with
  | c :: _ => sentence_end c
  | [] => false
  end.

End Sentences.

(** [find_best_match_span_in_snippet] with the sentence splitter of the
    module, called as the source calls it, with [is_ko=False]. *)
Module MatcherSpec.
Import SnippetSpan SnippetMatcher Sentences.

Definition split_en (text : pystr) : list pystr :=
  split_into_sentences (Some text) (Some false).

(** The text of the window around the sentence [center], as [extract_span]
    builds it. *)
Definition window_lo (num_before : Z) (center : nat) : Z :=
  Z.max 0 (Z.of_nat center - num_before).

Definition window_hi (sentences : list pystr) (num_after : Z) (center : nat) : Z :=
  Z.min (Z.of_nat (List.length sentences) - 1) (Z.of_nat center + num_after).

Definition window_text (sentences : list pystr) (num_before num_after : Z)
    (center : nat) : pystr :=
  join (str " ")
    (py_slice sentences (window_lo num_before center)
       (window_hi sentences num_after center + 1)).

(** The span texts of the snippet, one per centre sentence, in order. *)
Definition window_texts (sentences : list pystr) (num_before num_after : Z)
  : list pystr :=
  map (window_text sentences num_before num_after) (seq 0 (List.length sentences)).

(** The quote side of the comparison: the window around the middle sentence
    of the quote, or the whole quote when it has no sentence. *)
Definition quote_span (split : pystr -> list pystr) (quote_text : pystr)
    (num_before num_after : Z) : pystr :=
  match split quote_text with
  | [] => quote_text
  | qs => window_text qs num_before num_after (List.length qs / 2)%nat
  end.

End MatcherSpec.

(* ================================================================== *)
(** ** query_builder.py : generate_search_query; pipeline.py *)

Module QueryGen.
Import Keywords QueryBuilder.

(** [entities_by_type.get(key, [])] *)
Definition get_words (key : pystr) (ebt : by_type) : list pystr :=
  match find (fun kv => PyStr.eqb (fst kv) key) ebt with
  | Some (_, ws) => ws
  | None => []
  end.

(** [[s] if s else []], the guarded [append] of the source. *)
Definition if_truthy (s : pystr) : list pystr :=
  if truthy s then [s] else [].

(** [quote_sentence] when it is given and not empty. *)
Definition given (quote_sentence : option pystr) : list pystr :=
  match quote_sentence with
  | Some q => if_truthy q
  | None => []
  end.

Section Generate.
(** The regex class [\w] and [str.lower], Unicode tables of the runtime. *)
Variable is_word : N -> bool.
Variable lower : pystr -> pystr.
(** [resolve_person_name_en] and [translate_ko_to_en]. *)
Variable resolve_person_name_en : pystr -> result pystr.
Variable translate_ko_to_en : pystr -> result pystr.

(** What the loop over [loc_list] appends to [locs_en_tokens] for one
    location: the first two words of the translation up to its first comma,
    nothing when they are empty, the location itself when the translation
    fails. *)
Definition loc_en_tokens (loc : pystr) : list pystr :=
  match translate_ko_to_en loc with
  | Ok loc_en_full =>
      let loc_en_first := hd [] (split_char 44%N loc_en_full) in
      let loc_en_first := join (str " ") (firstn 2 (split_ws loc_en_first)) in
      if_truthy loc_en_first
  | Raise _ => [loc]
  end.

(** Step 3: the translated quote, [None] when there is no quote or the
    translation fails. *)
Definition quote_en_full (quote_sentence : option pystr) : option pystr :=
  match given quote_sentence with
  | q :: _ =>
      match translate_ko_to_en q with
      | Ok t => Some t
      | Raise _ => None
      end
  | [] => None
  end.

(** Step 1: the English name of the speaker. *)
Definition speaker_en (use_wikidata : bool) (speaker_ko : pystr) : result pystr :=
  if use_wikidata then resolve_person_name_en speaker_ko
  else Ok (match translate_ko_to_en speaker_ko with
           | Ok t => t
           | Raise _ => speaker_ko
           end).

(** Step 2: [loc_list], at most two locations, deduplicated. *)
Definition loc_list (entities_by_type : by_type) : list pystr :=
  _dedupe_preserve is_word lower (firstn 2 (get_words (str "LOC") entities_by_type)).

(** Step 5: [query_ko_parts]. *)
Definition query_ko_parts (speaker_ko : pystr) (entities_by_type : by_type)
    (quote_sentence : option pystr) : list pystr :=
  [speaker_ko]
  ++ if_truthy (join (str " ") (loc_list entities_by_type))
  ++ given quote_sentence.

(** [s or None] *)
Definition or_none (s : pystr) : option pystr :=
  if truthy s then Some s else None.

(** The returned dict as the pair [(ko, en)].  [_format_date_en] is called
    first on [article_date]; its result is not used. *)
Definition generate_search_query (entities_by_type : by_type)
    (quote_sentence article_date : option pystr) (use_wikidata : bool)
  : result (option pystr * option pystr) :=
  match get_words (str "PER") entities_by_type with
  | [] => Ok (None, None)
  | speaker_ko :: _ =>
      bind (speaker_en use_wikidata speaker_ko) (fun speaker_en =>
      let locs_en_tokens := flat_map loc_en_tokens (loc_list entities_by_type) in
      let query_en_tokens :=
        _dedupe_preserve is_word lower (speaker_en :: locs_en_tokens)
        ++ match quote_en_full quote_sentence with
           | Some t => if_truthy t
           | None => []
           end in
      let query_en := strip (join (str " ") query_en_tokens) in
      let query_ko :=
        strip (join (str " ")
                 (_dedupe_preserve is_word lower
                    (split_ws (join (str " ")
                       (query_ko_parts speaker_ko entities_by_type quote_sentence))))) in
      Ok (or_none query_ko, or_none query_en))
  end.
End Generate.

End QueryGen.

Module Pipeline.
Import Entities Keywords QueryGen BackendApi.

Section Build.
Variable is_word : N -> bool.
Variable lower : pystr -> pystr.
(** The order in which the set of seen forms is enumerated. *)
Variable enum : list pystr -> list pystr.
(** The loaded tagger. *)
Variable ner : pystr -> list token.
Variable resolve_person_name_en : pystr -> result pystr.
Variable translate_ko_to_en : pystr -> result pystr.

(** [extract_entities_only] as the module wires it: [split_sentences] and
    [normalize_korean_phrase] of text_utils. *)
Definition extraction (text : pystr) : list entity * by_type :=
  extract_entities_only (TextUtils.normalize_korean_phrase lower) enum
    (fun t => Sentences.split_sentences (Some t)) ner text.

(** [build_queries_from_text]: the extraction, then the queries; the
    arguments are [text], [quote_sentence], [article_date] and [debug]. *)
Definition build_queries_from_text (text quote_sentence : pystr)
    (article_date : option pystr) (_ : bool) : result pipeline_result :=
  let entities_by_type := snd (extraction text) in
  bind (generate_search_query is_word lower resolve_person_name_en
          translate_ko_to_en entities_by_type (Some quote_sentence)
          article_date true)
       (fun queries =>
          Ok (mk_pipeline_result entities_by_type (fst queries) (snd queries))).
End Build.

(** The collaborators [env] with the pipeline of the module in place of
    [build_queries_from_text]; the translator is the one the endpoint
    uses. *)
Definition with_pipeline (env : collaborators) (is_word : N -> bool)
    (lower : pystr -> pystr) (enum : list pystr -> list pystr)
    (ner : pystr -> list token) (resolve : pystr -> result pystr) : collaborators :=
  mk_collaborators
    (build_queries_from_text is_word lower enum ner resolve
       (BackendApi.translate_ko_to_en env))
    (BackendApi.translate_ko_to_en env) (cse_search env) (match_snippet env)
    (score_quote_pair env).

End Pipeline.

(* ================================================================== *)
(** ** search_client.py : is_valid_page, collect_candidates_google_cse *)

Module Collector.
Import Sentences BackendApi.

(** A field of a JSON object: the key is absent, its value is null, or it
    holds a string. *)
Inductive json_field :=
| Absent
| Null
| Text (s : pystr).

(** [it.get(key)] and [it.get(key, "")] *)
Definition get (f : json_field) : option pystr :=
  match f with
  | Text s => Some s
  | _ => None
  end.

Definition get_or_empty (f : json_field) : option pystr :=
  match f with
  | Absent => Some []
  | Null => None
  | Text s => Some s
  end.

(** One element of ["items"]. *)
Record item := mk_item {
  it_link : json_field;
  it_formattedUrl : json_field;
  it_title : json_field;
  it_snippet : json_field
}.

(** The dict appended to [candidates]. *)
Record cse_candidate := mk_cse_candidate {
  c_domain : pystr;
  c_title : option pystr;
  c_url : pystr;
  c_snippet : option pystr
}.

(** The keyword arguments of one call of [google_cse_search]. *)
Record search_call := mk_search_call {
  s_q : pystr; s_num : Z; s_start : Z; s_lr : option pystr;
  s_hl : pystr; s_gl : pystr; s_safe : option pystr; s_debug : bool
}.

(** What the process has done so far: the searches made, the pages
    fetched and the delays slept, oldest first. *)
Record crawl := mk_crawl {
  searches : list search_call;
  pages : list pystr;
  naps : list Q
}.

(** The outcome of [SESSION.get(url)]: a response with its status, its
    [Content-Type] header and its text, or a [requests.RequestException]. *)
Inductive page_outcome :=
| PageResp (status : Z) (content_type text : option pystr)
| PageFail (msg : pystr).

Definition HTML_MIN_LENGTH : Z := 500.

Definition BASE_DOMAINS : list pystr :=
  [str "site:whitehouse.gov"; str "site:congress.gov"; str "site:rollcall.com";
   str "site:millercenter.org"; str "site:un.org"; str "site:factba.se";
   str "site:foxnews.com"; str "site:c-span.org"; str "site:abcnews.go.com";
   str "site:nbcnews.com"; str "site:cnn.com"].

(** [s.replace(old, "")] for a non-empty [old]: the occurrences are removed
    from left to right; [skip] characters of the occurrence just found are
    still to be dropped. *)
Fixpoint remove_sub (old : pystr) (skip : nat) (s : pystr) : pystr :=
  match s with
  | [] => []
  | c :: s' =>
      match skip with
      | S k => remove_sub old k s'
      | O =>
          if is_prefix old s then remove_sub old (List.length old - 1) s'
          else c :: remove_sub old 0 s'
      end
  end.

Section Collect.
(** [str.lower], a Unicode table of the runtime. *)
Variable lower : pystr -> pystr.
(** The outcome of the k-th call of [google_cse_search], as
    [data.get("items")], and of the k-th page fetch. *)
Variable search_result : nat -> result (option (list item)).
Variable page : nat -> page_outcome.

(** [is_valid_page] on the outcome of its GET. *)
Definition valid_outcome (o : page_outcome) : bool :=
  match o with
  | PageFail _ => false
  | PageResp status content_type text =>
      if negb (status =? 200) then false
      else
        let content_type := lower (or_empty content_type) in
        if negb (contains (str "text/html") content_type)
           && negb (contains (str "application/xhtml+xml") content_type)
        then false
        else len (strip (or_empty text)) >? HTML_MIN_LENGTH
  end.

Definition is_valid_page (url : pystr) (w : crawl) : bool * crawl :=
  (valid_outcome (page (List.length (pages w))),
   mk_crawl (searches w) (pages w ++ [url]) (naps w)).

Definition google_cse_search (call : search_call) (w : crawl)
  : result (option (list item)) * crawl :=
  (search_result (List.length (searches w)),
   mk_crawl (searches w ++ [call]) (pages w) (naps w)).

(** [time.sleep(0.2)] *)
Definition nap (w : crawl) : crawl :=
  mk_crawl (searches w) (pages w) (naps w ++ [2 # 10]).

(** [for it in items], on the state [(candidates, seen, remaining)]. *)
Fixpoint items_loop (site_filter : pystr) (items : list item)
    (candidates : list cse_candidate) (seen : list pystr) (remaining : Z)
    (w : crawl) : list cse_candidate * list pystr * Z * crawl :=
  match items with
  | [] => (candidates, seen, remaining, w)
  | it :: rest =>
      match or_str (get (it_link it)) (get (it_formattedUrl it)) with
      | None => items_loop site_filter rest candidates seen remaining w
      | Some url =>
          if negb (truthy url) || str_mem url seen
          then items_loop site_filter rest candidates seen remaining w
          else
            let '(valid, w1) := is_valid_page url w in
            if negb valid
            then items_loop site_filter rest candidates seen remaining w1
            else
              let candidates1 :=
                candidates
                ++ [mk_cse_candidate (remove_sub (str "site:") 0 site_filter)
                      (get_or_empty (it_title it)) url
                      (get_or_empty (it_snippet it))] in
              let seen1 := url :: seen in
              let remaining1 := remaining - 1 in
              if remaining1 =? 0 then (candidates1, seen1, remaining1, w1)
              else items_loop site_filter rest candidates1 seen1 remaining1 w1
      end
  end.

(** [while remaining > 0] for one site filter, with [fuel] iterations
    left. *)
Fixpoint pages_loop (fuel : nat) (call : Z -> Z -> search_call)
    (site_filter : pystr) (start : Z) (candidates : list cse_candidate)
    (seen : list pystr) (remaining : Z) (w : crawl)
  : result (list cse_candidate * list pystr) * crawl :=
  match fuel with
  | O => (Ok (candidates, seen), w)
  | S fuel' =>
      if remaining >? 0 then
        let per_req := Z.min 10 remaining in
        match google_cse_search (call per_req start) w with
        | (Raise e, w1) => (Raise e, w1)
        | (Ok None, w1) | (Ok (Some []), w1) => (Ok (candidates, seen), w1)
        | (Ok (Some items), w1) =>
            let '(candidates2, seen2, remaining2, w2) :=
              items_loop site_filter items candidates seen remaining w1 in
            let start2 := start + per_req in
            if start2 >? 91 then (Ok (candidates2, seen2), w2)
            else pages_loop fuel' call site_filter start2 candidates2 seen2
                   remaining2 (nap w2)
        end
      else (Ok (candidates, seen), w)
  end.

(** [for site_filter in domains] *)
Fixpoint domains_loop (fuel : nat) (call : pystr -> Z -> Z -> search_call)
    (top_per_domain : Z) (domains : list pystr)
    (candidates : list cse_candidate) (seen : list pystr) (w : crawl)
  : result (list cse_candidate * list pystr) * crawl :=
  match domains with
  | [] => (Ok (candidates, seen), w)
  | site_filter :: rest =>
      match pages_loop fuel (call site_filter) site_filter 1 candidates seen
              top_per_domain w with
      | (Raise e, w1) => (Raise e, w1)
      | (Ok (candidates1, seen1), w1) =>
          domains_loop fuel call top_per_domain rest candidates1 seen1 w1
      end
  end.

(** The call of [google_cse_search] for a site filter: the sub-query is
    [f"{query} {site_filter}"], and the language settings follow from
    whether the query holds Korean. *)
Definition call_for (query : pystr) (safe : option pystr) (debug : bool)
    (site_filter : pystr) (per_req start : Z) : search_call :=
  let is_ko := contains_korean (Some query) in
  mk_search_call (query ++ str " " ++ site_filter) per_req start
    (if is_ko then Some (str "lang_ko") else None)
    (if is_ko then str "ko" else str "en")
    (if is_ko then str "kr" else str "us") safe debug.

(** [collect_candidates_google_cse] with a bound [fuel] on the iterations
    of the [while] loop of each site filter. *)
Definition collect_with (fuel : nat) (query : pystr) (top_per_domain : Z)
    (safe : option pystr) (domain_list : option (list pystr)) (debug : bool)
    (w : crawl) : result (list cse_candidate) * crawl :=
  let domains := match domain_list with
                 | Some l => l
                 | None => BASE_DOMAINS
                 end in
  match domains_loop fuel (call_for query safe debug) top_per_domain domains
          [] [] w with
  | (Ok (candidates, _), w1) => (Ok candidates, w1)
  | (Raise e, w1) => (Raise e, w1)
  end.

(** Each iteration that goes on raises [start] by at least one and stops
    above 91, so 91 iterations are never used up. *)
Definition collect_candidates_google_cse :=
  collect_with 91.
End Collect.

(** The candidates come in one block per site filter. *)
Fixpoint in_blocks (top_per_domain : Z) (domains : list pystr)
    (candidates : list cse_candidate) : Prop :=
  match domains with
  | [] => candidates = []
  | site_filter :: rest =>
      exists block others,
        candidates = block ++ others
        /\ Z.of_nat (List.length block) <= Z.max 0 top_per_domain
        /\ Forall (fun c => c_domain c = remove_sub (str "site:") 0 site_filter) block
        /\ in_blocks top_per_domain rest others
  end.

(** A search asks for 1 to 10 results from a start index of 1 to 91. *)
Definition in_quota (c : search_call) : Prop :=
  1 <= s_num c <= 10 /\ 1 <= s_start c <= 91.

(** The calls that the loops make carry the [num] and [start] they are
    given. *)
Definition passes_on (call : Z -> Z -> search_call) : Prop :=
  forall n s, s_num (call n s) = n /\ s_start (call n s) = s.

End Collector.

(* ================================================================== *)
(** ** text_utils.py : extract_quotes, extract_quotes_advanced *)

Module Quotes.
Import Sentences.

(** The characters that the class [[^closer]+] takes at the start of [s],
    and what follows them. *)
Fixpoint run_until (closer : N) (s : pystr) : pystr * pystr :=
  match s with
  | [] => ([], [])
  | c :: s' =>
      if (c =? closer)%N then ([], s)
      else let '(run, rest) := run_until closer s' in (c :: run, rest)
  end.

(** A match of the pattern [opener([^closer]+)closer] at the start of [s]:
    its group.  The class cannot take [closer], so giving back characters
    of the run never helps: the match fails when the run is empty or goes
    on to the end of the string. *)
Definition match_here (opener closer : N) (s : pystr) : option pystr :=
  match s with
  | [] => None
  | c :: s' =>
      if (c =? opener)%N then
        match run_until closer s' with
        | (c1 :: run, _ :: _) => Some (c1 :: run)
        | _ => None
        end
      else None
  end.

(** [re.findall] of that pattern: the groups of the matches, found from
    left to right, none overlapping another; [skip] characters of the match
    just found are still to be passed. *)
Fixpoint findall (opener closer : N) (skip : nat) (s : pystr) : list pystr :=
  match s with
  | [] => []
  | _ :: s' =>
      match skip with
      | S k => findall opener closer k s'
      | O =>
          match match_here opener closer s with
          | Some group =>
              group :: findall opener closer (S (List.length group)) s'
          | None => findall opener closer 0 s'
          end
      end
  end.

(** The straight double quote (U+0022). *)
Definition dquote : N := 34.

Definition extract_quotes (text : option pystr) : list pystr :=
  findall dquote dquote 0 (or_empty text).

(** The four patterns of [extract_quotes_advanced], as opening and closing
    mark: curly double quotes (U+201C, U+201D), the straight double quote,
    the straight single quote (U+0027) and curly single quotes (U+2018,
    U+2019). *)
Definition patterns : list (N * N) :=
  [(8220, 8221); (dquote, dquote); (39, 39); (8216, 8217)]%N.

(** [quotes], after the loop over the patterns. *)
Definition found_quotes (text : pystr) : list pystr :=
  flat_map (fun p => findall (fst p) (snd p) 0 text) patterns.

(** [for q in quotes], on the state [(seen, unique_quotes)]. *)
Fixpoint unique_loop (min_length : Z) (quotes seen unique_quotes : list pystr)
  : list pystr :=
  match quotes with
  | [] => unique_quotes
  | q :: rest =>
      let cleaned := strip q in
      if (len cleaned <? min_length) || str_mem cleaned seen
      then unique_loop min_length rest seen unique_quotes
      else unique_loop min_length rest (cleaned :: seen)
             (unique_quotes ++ [cleaned])
  end.

Definition extract_quotes_advanced (text : option pystr) (min_length : Z)
  : list pystr :=
  let text := or_empty text in
  unique_loop min_length (found_quotes text) [] [].

End Quotes.

(* ================================================================== *)
(** ** name_resolution.py : resolve_person_name_en *)

Module NameResolution.
Import Sentences.

Section Resolve.
(** [PERSON_NAME_LEXICON], a dict of the module [name_lexicon]: its items in
    insertion order, no key twice. *)
Variable PERSON_NAME_LEXICON : list (pystr * pystr).
(** [get_wikidata_english_name(name, timeout)], as [info.get("en")] of the
    dict it returns, and [translate_ko_to_en]. *)
Variable get_wikidata_english_name : pystr -> Z -> result (option pystr).
Variable translate_ko_to_en : pystr -> result pystr.

(** [PERSON_NAME_LEXICON[name]] when [name in PERSON_NAME_LEXICON]. *)
Definition lexicon_entry (name : pystr) : option pystr :=
  option_map snd (find (fun kv => PyStr.eqb (fst kv) name) PERSON_NAME_LEXICON).

(** The loop over the items: the value of the first key that occurs in the
    name. *)
Definition lexicon_part (name : pystr) : option pystr :=
  option_map snd (find (fun kv => contains (fst kv) name) PERSON_NAME_LEXICON).

(** Step 3: the translation, the name itself when the translation fails. *)
Definition translated_or_name (name_ko : pystr) : pystr :=
  match translate_ko_to_en name_ko with
  | Ok translated => translated
  | Raise _ => name_ko
  end.

(** Every exception of steps 2 and 3 is caught, so the function returns a
    string on every path. *)
Definition resolve_person_name_en (name_ko : option pystr) : pystr :=
  let name_ko := strip (or_empty name_ko) in
  if negb (truthy name_ko) then []
  else
    match lexicon_entry name_ko with
    | Some val => val
    | None =>
        match lexicon_part name_ko with
        | Some val => val
        | None =>
            match get_wikidata_english_name name_ko 3 with
            | Ok (Some en) =>
                if truthy en then en else translated_or_name name_ko
            | Ok None | Raise _ => translated_or_name name_ko
            end
        end
    end.
End Resolve.

End NameResolution.

(* ================================================================== *)
(** ** The endpoint with the pipeline and the name resolver of the module *)

Module Wired.
Import Entities BackendApi.

(** [resolve_person_name_en] as [generate_search_query] calls it: it returns
    on every path. *)
Definition module_resolver (lexicon : list (pystr * pystr))
    (wikidata : pystr -> Z -> result (option pystr))
    (translate : pystr -> result pystr) (name : pystr) : result pystr :=
  Ok (NameResolution.resolve_person_name_en lexicon wikidata translate (Some name)).

(** The collaborators [env] with the pipeline of the module, which calls
    the name resolver of the module; pipeline, resolver and endpoint all call
    the one [translate_ko_to_en]. *)
Definition with_module_pipeline (env : collaborators) (is_word : N -> bool)
    (lower : pystr -> pystr) (enum : list pystr -> list pystr)
    (ner : pystr -> list token) (lexicon : list (pystr * pystr))
    (wikidata : pystr -> Z -> result (option pystr)) : collaborators :=
  Pipeline.with_pipeline env is_word lower enum ner
    (module_resolver lexicon wikidata (translate_ko_to_en env)).

(** The collaborators [env] with a pipeline that yields the given entities
    and queries, and a translator that returns its argument unchanged. *)
Definition with_queries (env : collaborators) (entities_by_type : Keywords.by_type)
    (ko en : option pystr) : collaborators :=
  mk_collaborators
    (fun _ _ _ _ => Ok (mk_pipeline_result entities_by_type ko en))
    (fun s => Ok s) (cse_search env) (match_snippet env) (score_quote_pair env).

(** Taggers and a translator for the examples: a person whose name occurs
    in the name of a place, a person alone, and a translator whose model
    fails on one text. *)
Definition kim_in_kimpo (_ : pystr) : list token :=
  [mk_token (str "PER-B") (str "Kim") 0 3; mk_token (str "LOC-B") (str "Kimpo") 4 9].

Definition trump_alone (_ : pystr) : list token :=
  [mk_token (str "PER-B") (str "Trump") 0 5].

Definition fails_on (text : pystr) (s : pystr) : result pystr :=
  if PyStr.eqb s text then Raise (mk_exn RuntimeError (str "model not loaded"))
  else Ok s.

End Wired.

(* ================================================================== *)
(** * Properties *)

Import SnippetSpan TextUtils Entities Keywords QueryBuilder SnippetMatcher.
Import MatcherExamples SearchClient SearchExamples BackendApi EndpointExamples.
Import KeywordExamples.

(** ** Strings *)

Lemma pystr_eqb_eq (a b : pystr) : PyStr.eqb a b = true <-> a = b.
Proof.
  revert b; induction a as [|x a IH]; intros [|y b]; simpl; split;
    try congruence; try reflexivity.
  - intros H. apply andb_true_iff in H as [Hx Hr].
    apply N.eqb_eq in Hx. apply IH in Hr. congruence.
  - intros H. injection H as -> ->. rewrite N.eqb_refl. simpl. now apply IH.
Qed.

Lemma pystr_eqb_refl (a : pystr) : PyStr.eqb a a = true.
Proof. now apply pystr_eqb_eq. Qed.

Lemma pystr_eqb_neq (a b : pystr) : PyStr.eqb a b = false <-> a <> b.
Proof.
  destruct (PyStr.eqb a b) eqn:E; split; intros H; try congruence.
  - apply pystr_eqb_eq in E. contradiction.
  - intros ->. rewrite pystr_eqb_refl in E. discriminate.
Qed.

Lemma pystr_eqb_sym (a b : pystr) : PyStr.eqb a b = PyStr.eqb b a.
Proof.
  destruct (PyStr.eqb b a) eqn:E.
  - apply pystr_eqb_eq in E. subst. apply pystr_eqb_refl.
  - apply pystr_eqb_neq in E. apply pystr_eqb_neq. congruence.
Qed.

Lemma str_mem_In (x : pystr) (l : list pystr) : str_mem x l = true <-> In x l.
Proof.
  unfold str_mem. rewrite existsb_exists. split.
  - intros [y [Hy E]]. apply pystr_eqb_eq in E. now subst.
  - intros H. exists x. split; [assumption | apply pystr_eqb_refl].
Qed.

(** ** extract_span *)

Lemma slice_is_window (sentences : list pystr) (lo hi : Z) :
  0 <= lo -> -1 <= hi -> hi < Z.of_nat (List.length sentences) ->
  py_slice sentences lo (hi + 1) = sentences_between sentences lo hi.
Proof.
  intros Hlo Hhi Hn. unfold py_slice, sentences_between, slice_bound.
  set (n := Z.of_nat (List.length sentences)) in *.
  destruct (lo <? 0) eqn:E1; [apply Z.ltb_lt in E1; lia|].
  destruct (hi + 1 <? 0) eqn:E2; [apply Z.ltb_lt in E2; lia|].
  destruct (Z_le_gt_dec lo n) as [Hle | Hgt].
  - replace (Z.max 0 (Z.min n lo)) with lo by lia.
    replace (Z.max 0 (Z.min n (hi + 1))) with (hi + 1) by lia.
    f_equal. lia.
  - replace (Z.max 0 (Z.min n lo)) with n by lia.
    rewrite !skipn_all2 by (subst n; lia).
    now rewrite !firstn_nil.
Qed.

(** C7.  For a non-empty sentence list and an in-range centre,
    [extract_span] returns the sentences from [max(0, center - before)] to
    [min(n - 1, center + after)], joined, with the two bounds, and does not
    raise; it raises exactly when the list is empty or the centre is out of
    range.  [num_after] is a number of sentences, hence not negative.  On
    ["a", "b", "c"] with centre 0 and one sentence on each side the window
    is clamped to [0, 1]. *)
Theorem extract_span_window (sentences : list pystr)
    (center before after : Z) (sep : pystr) :
  let n := Z.of_nat (List.length sentences) in
  ((exists e, extract_span sentences center before after sep = Raise e)
   <-> (sentences = [] \/ ~ (0 <= center < n)))
  /\ (sentences <> [] -> 0 <= center < n -> 0 <= after ->
      let lo := Z.max 0 (center - before) in
      let hi := Z.min (n - 1) (center + after) in
      extract_span sentences center before after sep
      = Ok (join sep (sentences_between sentences lo hi), lo, hi))
  /\ extract_span [str "a"; str "b"; str "c"] 0 1 1 (str " ")
     = Ok (str "a b", 0, 1).
Proof.
  intros n. unfold extract_span. fold n.
  assert (Hn : n = 0 <-> sentences = []).
  { subst n. destruct sentences; simpl; split; intros; try congruence; lia. }
  split; [|split].
  - destruct (n =? 0) eqn:E0.
    + apply Z.eqb_eq in E0. split; [intros _; left; now apply Hn | eauto].
    + apply Z.eqb_neq in E0.
      destruct ((0 <=? center) && (center <? n)) eqn:Ec; simpl.
      * apply andb_true_iff in Ec as [H1 H2].
        apply Z.leb_le in H1. apply Z.ltb_lt in H2.
        split; [intros [e He]; discriminate|].
        intros [H | H]; [apply Hn in H; contradiction | lia].
      * split; [intros _; right | eauto].
        intros [H1 H2]. apply Z.leb_le in H1. apply Z.ltb_lt in H2.
        rewrite H1, H2 in Ec. discriminate.
  - intros Hne [Hc1 Hc2] Ha.
    set (lo := Z.max 0 (center - before)). set (hi := Z.min (n - 1) (center + after)).
    cbv zeta.
    destruct (n =? 0) eqn:E0; [apply Z.eqb_eq in E0; apply Hn in E0; contradiction|].
    assert (Ec : (0 <=? center) && (center <? n) = true).
    { apply andb_true_iff. split; [now apply Z.leb_le | now apply Z.ltb_lt]. }
    rewrite Ec. simpl.
    rewrite slice_is_window; [reflexivity | subst lo; lia | subst hi; lia | subst hi n; lia].
  - reflexivity.
Qed.

Lemma extract_span_window_witness :
  extract_span [str "x"; str "y"; str "z"] 2 1 1 (str " ") = Ok (str "y z", 1, 2).
Proof.
  apply (proj1 (proj2 (extract_span_window [str "x"; str "y"; str "z"] 2 1 1 (str " "))));
    [discriminate | simpl; lia | lia].
Defined.

(** With a negative [num_after] the end of the slice can fall below zero,
    and Python then counts it from the end of the list. *)
Lemma extract_span_negative_after :
  extract_span [str "a"; str "b"; str "c"; str "d"; str "e"] 0 1 (-3) (str " ")
  = Ok (str "a b c", 0, -3).
Proof. reflexivity. Qed.

(** ** _dedupe_preserve *)

Section DedupeFacts.
Variable normalize : pystr -> pystr.

Lemma dedupe_loop_app (l1 l2 seen out : list pystr) :
  dedupe_loop normalize (l1 ++ l2) seen out
  = dedupe_loop normalize l2 (seen_after normalize l1 seen)
      (dedupe_loop normalize l1 seen out).
Proof.
  revert seen out. induction l1 as [|item l1 IH]; intros seen out; simpl.
  - reflexivity.
  - destruct (negb (truthy item)); [apply IH|].
    destruct (negb (truthy (normalize item)) || str_mem (normalize item) seen);
      apply IH.
Qed.

Lemma seen_after_mem (n : pystr) (l seen : list pystr) :
  str_mem n (seen_after normalize l seen)
  = str_mem n seen
    || existsb (fun x => truthy x && truthy (normalize x)
                         && PyStr.eqb (normalize x) n) l.
Proof.
  revert seen. induction l as [|item l IH]; intros seen; simpl.
  - now rewrite orb_false_r.
  - destruct (truthy item) eqn:Ti; simpl; [|apply IH].
    destruct (truthy (normalize item)) eqn:Tn; simpl; [|apply IH].
    destruct (str_mem (normalize item) seen) eqn:Ms; simpl.
    + rewrite IH. destruct (PyStr.eqb (normalize item) n) eqn:E; simpl; [|reflexivity].
      apply pystr_eqb_eq in E. subst n. now rewrite Ms.
    + rewrite IH. simpl. rewrite (pystr_eqb_sym n).
      now rewrite orb_assoc, (orb_comm (PyStr.eqb _ _)).
Qed.

Lemma seen_matches_earlier (pre : list pystr) (item : pystr) :
  truthy (normalize item) = true ->
  str_mem (normalize item) (seen_after normalize pre [])
  = existsb (fun x => truthy x && PyStr.eqb (normalize x) (normalize item)) pre.
Proof.
  intros Tn. rewrite seen_after_mem. simpl.
  induction pre as [|x pre IH]; simpl; [reflexivity|].
  rewrite IH. f_equal.
  destruct (PyStr.eqb (normalize x) (normalize item)) eqn:E.
  - apply pystr_eqb_eq in E. rewrite E, Tn. now rewrite !andb_true_r.
  - now rewrite !andb_false_r.
Qed.

Lemma dedupe_snoc (pre : list pystr) (item : pystr) :
  dedupe_with normalize (pre ++ [item])
  = dedupe_with normalize pre
    ++ (if first_seen normalize pre item then [item] else []).
Proof.
  unfold dedupe_with, first_seen. rewrite dedupe_loop_app. simpl.
  destruct (truthy item); simpl; [|now rewrite app_nil_r].
  destruct (truthy (normalize item)) eqn:Tn; simpl; [|now rewrite app_nil_r].
  rewrite seen_matches_earlier by assumption.
  destruct (existsb _ pre); simpl; [now rewrite app_nil_r | reflexivity].
Qed.

Lemma dedupe_drops_repeat (pre : list pystr) (item x : pystr) :
  In x pre -> truthy x = true -> normalize x = normalize item ->
  dedupe_with normalize (pre ++ [item]) = dedupe_with normalize pre.
Proof.
  intros Hin Tx E. rewrite dedupe_snoc. unfold first_seen.
  assert (H : existsb (fun y => truthy y && PyStr.eqb (normalize y) (normalize item)) pre
              = true).
  { apply existsb_exists. exists x. split; [assumption|].
    rewrite Tx, E. simpl. apply pystr_eqb_refl. }
  rewrite H. rewrite andb_false_r. apply app_nil_r.
Qed.

End DedupeFacts.

(** C9.  [_dedupe_preserve] reads the tokens left to right and appends a
    token to the output exactly when it is not empty, its normalized form is
    not empty and no earlier token has the same normalized form; the output
    built so far is never changed, so first-seen order is kept.  A later
    token whose normalized form equals that of an earlier token is dropped.
    Normalization ignores case and punctuation: ["Trump", "trump!", "Seoul"]
    gives ["Trump", "Seoul"]. *)
Theorem dedupe_preserve_first_seen (is_word : N -> bool) (lower : pystr -> pystr)
    (pre : list pystr) (item : pystr) :
  let norm := _normalize_token is_word lower in
  _dedupe_preserve is_word lower (pre ++ [item])
  = _dedupe_preserve is_word lower pre
    ++ (if first_seen norm pre item then [item] else [])
  /\ (forall x, In x pre -> truthy x = true -> norm x = norm item ->
      _dedupe_preserve is_word lower (pre ++ [item])
      = _dedupe_preserve is_word lower pre)
  /\ _normalize_token basic_is_word ascii_lower (str "trump!")
     = _normalize_token basic_is_word ascii_lower (str "Trump")
  /\ _dedupe_preserve basic_is_word ascii_lower [str "Trump"; str "trump!"; str "Seoul"]
     = [str "Trump"; str "Seoul"].
Proof.
  intros norm. unfold _dedupe_preserve. fold norm. repeat split.
  - apply dedupe_snoc.
  - intros x Hin Tx E. now apply dedupe_drops_repeat with (x := x).
Qed.

Lemma dedupe_preserve_first_seen_witness :
  _dedupe_preserve basic_is_word ascii_lower ([str "Seoul"; str "Trump"] ++ [str "SEOUL."])
  = _dedupe_preserve basic_is_word ascii_lower [str "Seoul"; str "Trump"].
Proof.
  apply (proj1 (proj2 (dedupe_preserve_first_seen basic_is_word ascii_lower
                         [str "Seoul"; str "Trump"] (str "SEOUL.")))) with (x := str "Seoul");
    [simpl; auto | reflexivity | reflexivity].
Defined.

(** ** google_cse_search *)

Section ClientFacts.
Variable body : Type.
Variable empty_items : body.
Variable getenv : pystr -> option pystr.
Variable key cx : pystr.
Variable session_get : nat -> http_outcome body.
Variable jitter : nat -> Q.

Lemma credential_none (name : pystr) (bound : Z) :
  0 <= bound ->
  (credential getenv name bound = None <-> credential_absent getenv name bound).
Proof.
  intros Hb. unfold credential, credential_absent, env_absent.
  assert (Hcfg : truthy name && (len name >? bound) = false <-> len name <= bound).
  { destruct name as [|c name']; simpl.
    - unfold len; simpl. split; [lia | reflexivity].
    - rewrite Z.gtb_ltb. split; intros H.
      + apply Z.ltb_ge in H. exact H.
      + now apply Z.ltb_ge. }
  destruct (getenv name) as [v|].
  - destruct v as [|c v']; simpl.
    + destruct (truthy name && (len name >? bound)) eqn:E.
      * split; [discriminate|]. intros [_ H]. apply Hcfg in H. discriminate.
      * split; [|reflexivity]. intros _. split; [now right | now apply Hcfg].
    + split; [discriminate|]. intros [[H | H] _]; discriminate.
  - destruct (truthy name && (len name >? bound)) eqn:E.
    + split; [discriminate|]. intros [_ H]. apply Hcfg in H. discriminate.
    + split; [|reflexivity]. intros _. split; [now left | now apply Hcfg].
Qed.

Lemma retry_loop_never_raises (params : cse_params) (backoff : Q) (fuel : nat)
    (attempt : Z) (w : world) :
  exists b w', retry_loop body empty_items session_get jitter params backoff
                 fuel attempt w = (Ok b, w').
Proof.
  revert attempt w. induction fuel as [|fuel IH]; intros attempt w; simpl.
  - eauto.
  - destruct (session_get (List.length (requests w)))
      as [status json | status msg | msg]; cbn [attempt_try]; unfold on_response.
    + destruct (status =? 200); [eauto|].
      destruct (retryable status); [apply IH|].
      unfold raise_for_status.
      destruct ((400 <=? status) && (status <? 600)); simpl; apply IH.
    + destruct (status =? 200); [simpl; apply IH|].
      destruct (retryable status); [apply IH|].
      unfold raise_for_status.
      destruct ((400 <=? status) && (status <? 600)); simpl; apply IH.
    + simpl. apply IH.
Qed.

(** Every response with a 4xx or 5xx status, retryable or not, costs one
    attempt and one sleep of [backoff ** attempt] plus jitter. *)
Lemma error_status_sleeps_and_retries (params : cse_params) (backoff : Q)
    (fuel : nat) (attempt : Z) (w : world) (status : Z) (json : body) :
  session_get (List.length (requests w)) = Resp status json ->
  400 <= status < 600 ->
  retry_loop body empty_items session_get jitter params backoff (S fuel) attempt w
  = retry_loop body empty_items session_get jitter params backoff fuel (attempt + 1)
      (backoff_sleep jitter backoff attempt
         (mk_world (requests w ++ [params]) (sleeps w))).
Proof.
  intros Hget [H1 H2]. simpl. rewrite Hget. cbn [attempt_try]. unfold on_response.
  destruct (status =? 200) eqn:E; [apply Z.eqb_eq in E; lia|].
  destruct (retryable status); [reflexivity|].
  unfold raise_for_status.
  replace ((400 <=? status) && (status <? 600)) with true; [reflexivity|].
  symmetry. apply andb_true_iff. split; [now apply Z.leb_le | now apply Z.ltb_lt].
Qed.

Lemma search_asserts_credentials (q : pystr) (num start : Z) (lr : option pystr)
    (hl gl : pystr) (safe : option pystr) (retries : Z) (backoff : Q) (w : world) :
  let call := google_cse_search body empty_items getenv key cx session_get jitter
                q num start lr hl gl safe retries backoff w in
  (credential_absent getenv key 20 \/ credential_absent getenv cx 5 ->
   call = (Raise (mk_exn AssertionError assert_message), w))
  /\ (forall e w', call = (Raise e, w') ->
      credential_absent getenv key 20 \/ credential_absent getenv cx 5).
Proof.
  intros call. subst call. unfold google_cse_search. split.
  - intros [H | H]; apply credential_none in H; try lia; rewrite H.
    + reflexivity.
    + now destruct (credential getenv key 20).
  - intros e w' Hcall.
    destruct (credential getenv key 20) eqn:Ek;
      [|left; apply credential_none; [lia | assumption]].
    destruct (credential getenv cx 5) eqn:Ec;
      [|right; apply credential_none; [lia | assumption]].
    match type of Hcall with
    | retry_loop _ _ _ _ ?p ?b ?f ?a ?w0 = _ =>
        destruct (retry_loop_never_raises p b f a w0) as [b' [w'' Hr]]
    end.
    rewrite Hr in Hcall. discriminate.
Qed.

End ClientFacts.

(** C10.  When the API key or the engine id is absent from both the
    environment and the configuration, [google_cse_search] raises an
    [AssertionError] and the world is unchanged: no request has been issued
    and nothing was slept.  It is the only way the call raises: with both
    credentials present every outcome of the session ends in a returned
    body. *)
Theorem search_without_credentials_raises (body : Type) (empty_items : body)
    (getenv : pystr -> option pystr) (key cx : pystr)
    (session_get : nat -> http_outcome body) (jitter : nat -> Q)
    (q : pystr) (num start : Z) (lr : option pystr) (hl gl : pystr)
    (safe : option pystr) (retries : Z) (backoff : Q) (w : world) :
  let call := google_cse_search body empty_items getenv key cx session_get jitter
                q num start lr hl gl safe retries backoff w in
  (credential_absent getenv key 20 \/ credential_absent getenv cx 5 ->
   call = (Raise (mk_exn AssertionError assert_message), w))
  /\ (forall e w', call = (Raise e, w') ->
      credential_absent getenv key 20 \/ credential_absent getenv cx 5).
Proof. apply search_asserts_credentials. Qed.

Lemma search_without_credentials_raises_witness :
  google_cse_search pystr [] (fun _ => None) (str "GOOGLE_API_KEY") (str "cx")
    (fun _ => Resp 200 (str "body")) (fun _ => 0%Q)
    (str "query") 10 1 None (str "en") (str "us") None 3 (14 # 10) (mk_world [] [])
  = (Raise (mk_exn AssertionError assert_message), mk_world [] []).
Proof.
  apply (proj1 (search_without_credentials_raises pystr [] (fun _ => None)
                  (str "GOOGLE_API_KEY") (str "cx")
                  (fun _ => Resp 200 (str "body")) (fun _ => 0%Q)
                  (str "query") 10 1 None (str "en") (str "us") None 3 (14 # 10)
                  (mk_world [] []))).
  left. split; [now left | unfold len; simpl; lia].
Defined.

(** C3.  Two 503 responses followed by a 200 give the body of the 200
    after two sleeps of [1.4 ** attempt] plus jitter.  A 403 does not end the
    call: [raise_for_status] raises [HTTPError], the [except
    requests.RequestException] clause catches it, sleeps and goes on to the
    next attempt, so a 403 followed by a 200 returns the body of the 200
    after two requests, and three 403 in a row give the empty result after
    three requests. *)
Theorem forbidden_status_is_retried :
  (let '(r, w) := search_with [Resp 503 (str "a"); Resp 503 (str "b"); Resp 200 (str "c")] in
   r = Ok (str "c") /\ List.length (requests w) = 3%nat
   /\ sleeps w = [(1 + (1 # 10))%Q; (Qpower (14 # 10) 1 + (1 # 10))%Q])
  /\ (let '(r, w) := search_with [Resp 403 (str "denied"); Resp 200 (str "c")] in
      r = Ok (str "c") /\ List.length (requests w) = 2%nat
      /\ List.length (sleeps w) = 1%nat)
  /\ (let '(r, w) := search_with [Resp 403 (str "x"); Resp 403 (str "y"); Resp 403 (str "z")] in
      r = Ok (str "{items: []}") /\ List.length (requests w) = 3%nat
      /\ List.length (sleeps w) = 3%nat).
Proof. vm_compute. repeat split. Qed.

(** ** find_quote_origin *)

Section EndpointFacts.
Variable env : collaborators.
Variable request : QuoteRequest.

Lemma error_response_ok (message : pystr) (dbg : option debug_dict) :
  error_response request message dbg
  = Ok (mk_response (quote_id request) (quote_content request) [] None
          (Some message) dbg).
Proof. unfold error_response. destruct dbg; reflexivity. Qed.

(** An early return: the response carries the two fields of the request. *)
Ltac early_return :=
  rewrite ?error_response_ok;
  let H := fresh in
  intros H; injection H as <- _; split; reflexivity.

Lemma match_and_score_shape (quote_en : pystr) (items : list search_item)
    (dbg dbg' : option debug_dict) (r : QuoteResponse) :
  match_and_score env request quote_en items dbg = (Ok r, dbg') ->
  r_quote_id r = quote_id request /\ r_quote_content r = quote_content request.
Proof.
  unfold match_and_score.
  destruct (candidates_for_matching items) as [cands | e]; [|discriminate].
  destruct (find_best_span_from_candidates_debug _ _ _ _ _ _) as [bg|].
  - destruct (quote_label _) as [mds label].
    set (cr := enumerate_results _ _ _ _).
    set (d := debug_set request "total_candidates_found" _ _).
    destruct (hd_error cr), mds, label, d; simpl; intros H; injection H as <- _;
      split; reflexivity.
  - rewrite error_response_ok. intros H. injection H as <- _. split; reflexivity.
Qed.

Lemma try_block_shape (dbg0 dbg' : option debug_dict) (r : QuoteResponse) :
  find_quote_origin_try env request dbg0 = (Ok r, dbg') ->
  r_quote_id r = quote_id request /\ r_quote_content r = quote_content request.
Proof.
  unfold find_quote_origin_try.
  destruct (article_text request) as [text|]; [|early_return].
  destruct (negb (truthy text)); [early_return|].
  destruct (negb (truthy (quote_content request)) || _); [early_return|].
  destruct (build_queries_from_text env _ _ _ _) as [result | e]; [|early_return].
  destruct (or_str _ _) as [query|]; [|early_return].
  destruct (negb (truthy query)); [early_return|].
  destruct (cse_search env query (debug request)) as [items | e]; [|early_return].
  destruct items as [[|item items]|]; try early_return.
  apply match_and_score_shape.
Qed.

Lemma no_results_response :
  search_returns_nothing env request ->
  exists dbg,
    find_quote_origin env request
    = Ok (mk_response (quote_id request) (quote_content request) [] None
            (Some (str "No search results found")) dbg).
Proof.
  intros (text & result & query & Ht & Tt & Tq & Hs & Hb & Hq & Tquery & Hsearch).
  unfold find_quote_origin, find_quote_origin_try.
  rewrite Ht, Tt, Tq. simpl.
  destruct (len (strip (quote_content request)) =? 0) eqn:E;
    [apply Z.eqb_eq in E; contradiction|].
  rewrite Hb, Hq, Tquery. simpl.
  destruct Hsearch as [-> | ->]; rewrite error_response_ok; eauto.
Qed.

Lemma endpoint_total :
  exists r,
    find_quote_origin env request = Ok r
    /\ r_quote_id r = quote_id request
    /\ r_quote_content r = quote_content request
    /\ (forall e dbg,
          find_quote_origin_try env request
            (if debug request then Some [] else None) = (Raise e, dbg) ->
          r = mk_response (quote_id request) (quote_content request) [] None
                (Some (str "Unexpected error: " ++ exn_msg e)) dbg).
Proof.
  unfold find_quote_origin.
  destruct (find_quote_origin_try env request _) as [[r | e] dbg] eqn:E.
  - exists r. apply try_block_shape in E as [H1 H2].
    repeat split; try assumption. intros e dbg' H. discriminate.
  - rewrite error_response_ok. eexists. repeat split.
    intros e' dbg' H. injection H as <- <-. reflexivity.
Qed.

End EndpointFacts.

(** C1.  [find_quote_origin] always returns a response: it carries the
    [quote_id] and [quote_content] of the request; when the [try] block
    raises, the catch-all turns the exception into a response with no
    candidates and the error ["Unexpected error: " + str(e)]; and when the
    search stage returns zero items the response has no candidates and the
    error ["No search results found"]. *)
Theorem find_quote_origin_never_raises (env : collaborators) (request : QuoteRequest) :
  exists r,
    find_quote_origin env request = Ok r
    /\ r_quote_id r = quote_id request
    /\ r_quote_content r = quote_content request
    /\ (forall e dbg,
          find_quote_origin_try env request
            (if debug request then Some [] else None) = (Raise e, dbg) ->
          r_candidates r = []
          /\ r_error r = Some (str "Unexpected error: " ++ exn_msg e))
    /\ (search_returns_nothing env request ->
        r_candidates r = [] /\ r_error r = Some (str "No search results found")).
Proof.
  destruct (endpoint_total env request) as (r & Hr & Hid & Hc & Hcatch).
  exists r. repeat split; try assumption.
  - now rewrite (Hcatch e dbg H).
  - now rewrite (Hcatch e dbg H).
  - destruct (no_results_response env request H) as [dbg Hn].
    rewrite Hn in Hr. now injection Hr as <-.
  - destruct (no_results_response env request H) as [dbg Hn].
    rewrite Hn in Hr. now injection Hr as <-.
Qed.

Lemma find_quote_origin_never_raises_witness :
  exists r,
    find_quote_origin (example_env (Some []) (9 # 10)) example_request = Ok r
    /\ r_candidates r = []
    /\ r_error r = Some (str "No search results found").
Proof.
  destruct (find_quote_origin_never_raises (example_env (Some []) (9 # 10)) example_request)
    as (r & Hr & _ & _ & _ & Hn).
  exists r. split; [exact Hr|]. apply Hn.
  exists (str "article"), (mk_pipeline_result [] None (Some (str "q"))), (str "q").
  repeat split; try reflexivity; try discriminate. now right.
Defined.

(** The catch-all is reached: a search response whose item is not a JSON
    object, here a string, makes [item.get] raise inside the [try] block,
    outside every inner handler. *)
Lemma catch_all_example :
  find_quote_origin (example_env (Some [ItemOther JString]) (9 # 10)) example_request
  = Ok (mk_response (str "q1001") (str "quote") [] None
          (Some (str "Unexpected error: 'str' object has no attribute 'get'")) None).
Proof. reflexivity. Qed.

(** ** The aggregate label *)

Lemma max_distortion_prob_none (cands : list CandidateResult) :
  max_distortion_prob cands = None
  <-> forall c, In c cands -> distortion_score c = None.
Proof.
  unfold max_distortion_prob.
  assert (G : forall acc,
             fold_left
               (fun acc cand =>
                  match distortion_score cand with
                  | None => acc
                  | Some d =>
                      match acc with
                      | None => Some d
                      | Some m => if Qltb m d then Some d else acc
                      end
                  end) cands acc = None
             <-> acc = None /\ forall c, In c cands -> distortion_score c = None).
  { induction cands as [|c cands IH]; intros acc; simpl.
    - split; [intros H; split; [assumption | contradiction] | now intros [H _]].
    - rewrite IH. destruct (distortion_score c) as [d|] eqn:Ed.
      + split.
        * intros [H _]. destruct acc as [m|]; [destruct (Qltb m d)|]; discriminate.
        * intros [_ H]. specialize (H c (or_introl eq_refl)). congruence.
      + split.
        * intros [H1 H2]. split; [assumption|]. intros c' [<- | Hin]; auto.
        * intros [H1 H2]. split; [assumption|]. intros c' Hin. apply H2. now right. }
  rewrite G. split; [now intros [_ H] | now split].
Qed.

(** The label is set exactly when some candidate has a distortion score,
    and it is "distorted" exactly when the rounded maximum is at least 50. *)
Lemma quote_label_threshold (cands : list CandidateResult) :
  (fst (quote_label cands) = None <-> forall c, In c cands -> distortion_score c = None)
  /\ (snd (quote_label cands) = None <-> fst (quote_label cands) = None)
  /\ (forall s, fst (quote_label cands) = Some s ->
      (snd (quote_label cands) = Some (str "distorted") <-> (50 <= s)%Q)
      /\ (snd (quote_label cands) = Some (str "normal") <-> (s < 50)%Q)).
Proof.
  unfold quote_label.
  pose proof (max_distortion_prob_none cands) as Hn.
  destruct (max_distortion_prob cands) as [p|]; cbn [fst snd].
  - set (score := py_round (float_mul p 100) 100).
    split; [|split].
    + split; [discriminate|]. intros H. apply Hn in H. discriminate.
    + split; discriminate.
    + intros s Hs. assert (Es : s = score) by congruence. subst s. clear Hs.
      destruct (Qle_bool 50 score) eqn:E.
      * apply Qle_bool_iff in E. split; split; try reflexivity; try (intros _; exact E).
        -- discriminate.
        -- intros H. exfalso. apply (Qlt_not_le _ _ H E).
      * assert (Hlt : (score < 50)%Q).
        { apply Qnot_le_lt. intros H. apply Qle_bool_iff in H. congruence. }
        split; split; try reflexivity; try (intros _; exact Hlt).
        -- discriminate.
        -- intros H. exfalso. apply (Qlt_not_le _ _ Hlt H).
  - split; [|split].
    + split; [intros _; now apply Hn | reflexivity].
    + split; reflexivity.
    + discriminate.
Qed.

(** A maximum of 49.99 gives "normal", 50.00 gives "distorted".  The
    product with 100 is a float product: 0.49995 * 100 is the float just
    below 49.995, so it is rounded down to 49.99. *)
Lemma quote_label_examples :
  quote_label [scored (4999 # 10000)] = (Some (4999 # 100), Some (str "normal"))
  /\ quote_label [scored (5000 # 10000)] = (Some (5000 # 100), Some (str "distorted"))
  /\ quote_label [scored (1 # 10); scored (1 # 2); scored (3 # 10)]
     = (Some (5000 # 100), Some (str "distorted"))
  /\ quote_label [scored (49995 # 100000)]
     = (Some (4999 # 100), Some (str "normal")).
Proof. vm_compute. repeat split. Qed.

(** C4.  The endpoint computes [max_distortion_score] and [label] and passes
    them to [QuoteResponse(...)], but the model declares neither field, so
    the outbound response never has them: with one candidate scored 0.9 the
    computed pair is (90.0, "distorted") and the response body holds only the
    six declared fields. *)
Theorem label_missing_from_response :
  (forall r, lookup (str "label") (response_json r) = None
             /\ lookup (str "max_distortion_score") (response_json r) = None)
  /\ (exists r,
        find_quote_origin (example_env one_hit (9 # 10)) example_request = Ok r
        /\ quote_label (r_candidates r) = (Some (9000 # 100), Some (str "distorted"))
        /\ map fst (response_json r)
           = [str "quote_id"; str "quote_content"; str "candidates";
              str "best_candidate"; str "error"; str "debug_info"]).
Proof.
  split.
  - intros r. split; reflexivity.
  - eexists. split; [reflexivity|]. split; reflexivity.
Qed.

(** ** merge_ner_entities *)

Lemma single_punct_length (w : pystr) :
  str_mem w single_punct = true -> len w = 1.
Proof.
  intros H. apply str_mem_In in H. unfold single_punct in H. simpl in H.
  repeat (destruct H as [<- | H]; [reflexivity|]). contradiction.
Qed.

Lemma filler_removed (w : pystr) :
  PyStr.eqb (remove_char middle_dot (remove_char hyphen (remove_char 32%N w))) []
  = only_filler w.
Proof.
  unfold remove_char. induction w as [|c w IH]; simpl; [reflexivity|].
  destruct (c =? 32)%N eqn:E1; simpl; [exact IH|].
  destruct (c =? hyphen)%N eqn:E2; simpl; [exact IH|].
  destruct (c =? middle_dot)%N eqn:E3; simpl; [exact IH | reflexivity].
Qed.

Lemma keep_word_spec (w : pystr) :
  keep_word w = negb ((len w <? 2) || only_filler w).
Proof.
  unfold keep_word. destruct (len w <? 2) eqn:E; [reflexivity|].
  rewrite orb_false_l.
  destruct (str_mem w single_punct) eqn:M.
  - apply single_punct_length in M. apply Z.ltb_ge in E. lia.
  - rewrite filler_removed. now destruct (only_filler w).
Qed.

(** C8 (amended).  A merged group is dropped from the output exactly when
    its stripped text has fewer than two characters or is made only of
    spaces, hyphens and middle dots; every other group yields one entity, in
    place. *)
Theorem short_or_filler_groups_are_dropped (pre post : list group) (g : group) :
  finalize (pre ++ g :: post)
  = finalize pre
    ++ (if (len (group_word g) <? 2) || only_filler (group_word g) then []
        else [mk_entity (entity_type (fst g)) (group_word g)])
    ++ finalize post.
Proof.
  unfold finalize. rewrite flat_map_app. simpl.
  rewrite keep_word_spec.
  now destruct ((len (group_word g) <? 2) || only_filler (group_word g)).
Qed.

(** C8 as stated fails: the text "!!" is made of punctuation only and the
    group is kept. *)
Lemma double_punctuation_is_kept :
  forallb is_punctuation (group_word (shout_token, [])) = true
  /\ finalize [(shout_token, [])] = [mk_entity (str "PER") (str "!!")]
  /\ finalize [(shout_token, [])] <> []
  /\ merge_ner_entities [shout_token] = [mk_entity (str "PER") (str "!!")].
Proof. repeat split. discriminate. Qed.

Lemma last_in_nonempty (ts : list token) (t : token) :
  ts <> [] -> In (last ts t) ts.
Proof.
  induction ts as [|x ts IH]; intros Hne; [contradiction|].
  destruct ts as [|y ts']; [now left|].
  right. apply IH. discriminate.
Qed.

Lemma last_in_buffer (t : token) (ts : list token) : In (buffer_last t ts) (t :: ts).
Proof.
  unfold buffer_last. destruct ts as [|x ts']; [now left|].
  right. apply last_in_nonempty. discriminate.
Qed.

Lemma bio_step_one_label (st : list group * list token) (ent : token) :
  one_label (snd st) -> one_label (snd (bio_step st ent)).
Proof.
  destruct st as [mg buffer]. unfold bio_step. intros Hb.
  change (one_label buffer) in Hb.
  assert (H1 : one_label [ent]).
  { intros t t' [<- | []] [<- | []]. reflexivity. }
  assert (H0 : one_label []) by (intros t t' []).
  destruct (negb (str_mem (entity_type ent) Config.NER_LABELS)); [exact Hb|].
  destruct (PyStr.eqb (tag_type ent) (str "B")); [exact H1|].
  destruct (PyStr.eqb (tag_type ent) (str "I")); [|exact H0].
  destruct buffer as [|t ts]; [exact H0|].
  destruct (PyStr.eqb (entity_type ent) (entity_type (buffer_last t ts))) eqn:E;
    [|exact H1].
  rewrite andb_true_l.
  destruct (tok_start ent <=? tok_end (buffer_last t ts) + 1); [|exact H1].
  apply pystr_eqb_eq in E. change (one_label ((t :: ts) ++ [ent])).
  assert (Hl : forall x, In x (t :: ts) -> entity_type x = entity_type ent).
  { intros x Hx. rewrite E. apply Hb; [exact Hx | apply last_in_buffer]. }
  intros a b Ha Hb'.
  apply in_app_iff in Ha. apply in_app_iff in Hb'.
  destruct Ha as [Ha | [<- | []]], Hb' as [Hb' | [<- | []]];
    try rewrite (Hl _ Ha); try rewrite (Hl _ Hb'); reflexivity.
Qed.

(** While the loop runs, the tokens of the buffer have one label, so the
    label of the last token is the label of the buffer. *)
Lemma bio_buffer_one_label (results : list token) :
  one_label (snd (fold_left bio_step results ([], []))).
Proof.
  assert (G : forall st, one_label (snd st) ->
                         one_label (snd (fold_left bio_step results st))).
  { induction results as [|ent results IH]; intros st Hst; simpl; [exact Hst|].
    apply IH. now apply bio_step_one_label. }
  apply G. intros t t' [].
Qed.

(** C5 (amended).  An I-tagged token whose label is a target label and that
    arrives while the buffer is open is appended to the buffer iff its label
    equals the label of the buffer's last token and its start is at most that
    token's end plus one; otherwise the buffer is flushed as a group and the
    token starts a new buffer.  With no open buffer the token is dropped and
    the buffer stays empty; a token whose label is not a target label leaves
    the state unchanged. *)
Theorem inside_token_rule (merged_groups : list group) (buffer : list token)
    (ent : token) :
  tag_type ent = str "I" ->
  (str_mem (entity_type ent) Config.NER_LABELS = true -> buffer <> [] ->
   bio_step (merged_groups, buffer) ent = inside_rule (merged_groups, buffer) ent)
  /\ (str_mem (entity_type ent) Config.NER_LABELS = true ->
      bio_step (merged_groups, []) ent = (merged_groups, []))
  /\ (str_mem (entity_type ent) Config.NER_LABELS = false ->
      bio_step (merged_groups, buffer) ent = (merged_groups, buffer)).
Proof.
  intros Htag. unfold bio_step, inside_rule. rewrite Htag.
  change (PyStr.eqb (str "I") (str "B")) with false.
  change (PyStr.eqb (str "I") (str "I")) with true. cbv iota.
  split; [|split].
  - intros Hl Hne. rewrite Hl. simpl negb. cbv iota.
    destruct buffer as [|t ts]; [contradiction|]. unfold continues.
    destruct (PyStr.eqb (entity_type ent) (entity_type (buffer_last t ts))
              && (tok_start ent <=? tok_end (buffer_last t ts) + 1)); reflexivity.
  - intros Hl. rewrite Hl. reflexivity.
  - intros Hl. rewrite Hl. reflexivity.
Qed.

Lemma inside_token_rule_witness :
  bio_step ([], [mk_token (str "PER-B") (str "Kim") 0 3])
    (mk_token (str "PER-I") (str "##mi") 3 5)
  = ([], [mk_token (str "PER-B") (str "Kim") 0 3; mk_token (str "PER-I") (str "##mi") 3 5]).
Proof.
  apply (proj1 (inside_token_rule [] [mk_token (str "PER-B") (str "Kim") 0 3]
                  (mk_token (str "PER-I") (str "##mi") 3 5) eq_refl));
    [reflexivity | discriminate].
Defined.

(** C5 as stated fails for an I-tagged token that arrives while no buffer
    is open: the rule would start a new buffer with it, the code drops it. *)
Lemma orphan_inside_token_is_dropped :
  tag_type orphan_token = str "I"
  /\ str_mem (entity_type orphan_token) Config.NER_LABELS = true
  /\ inside_rule ([], []) orphan_token = ([], [orphan_token])
  /\ bio_step ([], []) orphan_token = ([], [])
  /\ bio_step ([], []) orphan_token <> inside_rule ([], []) orphan_token
  /\ merge_ner_entities [orphan_token] = [].
Proof. repeat split. discriminate. Qed.

(** ** find_best_span_from_candidates_debug *)

Lemma insert_desc_perm (x : span_res) (l : list span_res) :
  Permutation (x :: l) (insert_desc x l).
Proof.
  induction l as [|y l IH]; simpl; [reflexivity|].
  destruct (Qle_bool (sr_best_score y) (sr_best_score x)); [reflexivity|].
  rewrite perm_swap. now apply perm_skip.
Qed.

Lemma sorted_desc_perm (l : list span_res) : Permutation l (sorted_desc l).
Proof.
  induction l as [|x l IH]; simpl; [reflexivity|].
  rewrite <- insert_desc_perm. now apply perm_skip.
Qed.

Lemma insert_desc_sorted (x : span_res) (l : list span_res) :
  StronglySorted score_ge l -> StronglySorted score_ge (insert_desc x l).
Proof.
  induction l as [|y l IH]; intros Hs; simpl.
  - constructor; constructor.
  - inversion Hs as [|y' l' Hl Hy]; subst.
    destruct (Qle_bool (sr_best_score y) (sr_best_score x)) eqn:E.
    + apply Qle_bool_iff in E. constructor; [assumption|].
      constructor; [exact E|].
      eapply Forall_impl; [|exact Hy].
      intros z Hz. unfold score_ge in *. now apply Qle_trans with (sr_best_score y).
    + constructor; [now apply IH|].
      eapply Permutation_Forall; [apply insert_desc_perm|].
      constructor; [|assumption].
      unfold score_ge. apply Qlt_le_weak. apply Qnot_le_lt.
      intros H. apply Qle_bool_iff in H. congruence.
Qed.

Lemma sorted_desc_sorted (l : list span_res) : StronglySorted score_ge (sorted_desc l).
Proof.
  induction l as [|x l IH]; simpl; [constructor|]. now apply insert_desc_sorted.
Qed.

(** The per-snippet matcher on a snippet of three sentences: the windows
    around the three centres are "aa bb", "aa bb cc" and "bb cc", and the
    second one wins. *)
Lemma best_match_example :
  match_by_length (str "quote") (Some (str "aa.bb.cc")) (str "http://a") 1 1
  = Ok (Some (mk_span_res (str "http://a") (str "bb") 8 (str "aa bb cc") 0 2))
  /\ match_by_length (str "quote") (Some []) (str "http://a") 1 1 = Ok None
  /\ find_best_match_span_in_snippet split_at_stops unit
       (Raise (mk_exn RuntimeError (str "model not found"))) length_similarity
       (str "quote") (Some (str "aa.bb.cc")) (str "http://a") 1 1
     = Raise (mk_exn RuntimeError (str "model not found")).
Proof. repeat split. Qed.

Section CandidateFacts.
Variable match_snippet :
  pystr -> option pystr -> pystr -> Z -> Z -> result (option span_res).
Variable quote_en : pystr.
Variable num_before num_after : Z.
Variable min_score : Q.

Let one := candidate_result match_snippet quote_en num_before num_after min_score.

Lemma global_candidates_In (candidates : list candidate) (r : span_res) :
  In r (global_candidates match_snippet quote_en candidates num_before num_after min_score)
  <-> exists cand, In cand candidates /\ one cand = Some r.
Proof.
  unfold global_candidates. rewrite in_flat_map. fold one. split.
  - intros [cand [Hin Hr]]. exists cand. split; [assumption|].
    destruct (one cand) as [r'|]; [|contradiction].
    destruct Hr as [<- | []]. reflexivity.
  - intros [cand [Hin Hr]]. exists cand. split; [assumption|].
    rewrite Hr. now left.
Qed.

Lemma candidate_result_cleared (cand : candidate) (r : span_res) :
  one cand = Some r -> (min_score <= sr_best_score r)%Q.
Proof.
  unfold one, candidate_result.
  destruct (cand_url cand) as [url|]; [|discriminate].
  destruct (negb (truthy url)); [discriminate|].
  destruct (match_snippet _ _ _ _ _) as [[r'|]|]; try discriminate.
  unfold Qltb. destruct (Qle_bool min_score (sr_best_score r')) eqn:E; simpl;
    [|discriminate].
  intros H. injection H as <-. now apply Qle_bool_iff.
Qed.

Lemma candidate_result_discards (cand : candidate) (url : pystr) (r : span_res) :
  cand_url cand = Some url ->
  match_snippet quote_en (cand_snippet cand) url num_before num_after = Ok (Some r) ->
  (sr_best_score r < min_score)%Q ->
  one cand = None.
Proof.
  intros Hu Hm Hlt. unfold one, candidate_result. rewrite Hu.
  destruct (negb (truthy url)); [reflexivity|]. rewrite Hm.
  unfold Qltb. destruct (Qle_bool min_score (sr_best_score r)) eqn:E; [|reflexivity].
  apply Qle_bool_iff in E. exfalso. apply (Qlt_not_le _ _ Hlt E).
Qed.

(** What a candidate contributes, in terms of the matcher: its result,
    unchanged, when the candidate has a url, the matcher returns a result on
    its snippet and the score of the result is not below [min_score]. *)
Lemma candidate_result_spec (cand : candidate) (r : span_res) :
  one cand = Some r
  <-> exists url,
        cand_url cand = Some url /\ url <> []
        /\ match_snippet quote_en (cand_snippet cand) url num_before num_after
           = Ok (Some r)
        /\ (min_score <= sr_best_score r)%Q.
Proof.
  unfold one, candidate_result. split.
  - destruct (cand_url cand) as [url|]; [|discriminate].
    destruct url as [|c url]; [discriminate|]. cbn [truthy negb].
    destruct (match_snippet _ _ _ _ _) as [[r'|]|] eqn:M; try discriminate.
    unfold Qltb. destruct (Qle_bool min_score (sr_best_score r')) eqn:E;
      cbn [negb]; [|discriminate].
    intros [= <-]. exists (c :: url). apply Qle_bool_iff in E.
    repeat split; [discriminate | exact M | exact E].
  - intros (url & Hu & Hne & M & Hs). rewrite Hu.
    destruct url as [|c url]; [contradiction|]. cbn [truthy negb]. rewrite M.
    unfold Qltb. apply Qle_bool_iff in Hs. now rewrite Hs.
Qed.

Lemma global_candidates_length (candidates : list candidate) :
  (List.length (global_candidates match_snippet quote_en candidates
                  num_before num_after min_score)
   <= List.length candidates)%nat.
Proof.
  unfold global_candidates. induction candidates as [|cand rest IH];
    [apply Nat.le_refl|].
  cbn [flat_map]. rewrite length_app.
  destruct (candidate_result match_snippet quote_en num_before num_after
              min_score cand); cbn [List.length] in *; lia.
Qed.

End CandidateFacts.

(** C2.  [find_best_span_from_candidates_debug] keeps, of the per-candidate
    results, those whose score is not below [min_score]: a candidate with a
    url on whose snippet the matcher returns a result of at least that score
    contributes that very result, with the matcher's score and span, and
    nothing else is kept; the kept results stand in the order of their
    candidates, one for each at most.  It returns none exactly when nothing is kept, that
    is when every result of the matcher is below the threshold, in
    particular for an empty candidate list; otherwise the list stored with
    the answer is the kept results sorted by score in descending order, the
    answer is its first element, it is the matcher's result for one of the
    candidates, and no result of the matcher that cleared the threshold has a
    higher score. *)
Theorem best_span_is_top_of_kept
    (match_snippet : pystr -> option pystr -> pystr -> Z -> Z -> result (option span_res))
    (quote_en : pystr) (candidates : list candidate) (num_before num_after : Z)
    (min_score : Q) :
  let one := candidate_result match_snippet quote_en num_before num_after min_score in
  let kept := global_candidates match_snippet quote_en candidates
                num_before num_after min_score in
  let answer := find_best_span_from_candidates_debug match_snippet quote_en
                  candidates num_before num_after min_score in
  let cleared (cand : candidate) (r : span_res) :=
    exists url,
      cand_url cand = Some url /\ url <> []
      /\ match_snippet quote_en (cand_snippet cand) url num_before num_after
         = Ok (Some r)
      /\ (min_score <= sr_best_score r)%Q in
  (forall r, In r kept <-> exists cand, In cand candidates /\ one cand = Some r)
  /\ (forall cand r, one cand = Some r -> (min_score <= sr_best_score r)%Q)
  /\ (forall cand url r,
        cand_url cand = Some url ->
        match_snippet quote_en (cand_snippet cand) url num_before num_after
        = Ok (Some r) ->
        (sr_best_score r < min_score)%Q -> one cand = None)
  /\ (answer = None <-> kept = [])
  /\ (candidates = [] -> answer = None)
  /\ (forall bg, answer = Some bg ->
        bg_top_k_candidates bg = sorted_desc kept
        /\ Permutation kept (bg_top_k_candidates bg)
        /\ StronglySorted score_ge (bg_top_k_candidates bg)
        /\ hd_error (bg_top_k_candidates bg) = Some (bg_best bg)
        /\ In (bg_best bg) kept
        /\ (forall r, In r kept -> (sr_best_score r <= sr_best_score (bg_best bg))%Q)
        /\ (exists cand, In cand candidates /\ cleared cand (bg_best bg))
        /\ (forall cand r,
              In cand candidates -> cleared cand r ->
              In r (bg_top_k_candidates bg)
              /\ (sr_best_score r <= sr_best_score (bg_best bg))%Q))
  /\ (forall cand r, one cand = Some r <-> cleared cand r)
  /\ (forall r, In r kept <-> exists cand, In cand candidates /\ cleared cand r)
  /\ (answer = None <-> forall cand r, In cand candidates -> ~ cleared cand r)
  /\ (List.length kept <= List.length candidates)%nat
  /\ kept
     = flat_map
         (fun cand =>
            match cand_url cand with
            | Some (c :: url) =>
                match match_snippet quote_en (cand_snippet cand) (c :: url)
                        num_before num_after with
                | Ok (Some r) =>
                    if Qle_bool min_score (sr_best_score r) then [r] else []
                | _ => []
                end
            | _ => []
            end) candidates.
Proof.
  intros one kept answer cleared.
  assert (Hone : forall cand r, one cand = Some r <-> cleared cand r).
  { intros cand r. apply candidate_result_spec. }
  assert (Hkept : forall r, In r kept
                            <-> exists cand, In cand candidates /\ cleared cand r).
  { intros r. unfold kept. rewrite global_candidates_In. split.
    - intros (cand & Hin & H). exists cand. split; [exact Hin | now apply Hone].
    - intros (cand & Hin & H). exists cand. split; [exact Hin | now apply Hone]. }
  assert (Hnone : answer = None <-> kept = []).
  { subst answer. unfold find_best_span_from_candidates_debug. fold kept.
    pose proof (sorted_desc_perm kept) as Hp.
    destruct (sorted_desc kept) as [|b l] eqn:E.
    - split; [intros _; now apply Permutation_nil; symmetry | reflexivity].
    - split; [discriminate|]. intros Hk. rewrite Hk in Hp.
      apply Permutation_nil in Hp. discriminate. }
  split; [apply global_candidates_In|].
  split; [apply candidate_result_cleared|].
  split; [apply candidate_result_discards|].
  split; [exact Hnone|].
  split; [intros ->; apply Hnone; reflexivity|].
  split.
  { intros bg Hbg. subst answer. unfold find_best_span_from_candidates_debug in Hbg.
    fold kept in Hbg.
    pose proof (sorted_desc_perm kept) as Hp.
    pose proof (sorted_desc_sorted kept) as Hs.
    destruct (sorted_desc kept) as [|b l] eqn:E; [discriminate|].
    injection Hbg as <-. cbn [bg_top_k_candidates bg_best].
    assert (Hb : In b kept).
    { apply Permutation_in with (l := b :: l); [now symmetry | now left]. }
    assert (Htop : forall r, In r kept -> (sr_best_score r <= sr_best_score b)%Q).
    { intros r Hr. apply (Permutation_in _ Hp) in Hr.
      inversion Hs as [|b' l' Hl Hb']; subst.
      destruct Hr as [<- | Hr]; [apply Qle_refl|].
      rewrite Forall_forall in Hb'. apply (Hb' r Hr). }
    split; [reflexivity|]. split; [exact Hp|]. split; [exact Hs|].
    split; [reflexivity|]. split; [exact Hb|]. split; [exact Htop|].
    split; [now apply Hkept|].
    intros cand r Hin Hc.
    assert (Hr : In r kept) by (apply Hkept; now exists cand).
    split; [now apply (Permutation_in _ Hp) | now apply Htop]. }
  split; [exact Hone|]. split; [exact Hkept|]. split.
  - rewrite Hnone. split.
    + intros Hk cand r Hin Hc.
      assert (Hr : In r kept) by (apply Hkept; now exists cand).
      rewrite Hk in Hr. contradiction.
    + intros Hno. destruct kept as [|r rest] eqn:Ek; [reflexivity|]. exfalso.
      assert (Hr : In r (r :: rest)) by now left.
      apply Hkept in Hr as (cand & Hin & Hc). exact (Hno cand r Hin Hc).
  - split; [apply global_candidates_length|].
    unfold kept, global_candidates. apply flat_map_ext. intros cand.
    unfold candidate_result. destruct (cand_url cand) as [[|c url]|];
      try reflexivity.
    cbn [truthy negb].
    destruct (match_snippet _ _ _ _ _) as [[r|]|]; try reflexivity.
    unfold Qltb. now destruct (Qle_bool min_score (sr_best_score r)).
Qed.

Lemma best_span_is_top_of_kept_witness :
  let match_one := fun (_ : pystr) (snippet : option pystr) (url : pystr) (_ _ : Z) =>
                     Ok (Some (mk_span_res url (str "s")
                                 (if PyStr.eqb url (str "a") then 3 # 10
                                  else if PyStr.eqb url (str "b") then 5 # 10
                                  else 9 # 10)
                                 (match snippet with Some t => t | None => [] end)
                                 0 0)) in
  let candidates := [mk_candidate (Some (str "a")) (Some (str "x"));
                     mk_candidate (Some (str "b")) (Some (str "y"));
                     mk_candidate (Some (str "c")) (Some (str "z"))] in
  exists bg,
    find_best_span_from_candidates_debug match_one (str "quote") candidates
      1 1 (4 # 10) = Some bg
    /\ bg_best bg = mk_span_res (str "c") (str "s") (9 # 10) (str "z") 0 0
    /\ bg_top_k_candidates bg
       = [mk_span_res (str "c") (str "s") (9 # 10) (str "z") 0 0;
          mk_span_res (str "b") (str "s") (5 # 10) (str "y") 0 0].
Proof.
  intros match_one candidates. eexists. split; [reflexivity|].
  set (bg := mk_best_global _ _).
  destruct (best_span_is_top_of_kept match_one (str "quote") candidates 1 1 (4 # 10))
    as (_ & _ & _ & _ & _ & H & _).
  destruct (H bg eq_refl) as (Hsorted & _).
  split; [reflexivity|]. rewrite Hsorted. reflexivity.
Defined.

(** ** Substrings *)

Lemma is_prefix_spec (p s : pystr) :
  is_prefix p s = true <-> exists post, s = p ++ post.
Proof.
  revert s. induction p as [|x p IH]; intros s; simpl.
  - split; [intros _; now exists s | reflexivity].
  - destruct s as [|y s].
    + split; [discriminate | intros [post H]; discriminate].
    + rewrite andb_true_iff, N.eqb_eq, IH. split.
      * intros [-> [post ->]]. now exists post.
      * intros [post H]. injection H as -> ->. split; [reflexivity | now exists post].
Qed.

Lemma contains_spec (a b : pystr) :
  contains a b = true <-> exists pre post, b = pre ++ a ++ post.
Proof.
  induction b as [|y b IH]; simpl.
  - rewrite orb_false_r, is_prefix_spec. split.
    + intros [post H]. now exists [], post.
    + intros [pre [post H]]. destruct pre; [now exists post | discriminate].
  - rewrite orb_true_iff, is_prefix_spec, IH. split.
    + intros [[post H] | [pre [post H]]].
      * now exists [], post.
      * exists (y :: pre), post. now rewrite H.
    + intros [[|x pre] [post H]].
      * left. now exists post.
      * right. injection H as _ H. now exists pre, post.
Qed.

Lemma contains_length (a b : pystr) :
  contains a b = true -> (List.length a <= List.length b)%nat.
Proof.
  intros H. apply contains_spec in H as [pre [post ->]].
  rewrite !length_app. lia.
Qed.

Lemma contains_same_length (a b : pystr) :
  contains a b = true -> List.length a = List.length b -> a = b.
Proof.
  intros H Hl. apply contains_spec in H as [pre [post ->]].
  rewrite !length_app in Hl.
  destruct pre; [|simpl in Hl; lia]. destruct post; [|simpl in Hl; lia].
  simpl. now rewrite app_nil_r.
Qed.

Lemma contains_trans (a b c : pystr) :
  contains a b = true -> contains b c = true -> contains a c = true.
Proof.
  intros H1 H2. apply contains_spec in H1 as [p1 [q1 ->]].
  apply contains_spec in H2 as [p2 [q2 ->]].
  apply contains_spec. exists (p2 ++ p1), (q1 ++ q2).
  now rewrite <- !app_assoc.
Qed.

Lemma strict_sub_spec (a b : pystr) :
  strict_sub a b = true
  <-> contains a b = true /\ (List.length a < List.length b)%nat.
Proof.
  unfold strict_sub. rewrite andb_true_iff, negb_true_iff, pystr_eqb_neq. split.
  - intros [Hc Hne]. split; [assumption|].
    pose proof (contains_length _ _ Hc) as Hl.
    destruct (Nat.eq_dec (List.length a) (List.length b)) as [E|E]; [|lia].
    exfalso. apply Hne. now apply contains_same_length.
  - intros [Hc Hl]. split; [assumption|]. intros ->. lia.
Qed.

Lemma strict_sub_irrefl (a : pystr) : strict_sub a a = false.
Proof.
  destruct (strict_sub a a) eqn:E; [|reflexivity].
  apply strict_sub_spec in E as [_ H]. lia.
Qed.

Lemma strict_sub_trans (a b c : pystr) :
  strict_sub a b = true -> strict_sub b c = true -> strict_sub a c = true.
Proof.
  rewrite !strict_sub_spec. intros [H1 L1] [H2 L2].
  split; [now apply contains_trans with b | lia].
Qed.

(** ** extract_entities_only *)

Lemma filter_filter {A} (f g : A -> bool) (l : list A) :
  filter f (filter g l) = filter (fun x => g x && f x) l.
Proof.
  induction l as [|x l IH]; simpl; [reflexivity|].
  destruct (g x); simpl; [destruct (f x)|]; now rewrite IH.
Qed.

Lemma filter_all {A} (f : A -> bool) (l : list A) :
  (forall x, In x l -> f x = true) -> filter f l = l.
Proof.
  induction l as [|x l IH]; intros H; simpl; [reflexivity|].
  rewrite (H x (or_introl eq_refl)). f_equal. apply IH. intros y Hy. apply H. now right.
Qed.

Lemma set_add_In (x y : pystr) (s : list pystr) :
  In y (set_add x s) <-> y = x \/ In y s.
Proof.
  unfold set_add. destruct (str_mem x s) eqn:E.
  - apply str_mem_In in E. split; [now right | intros [-> | H]; assumption].
  - rewrite in_app_iff. simpl. split.
    + intros [H | [H | []]]; [now right | now left].
    + intros [H | H]; [right; now left | now left].
Qed.

Section KeywordFacts.
Variable normalize : pystr -> pystr.
Variable enum : list pystr -> list pystr.
Hypothesis enum_perm : forall l, Permutation (enum l) l.

(** What the inner loop has removed after reading [snapshot]: the forms of
    the snapshot that are strict substrings of [n]. *)
Let hit (n : pystr) (snapshot : list pystr) (y : pystr) : bool :=
  existsb (fun s => strict_sub s n && PyStr.eqb y s) snapshot.

Lemma purge_as_filter (s n : pystr) (snapshot : list pystr) (ebt : by_type) :
  strict_sub s n = true ->
  map (fun '(lbl, ws) =>
         (lbl, filter (fun w => negb (hit n snapshot (normalize w))) ws))
      (purge normalize s ebt)
  = map (fun '(lbl, ws) =>
           (lbl, filter (fun w => negb (hit n (s :: snapshot) (normalize w))) ws))
        ebt.
Proof.
  intros Hs. unfold purge. rewrite map_map. apply map_ext. intros [lbl ws].
  rewrite filter_filter. f_equal. apply filter_ext. intros w.
  unfold hit. simpl. rewrite Hs. simpl. now rewrite negb_orb.
Qed.

Lemma scan_seen_no_skip (n : pystr) (snapshot seen : list pystr) (ebt : by_type) :
  (forall s, In s snapshot -> strict_sub n s = false) ->
  scan_seen normalize n snapshot seen ebt
  = (false,
     filter (fun y => negb (hit n snapshot y)) seen,
     map (fun '(lbl, ws) =>
            (lbl, filter (fun w => negb (hit n snapshot (normalize w))) ws)) ebt).
Proof.
  revert seen ebt. induction snapshot as [|s rest IH]; intros seen ebt Hn;
    cbn [scan_seen].
  - f_equal; [f_equal|].
    + symmetry. now apply filter_all.
    + transitivity (map (fun x : pystr * list pystr => x) ebt);
        [symmetry; apply map_id|].
      apply map_ext. intros [lbl ws]. f_equal. symmetry. now apply filter_all.
  - rewrite (Hn s (or_introl eq_refl)).
    assert (Hr : forall s', In s' rest -> strict_sub n s' = false).
    { intros s' H. apply Hn. now right. }
    destruct (strict_sub s n) eqn:Es.
    + rewrite (IH _ _ Hr). f_equal; [f_equal|].
      * unfold set_discard. rewrite filter_filter. apply filter_ext. intros y.
        unfold hit. simpl. rewrite ?Es. simpl. now rewrite negb_orb.
      * now apply purge_as_filter.
    + rewrite (IH _ _ Hr). f_equal; [f_equal|].
      * apply filter_ext. intros y. unfold hit. simpl. now rewrite ?Es.
      * apply map_ext. intros [lbl ws]. f_equal. apply filter_ext. intros w.
        unfold hit. simpl. now rewrite ?Es.
Qed.

Lemma scan_seen_skip (n : pystr) (snapshot seen : list pystr) (ebt : by_type) :
  (exists s, In s snapshot /\ strict_sub n s = true) ->
  (forall s, In s snapshot -> strict_sub s n = false) ->
  scan_seen normalize n snapshot seen ebt = (true, seen, ebt).
Proof.
  induction snapshot as [|s rest IH]; intros [x [Hx Hsub]] Hno; simpl.
  - contradiction.
  - destruct (strict_sub n s) eqn:E; [reflexivity|].
    rewrite (Hno s (or_introl eq_refl)).
    apply IH.
    + destruct Hx as [<- | Hx]; [congruence | now exists x].
    + intros s' H. apply Hno. now right.
Qed.

Lemma hit_member (n y : pystr) (snapshot : list pystr) :
  In y snapshot -> hit n snapshot y = strict_sub y n.
Proof.
  intros Hy. unfold hit. destruct (strict_sub y n) eqn:E.
  - apply existsb_exists. exists y. rewrite E, pystr_eqb_refl. now split.
  - destruct (existsb _ snapshot) eqn:X; [|reflexivity].
    apply existsb_exists in X as [s [_ Hs]].
    apply andb_true_iff in Hs as [H1 H2]. apply pystr_eqb_eq in H2. congruence.
Qed.

Lemma dedup_step_is_containment_step (st : list pystr * by_type) (ent : entity) :
  dedup_inv normalize st ->
  dedup_step normalize enum st ent = containment_step normalize st ent.
Proof.
  destruct st as [seen ebt]. intros [Hanti Hwords]. simpl in Hanti, Hwords.
  unfold dedup_step, containment_step.
  set (n := normalize (ent_word ent)).
  assert (Hin : forall x, In x (enum seen) <-> In x seen).
  { intros x. split; apply Permutation_in;
      [apply enum_perm | symmetry; apply enum_perm]. }
  destruct (subsumed n seen) eqn:Esub.
  - unfold subsumed in Esub. apply existsb_exists in Esub as [s [Hs Hsub]].
    rewrite scan_seen_skip; [reflexivity | |].
    + exists s. split; [now apply Hin | assumption].
    + intros s' Hs'. apply Hin in Hs'.
      destruct (strict_sub s' n) eqn:E; [|reflexivity].
      rewrite <- (Hanti s' s Hs' Hs). symmetry. now apply strict_sub_trans with n.
  - assert (Hno : forall s, In s seen -> strict_sub n s = false).
    { intros s Hs. destruct (strict_sub n s) eqn:E; [|reflexivity].
      rewrite <- Esub. symmetry. apply existsb_exists. now exists s. }
    rewrite scan_seen_no_skip by (intros s Hs; apply Hno; now apply Hin).
    f_equal.
    + f_equal. unfold drop_shorter. apply filter_ext_in. intros y Hy.
      rewrite hit_member; [reflexivity | now apply Hin].
    + f_equal. unfold purge_shorter. apply map_ext_in. intros [lbl ws] Hl.
      f_equal. apply filter_ext_in. intros w Hw.
      rewrite hit_member; [reflexivity|]. apply Hin. now apply (Hwords lbl ws).
Qed.

Lemma add_word_In (label word lbl w : pystr) (ws : list pystr) (ebt : by_type) :
  In (lbl, ws) (add_word label word ebt) -> In w ws ->
  w = word \/ exists ws0, In (lbl, ws0) ebt /\ In w ws0.
Proof.
  induction ebt as [|[l0 ws0] ebt IH]; simpl.
  - intros [H | []] Hw. injection H as <- <-. destruct Hw as [<- | []]. now left.
  - destruct (PyStr.eqb l0 label).
    + intros [H | H] Hw.
      * injection H as <- <-. destruct (str_mem word ws0).
        -- right. exists ws0. split; [now left | assumption].
        -- apply in_app_iff in Hw as [Hw | [<- | []]]; [|now left].
           right. exists ws0. split; [now left | assumption].
      * right. exists ws. split; [now right | assumption].
    + intros [H | H] Hw.
      * injection H as <- <-. right. exists ws0. split; [now left | assumption].
      * destruct (IH H Hw) as [-> | [ws1 [H1 H2]]]; [now left|].
        right. exists ws1. split; [now right | assumption].
Qed.

Lemma containment_step_inv (st : list pystr * by_type) (ent : entity) :
  dedup_inv normalize st -> dedup_inv normalize (containment_step normalize st ent).
Proof.
  destruct st as [seen ebt]. intros [Hanti Hwords]. simpl in Hanti, Hwords.
  unfold containment_step. set (n := normalize (ent_word ent)).
  destruct (subsumed n seen) eqn:Esub; [now split|].
  assert (Hno : forall s, In s seen -> strict_sub n s = false).
  { intros s Hs. destruct (strict_sub n s) eqn:E; [|reflexivity].
    rewrite <- Esub. symmetry. apply existsb_exists. now exists s. }
  assert (Hdrop : forall x, In x (drop_shorter n seen)
                            <-> In x seen /\ strict_sub x n = false).
  { intros x. unfold drop_shorter. rewrite filter_In, negb_true_iff. reflexivity. }
  split; simpl.
  - intros a b Ha Hb. apply set_add_In in Ha. apply set_add_In in Hb.
    destruct Ha as [-> | Ha], Hb as [-> | Hb].
    + apply strict_sub_irrefl.
    + apply Hno. now apply Hdrop in Hb.
    + now apply Hdrop in Ha.
    + apply Hdrop in Ha. apply Hdrop in Hb. now apply Hanti.
  - intros lbl ws w Hl Hw. apply set_add_In.
    destruct (add_word_In _ _ _ _ _ _ Hl Hw) as [-> | [ws0 [H0 Hw0]]]; [now left|].
    right. unfold purge_shorter in H0. apply in_map_iff in H0 as [[l1 ws1] [E H1]].
    injection E as <- <-. apply filter_In in Hw0 as [Hw1 Hk].
    apply Hdrop. split; [now apply (Hwords l1 ws1) | now apply negb_true_iff].
Qed.

Lemma dedup_loop_from (entities : list entity) (st : list pystr * by_type) :
  dedup_inv normalize st ->
  dedup_inv normalize (fold_left (dedup_step normalize enum) entities st)
  /\ fold_left (dedup_step normalize enum) entities st
     = fold_left (containment_step normalize) entities st.
Proof.
  revert st. induction entities as [|ent entities IH]; intros st Hst; simpl.
  - now split.
  - rewrite dedup_step_is_containment_step by assumption.
    apply IH. now apply containment_step_inv.
Qed.

Lemma dedup_inv_initial : dedup_inv normalize ([], []).
Proof. split; [intros a b [] | intros lbl ws w []]. Qed.

Lemma dedup_loop_inv (entities : list entity) :
  dedup_inv normalize (dedup_loop normalize enum entities).
Proof. apply dedup_loop_from. apply dedup_inv_initial. Qed.

Lemma dedup_loop_is_containment (entities : list entity) :
  dedup_loop normalize enum entities
  = fold_left (containment_step normalize) entities ([], []).
Proof. apply dedup_loop_from. apply dedup_inv_initial. Qed.

Lemma dedup_loop_snoc (entities : list entity) (ent : entity) :
  dedup_loop normalize enum (entities ++ [ent])
  = containment_step normalize (dedup_loop normalize enum entities) ent.
Proof.
  unfold dedup_loop at 1. rewrite fold_left_app. simpl.
  fold (dedup_loop normalize enum entities).
  apply dedup_step_is_containment_step. apply dedup_loop_inv.
Qed.

End KeywordFacts.

(** C6.  Whatever the order in which the set of seen forms is enumerated,
    each entity is handled by the containment rule: it is skipped when its
    normal form is a strict substring of a seen form; otherwise the seen
    forms that are strict substrings of it leave the set, the words with
    such a normal form leave every label's list, and the entity is added.
    The outcome for the two words of the example is the longer word alone,
    in either order. *)
Theorem entity_dedup_by_containment (enum : list pystr -> list pystr) :
  (forall l, Permutation (enum l) l) ->
  (forall normalize entities ent,
     dedup_loop normalize enum (entities ++ [ent])
     = containment_step normalize (dedup_loop normalize enum entities) ent)
  /\ (forall normalize entities, dedup_inv normalize (dedup_loop normalize enum entities))
  /\ entities_by_type (normalize_korean_phrase ascii_lower) enum [loc seoul; loc seoul_si]
     = [(str "LOC", [seoul_si])]
  /\ entities_by_type (normalize_korean_phrase ascii_lower) enum [loc seoul_si; loc seoul]
     = [(str "LOC", [seoul_si])].
Proof.
  intros Henum. split; [|split; [|split]].
  - intros normalize entities ent. now apply dedup_loop_snoc.
  - intros normalize entities. now apply dedup_loop_inv.
  - unfold entities_by_type. rewrite dedup_loop_is_containment by assumption.
    reflexivity.
  - unfold entities_by_type. rewrite dedup_loop_is_containment by assumption.
    reflexivity.
Qed.

Lemma entity_dedup_by_containment_witness :
  entities_by_type (normalize_korean_phrase ascii_lower) (@rev pystr)
    [loc seoul; mk_entity (str "ORG") (str "UN"); loc seoul_si]
  = [(str "LOC", [seoul_si]); (str "ORG", [str "UN"])].
Proof.
  unfold entities_by_type.
  change [loc seoul; mk_entity (str "ORG") (str "UN"); loc seoul_si]
    with ([loc seoul; mk_entity (str "ORG") (str "UN")] ++ [loc seoul_si]).
  rewrite (proj1 (entity_dedup_by_containment (@rev pystr)
                    (fun l => Permutation_sym (Permutation_rev l)))).
  reflexivity.
Defined.

(* ================================================================== *)
(** * Further properties *)

Import SearchSpec.

(** ** google_cse_search: the retry loop *)

Section RetryFacts.
Variable body : Type.
Variable empty_items : body.
Variable session_get : nat -> http_outcome body.
Variable jitter : nat -> Q.

Lemma first_ok_bounds (k n i : nat) (json : body) :
  first_ok body session_get k n = Some (i, json) ->
  (k <= i < k + n)%nat /\ session_get i = Resp 200 json.
Proof.
  revert k. induction n as [|n IH]; intros k; simpl; [discriminate|].
  destruct (session_get k) as [status b | status msg | msg] eqn:E.
  - destruct (status =? 200) eqn:Es.
    + intros H. injection H as <- <-. apply Z.eqb_eq in Es. subst status.
      split; [lia | exact E].
    + intros H. apply IH in H as [H1 H2]. split; [lia | exact H2].
  - intros H. apply IH in H as [H1 H2]. split; [lia | exact H2].
  - intros H. apply IH in H as [H1 H2]. split; [lia | exact H2].
Qed.

(** No GET that [first_ok] passes over is answered with status 200 and a
    JSON body. *)
Lemma first_ok_passes (k n : nat) :
  forall j b,
    (k <= j)%nat ->
    (match first_ok body session_get k n with
     | Some (i, _) => j < i
     | None => j < k + n
     end)%nat ->
    session_get j <> Resp 200 b.
Proof.
  revert k. induction n as [|n IH]; intros k j b Hk Hj; cbn [first_ok] in Hj;
    [lia|].
  assert (Later : (match first_ok body session_get (S k) n with
                   | Some (i, _) => j < i
                   | None => j < k + S n
                   end)%nat ->
                  (forall c, session_get k <> Resp 200 c) ->
                  session_get j <> Resp 200 b).
  { intros H Hne. destruct (Nat.eq_dec j k) as [->|Hjk]; [apply Hne|].
    apply (IH (S k)); [lia|].
    destruct (first_ok body session_get (S k) n) as [[i c]|]; lia. }
  destruct (session_get k) as [status c | status msg | msg] eqn:E.
  - destruct (status =? 200) eqn:Es; [lia|].
    apply Later; [exact Hj|]. intros c' [= -> _]. discriminate.
  - apply Later; [exact Hj | discriminate].
  - apply Later; [exact Hj | discriminate].
Qed.

Lemma backoff_sleep_requests (backoff : Q) (attempt : Z) (w : world) :
  requests (backoff_sleep jitter backoff attempt w) = requests w
  /\ List.length (sleeps (backoff_sleep jitter backoff attempt w))
     = S (List.length (sleeps w)).
Proof.
  unfold backoff_sleep. simpl. split; [reflexivity|].
  rewrite length_app. simpl. lia.
Qed.

Lemma retry_loop_first_ok (params : cse_params) (backoff : Q) (fuel : nat)
    (attempt : Z) (w : world) :
  let res := retry_loop body empty_items session_get jitter params backoff
               fuel attempt w in
  match first_ok body session_get (List.length (requests w)) fuel with
  | Some (i, json) =>
      fst res = Ok json
      /\ requests (snd res)
         = requests w ++ repeat params (S i - List.length (requests w))
  | None =>
      fst res = Ok empty_items
      /\ requests (snd res) = requests w ++ repeat params fuel
  end
  /\ (List.length (sleeps (snd res)) + List.length (requests w)
      <= List.length (sleeps w) + List.length (requests (snd res)))%nat.
Proof.
  revert attempt w. induction fuel as [|fuel IH]; intros attempt w; cbn -[Nat.sub retryable raise_for_status backoff_sleep].
  - rewrite app_nil_r. repeat split. lia.
  - set (k := List.length (requests w)).
    set (w1 := mk_world (requests w ++ [params]) (sleeps w)).
    assert (Hk1 : List.length (requests w1) = S k).
    { unfold w1. simpl. rewrite length_app. simpl. lia. }
    assert (Hnext : forall w2,
               requests w2 = requests w1 ->
               (List.length (sleeps w2) <= S (List.length (sleeps w)))%nat ->
               let res := retry_loop body empty_items session_get jitter params
                            backoff fuel (attempt + 1) w2 in
               match first_ok body session_get (S k) fuel with
               | Some (i, json) =>
                   fst res = Ok json
                   /\ requests (snd res) = requests w ++ repeat params (S i - k)
               | None =>
                   fst res = Ok empty_items
                   /\ requests (snd res) = requests w ++ params :: repeat params fuel
               end
               /\ (List.length (sleeps (snd res)) + k
                   <= List.length (sleeps w) + List.length (requests (snd res)))%nat).
    { intros w2 Hreq Hsl res. subst res.
      pose proof (IH (attempt + 1) w2) as H. cbv zeta in H.
      rewrite Hreq, Hk1 in H. destruct H as [H Hs]. split; [|lia].
      destruct (first_ok body session_get (S k) fuel) as [[i json]|] eqn:Ef.
      - destruct H as [H1 H2]. split; [exact H1|]. rewrite H2.
        apply first_ok_bounds in Ef as [[Hi _] _].
        assert (E : (S i - k = S (S i - S k))%nat) by lia. rewrite E.
        unfold w1. cbn [requests repeat]. now rewrite <- app_assoc.
      - destruct H as [H1 H2]. split; [exact H1|]. rewrite H2.
        unfold w1. cbn [requests]. now rewrite <- app_assoc. }
    fold k.
    assert (Hslept : let res := retry_loop body empty_items session_get jitter
                                 params backoff fuel (attempt + 1)
                                 (backoff_sleep jitter backoff attempt w1) in
               match first_ok body session_get (S k) fuel with
               | Some (i, json) =>
                   fst res = Ok json
                   /\ requests (snd res) = requests w ++ repeat params (S i - k)
               | None =>
                   fst res = Ok empty_items
                   /\ requests (snd res) = requests w ++ params :: repeat params fuel
               end
               /\ (List.length (sleeps (snd res)) + k
                   <= List.length (sleeps w) + List.length (requests (snd res)))%nat).
    { apply Hnext; [apply backoff_sleep_requests|].
      destruct (backoff_sleep_requests backoff attempt w1) as [_ H].
      rewrite H. unfold w1. simpl. lia. }
    assert (Hother : forall status,
               (status =? 200) = false ->
               match on_response body jitter status
                       (Raise (mk_exn JSONDecodeError [])) backoff attempt w1 with
               | (Ok (Returned _ _), _) => False
               | (Ok (NextAttempt _), w2) =>
                   w2 = w1 \/ w2 = backoff_sleep jitter backoff attempt w1
               | (Raise e, w2) => is_request_exception (exn_cls e) = true /\ w2 = w1
               end).
    { intros status Es. unfold on_response. rewrite Es.
      destruct (retryable status); [now right|]. unfold raise_for_status.
      destruct ((400 <=? status) && (status <? 600)); [now split | now left]. }
    fold k.
    destruct (session_get k) as [status json | status msg | msg] eqn:Eo;
      cbn [attempt_try].
    + destruct (status =? 200) eqn:Es.
      * unfold on_response. rewrite Es. cbn -[Nat.sub].
        replace (S k - k)%nat with 1%nat by lia. repeat split.
        rewrite length_app. simpl. fold k. lia.
      * specialize (Hother status Es). unfold on_response in *. rewrite Es in *.
        destruct (retryable status); [exact Hslept|].
        destruct (raise_for_status status) as [[]|e].
        -- apply Hnext; [reflexivity | unfold w1; simpl; lia].
        -- destruct Hother as [-> _]. exact Hslept.
    + destruct (status =? 200) eqn:Es.
      * unfold on_response. rewrite Es. cbn [exn_cls is_request_exception].
        exact Hslept.
      * specialize (Hother status Es). unfold on_response in *. rewrite Es in *.
        destruct (retryable status); [exact Hslept|].
        destruct (raise_for_status status) as [[]|e].
        -- apply Hnext; [reflexivity | unfold w1; simpl; lia].
        -- destruct Hother as [-> _]. exact Hslept.
    + exact Hslept.
Qed.

End RetryFacts.

(** X1.  With both credentials present, [google_cse_search] returns the
    parsed body of the first response, among the first [retries] GETs of the
    session, that has status 200 and a body that is JSON, and stops there; a
    response with status 200 whose body is not JSON is passed over like every
    other failure, and the next GET is made.  When no response has status 200
    and a JSON body it returns the empty result after exactly [retries]
    GETs.  Every GET carries the same parameters, with [num] clamped to 1..10
    and [start] to 1..91, and there is at most one sleep per GET. *)
Theorem search_returns_first_ok (body : Type) (empty_items : body)
    (getenv : pystr -> option pystr) (key cx api_key cse_cx : pystr)
    (session_get : nat -> http_outcome body) (jitter : nat -> Q)
    (q : pystr) (num start : Z) (lr : option pystr) (hl gl : pystr)
    (safe : option pystr) (retries : Z) (backoff : Q) (w : world) :
  credential getenv key 20 = Some api_key ->
  credential getenv cx 5 = Some cse_cx ->
  let res := google_cse_search body empty_items getenv key cx session_get jitter
               q num start lr hl gl safe retries backoff w in
  let first := List.length (requests w) in
  exists params sent,
    requests (snd res) = requests w ++ repeat params sent
    /\ p_key params = api_key /\ p_cx params = cse_cx /\ p_q params = q
    /\ 1 <= p_num params <= 10 /\ 1 <= p_start params <= 91
    /\ (List.length (sleeps (snd res)) <= List.length (sleeps w) + sent)%nat
    /\ match first_ok body session_get first (Z.to_nat retries) with
       | Some (i, json) =>
           fst res = Ok json /\ sent = (S i - first)%nat
       | None => fst res = Ok empty_items /\ sent = Z.to_nat retries
       end
    /\ (forall i json,
          (first <= i < first + Z.to_nat retries)%nat ->
          session_get i = Resp 200 json ->
          (forall j b, (first <= j < i)%nat -> session_get j <> Resp 200 b) ->
          fst res = Ok json /\ sent = (S i - first)%nat)
    /\ ((forall j b, (first <= j < first + Z.to_nat retries)%nat ->
                     session_get j <> Resp 200 b) ->
        fst res = Ok empty_items /\ sent = Z.to_nat retries)
    /\ (forall json, fst res = Ok json ->
          (exists i, (first <= i < first + Z.to_nat retries)%nat
                     /\ session_get i = Resp 200 json /\ sent = (S i - first)%nat)
          \/ (json = empty_items /\ sent = Z.to_nat retries)).
Proof.
  intros Hk Hc res first. subst res. unfold google_cse_search. rewrite Hk, Hc.
  match goal with
  | |- context [retry_loop _ _ _ _ ?p ?b ?f ?a ?w0] =>
      pose proof (retry_loop_first_ok body empty_items session_get jitter p b f a w0) as H;
      set (params := p) in *
  end.
  cbv zeta in H. destruct H as [H Hs]. fold first in H, Hs.
  assert (Hp : p_key params = api_key /\ p_cx params = cse_cx /\ p_q params = q
               /\ 1 <= p_num params <= 10 /\ 1 <= p_start params <= 91).
  { unfold params. simpl. repeat split; lia. }
  destruct Hp as (Hp1 & Hp2 & Hp3 & Hp4 & Hp5).
  pose proof (first_ok_passes body session_get first (Z.to_nat retries)) as Hpass.
  destruct (first_ok body session_get first (Z.to_nat retries))
    as [[i json]|] eqn:Ef.
  - destruct H as [H1 H2]. exists params, (S i - first)%nat.
    rewrite H2 in Hs. rewrite length_app, repeat_length in Hs.
    apply first_ok_bounds in Ef as [Hi Hget].
    split; [exact H2|]. do 5 (split; [assumption|]). split; [lia|].
    split; [now split|]. split; [|split].
    + intros i' json' Hi' Hget' Hbefore.
      assert (i' = i).
      { destruct (Nat.lt_trichotomy i' i) as [Hlt | [Heq | Hgt]]; [|exact Heq|].
        - exfalso. apply (Hpass i' json'); [lia | exact Hlt | exact Hget'].
        - exfalso. apply (Hbefore i json); [lia | exact Hget]. }
      subst i'. rewrite Hget in Hget'. injection Hget' as <-. now split.
    + intros Hnone. exfalso. apply (Hnone i json); [lia | exact Hget].
    + intros json' Hres. left. exists i. rewrite H1 in Hres. injection Hres as <-.
      now repeat split.
  - destruct H as [H1 H2]. exists params, (Z.to_nat retries).
    rewrite H2 in Hs. rewrite length_app, repeat_length in Hs.
    split; [exact H2|]. do 5 (split; [assumption|]). split; [lia|].
    split; [now split|]. split; [|split].
    + intros i json Hi Hget _. exfalso.
      apply (Hpass i json); [lia | lia | exact Hget].
    + intros _. now split.
    + intros json Hres. right. rewrite H1 in Hres. injection Hres as <-. now split.
Qed.

Lemma search_returns_first_ok_witness :
  let outcomes := [RespNotJson 200 (str "Expecting value"); Resp 500 (str "a");
                   Resp 200 (str "b"); Resp 200 (str "c")] in
  fst (search_with outcomes) = Ok (str "b")
  /\ List.length (requests (snd (search_with outcomes))) = 3%nat
  /\ fst (search_with [RespNotJson 200 (str "Expecting value");
                       RespNotJson 200 (str "Expecting value");
                       RespNotJson 200 (str "Expecting value");
                       Resp 200 (str "late")])
     = Ok (str "{items: []}").
Proof.
  intros outcomes.
  destruct (search_returns_first_ok pystr (str "{items: []}")
              (fun _ => Some (str "secret")) (str "GOOGLE_API_KEY") (str "GOOGLE_CSE_CX")
              (str "secret") (str "secret") (scripted outcomes)
              (fun _ => 1 # 10) (str "query") 10 1 None (str "en") (str "us") None 3
              (14 # 10) (mk_world [] []) eq_refl eq_refl)
    as (params & sent & Hreq & _ & _ & _ & _ & _ & _ & H & _).
  split; [exact (proj1 H)|]. split; [|reflexivity].
  unfold search_with, google_cse_search_default. rewrite Hreq.
  rewrite (proj2 H). reflexivity.
Defined.

Import EndpointSpec.

(** ** Rounding *)

Lemma round_half_even_range (q : Q) :
  round_half_even q = Qfloor q \/ round_half_even q = Qfloor q + 1.
Proof.
  unfold round_half_even.
  destruct (Qcompare (q - inject_Z (Qfloor q)) (1 # 2)); auto.
  destruct (Z.even (Qfloor q)); auto.
Qed.

Lemma round_half_even_monotone (a b : Q) :
  (a <= b)%Q -> round_half_even a <= round_half_even b.
Proof.
  intros Hab. pose proof (Qfloor_resp_le _ _ Hab) as Hf.
  destruct (Z.eq_dec (Qfloor a) (Qfloor b)) as [E | E].
  - unfold round_half_even. rewrite <- E.
    assert (Hd : (a - inject_Z (Qfloor a) <= b - inject_Z (Qfloor a))%Q).
    { apply Qplus_le_compat; [exact Hab | apply Qle_refl]. }
    destruct (Qcompare (a - inject_Z (Qfloor a)) (1 # 2)) eqn:Ca;
      destruct (Qcompare (b - inject_Z (Qfloor a)) (1 # 2)) eqn:Cb;
      try destruct (Z.even (Qfloor a)); try lia; exfalso;
      repeat match goal with
             | H : Qcompare _ _ = Eq |- _ => apply Qeq_alt in H
             | H : Qcompare _ _ = Lt |- _ => apply Qlt_alt in H
             | H : Qcompare _ _ = Gt |- _ => apply Qgt_alt in H
             end; lra.
  - destruct (round_half_even_range a) as [-> | ->];
      destruct (round_half_even_range b) as [-> | ->]; lia.
Qed.

Lemma py_round_monotone (a b : Q) (scale : positive) :
  (a <= b)%Q -> (py_round a scale <= py_round b scale)%Q.
Proof.
  intros Hab. unfold py_round, Qle. simpl.
  apply Z.mul_le_mono_nonneg_r; [lia|].
  apply round_half_even_monotone.
  apply Qmult_le_compat_r; [exact Hab|]. unfold Qle. simpl. lia.
Qed.

(** ** Slices of sorted lists *)

Lemma StronglySorted_skipn {A} (R : A -> A -> Prop) (n : nat) (l : list A) :
  StronglySorted R l -> StronglySorted R (skipn n l).
Proof.
  revert l. induction n as [|n IH]; intros l Hs; [exact Hs|].
  destruct l as [|x l]; [constructor|]. simpl. apply IH. now inversion Hs.
Qed.

Lemma In_firstn {A} (n : nat) (l : list A) (y : A) : In y (firstn n l) -> In y l.
Proof.
  revert l. induction n as [|n IH]; intros l; simpl; [contradiction|].
  destruct l as [|x l]; simpl; [contradiction|].
  intros [H | H]; [now left | right; now apply IH].
Qed.

Lemma In_skipn {A} (n : nat) (l : list A) (y : A) : In y (skipn n l) -> In y l.
Proof.
  revert l. induction n as [|n IH]; intros l; simpl; [easy|].
  destruct l as [|x l]; simpl; [contradiction|].
  intros H. right. now apply IH.
Qed.

Lemma StronglySorted_firstn {A} (R : A -> A -> Prop) (n : nat) (l : list A) :
  StronglySorted R l -> StronglySorted R (firstn n l).
Proof.
  revert l. induction n as [|n IH]; intros l Hs; [constructor|].
  destruct l as [|x l]; [constructor|]. simpl.
  inversion Hs as [|x' l' Hl Hx]; subst. constructor; [now apply IH|].
  rewrite Forall_forall in *. intros y Hy. apply Hx.
  now apply In_firstn with n.
Qed.

Lemma py_slice_sorted {A} (R : A -> A -> Prop) (l : list A) (a b : Z) :
  StronglySorted R l -> StronglySorted R (py_slice l a b).
Proof.
  intros Hs. unfold py_slice. now apply StronglySorted_firstn, StronglySorted_skipn.
Qed.

Lemma py_slice_prefix_length {A} (l : list A) (k : Z) :
  0 <= k -> Z.of_nat (List.length (py_slice l 0 k)) <= k.
Proof.
  intros Hk. unfold py_slice, slice_bound. simpl.
  destruct (k <? 0) eqn:E; [apply Z.ltb_lt in E; lia|].
  rewrite length_firstn. lia.
Qed.

(** ** The candidate list of a response *)

Section ResponseFacts.
Variable env : collaborators.
Variable request : QuoteRequest.

Lemma enumerate_results_length (quote_en : pystr) (idx : Z) (cands : list span_res) :
  List.length (enumerate_results env quote_en idx cands) = List.length cands.
Proof.
  revert idx. induction cands as [|c cands IH]; intros idx; simpl; [reflexivity|].
  now rewrite IH.
Qed.

Lemma enumerate_results_index (quote_en : pystr) (idx : Z) (cands : list span_res) :
  map candidate_index (enumerate_results env quote_en idx cands)
  = map (fun k => idx + Z.of_nat k) (seq 0 (List.length cands)).
Proof.
  revert idx. induction cands as [|c cands IH]; intros idx; simpl; [reflexivity|].
  rewrite IH. f_equal; [lia|]. rewrite <- seq_shift, map_map.
  apply map_ext. intros k. lia.
Qed.

Lemma enumerate_results_In (quote_en : pystr) (idx : Z) (cands : list span_res)
    (c : CandidateResult) :
  In c (enumerate_results env quote_en idx cands) ->
  exists s, In s cands
            /\ similarity_score c = py_round (sr_best_score s) 10000
            /\ source_url c = sr_url s.
Proof.
  revert idx. induction cands as [|s cands IH]; intros idx; simpl; [contradiction|].
  intros [<- | H].
  - exists s. split; [now left | split; reflexivity].
  - destruct (IH _ H) as (s' & Hs & E). exists s'. split; [now right | exact E].
Qed.

Lemma enumerate_results_sorted (quote_en : pystr) (idx : Z) (cands : list span_res) :
  StronglySorted score_ge cands ->
  StronglySorted similarity_ge (enumerate_results env quote_en idx cands).
Proof.
  revert idx. induction cands as [|s cands IH]; intros idx Hs; simpl; [constructor|].
  inversion Hs as [|s' l' Hl Hx]; subst. constructor; [now apply IH|].
  rewrite Forall_forall in *. intros c Hc.
  apply enumerate_results_In in Hc as (s' & Hs' & E & _).
  unfold similarity_ge. rewrite E. simpl.
  apply py_round_monotone. apply (Hx s' Hs').
Qed.

(** The last [QuoteResponse(...)] of the endpoint always validates. *)
Lemma final_response_ok (cands : list CandidateResult) (best : option CandidateResult)
    (mds : option Q) (label : option pystr) (dbg : option debug_dict) :
  QuoteResponse_init
    [ (str "quote_id", VStr (quote_id request));
      (str "quote_content", VStr (quote_content request));
      (str "candidates", VCandidates cands);
      (str "best_candidate", opt_val VCandidate best);
      (str "max_distortion_score", opt_val VFloat mds);
      (str "label", opt_val VStr label);
      (str "error", VNone);
      (str "debug_info", opt_val VDebug dbg) ]
  = Ok (mk_response (quote_id request) (quote_content request) cands best None dbg).
Proof. destruct best, mds, label, dbg; reflexivity. Qed.

(** What [match_and_score] returns: a raise, the "no matching spans" error,
    or the scored prefix of the sorted matches. *)
Lemma match_and_score_cases (quote_en : pystr) (items : list search_item)
    (dbg : option debug_dict) :
  (exists e dbg', match_and_score env request quote_en items dbg = (Raise e, dbg'))
  \/ (exists cands dbg',
        candidates_for_matching items = Ok cands
        /\ find_best_span_from_candidates_debug (match_snippet env) quote_en cands 1 1 0
           = None
        /\ match_and_score env request quote_en items dbg
           = (Ok (mk_response (quote_id request) (quote_content request) [] None
                    (Some (str "No matching spans found")) dbg'), dbg'))
  \/ (exists cands bg dbg',
        candidates_for_matching items = Ok cands
        /\ find_best_span_from_candidates_debug (match_snippet env) quote_en cands 1 1 0
           = Some bg
        /\ match_and_score env request quote_en items dbg
           = (Ok (mk_response (quote_id request) (quote_content request)
                    (enumerate_results env quote_en 0
                       (py_slice (bg_top_k_candidates bg) 0 (top_matches request)))
                    (hd_error
                       (enumerate_results env quote_en 0
                          (py_slice (bg_top_k_candidates bg) 0 (top_matches request))))
                    None dbg'), dbg')).
Proof.
  unfold match_and_score.
  destruct (candidates_for_matching items) as [cands | e]; [|left; eauto].
  destruct (find_best_span_from_candidates_debug _ _ _ _ _ _) as [bg|] eqn:Eb.
  - right. right. destruct (quote_label _) as [mds label].
    rewrite final_response_ok. exists cands, bg. eexists.
    split; [reflexivity|]. split; [exact Eb | reflexivity].
  - right. left. rewrite error_response_ok. exists cands. eexists.
    split; [reflexivity|]. split; [exact Eb | reflexivity].
Qed.

End ResponseFacts.

Section EndpointCases.
Variable env : collaborators.
Variable request : QuoteRequest.

Ltac early_error :=
  rewrite ?error_response_ok;
  let H := fresh in
  intros H; injection H as <- _; left; repeat split; discriminate.

Lemma try_block_cases (dbg0 dbg' : option debug_dict) (r : QuoteResponse) :
  find_quote_origin_try env request dbg0 = (Ok r, dbg') ->
  error_shape r \/ success_shape env request r.
Proof.
  unfold find_quote_origin_try.
  destruct (article_text request) as [text|]; [|early_error].
  destruct (negb (truthy text)); [early_error|].
  destruct (negb (truthy (quote_content request)) || _); [early_error|].
  destruct (build_queries_from_text env _ _ _ _) as [result | e]; [|early_error].
  destruct (or_str _ _) as [query|]; [|early_error].
  destruct (negb (truthy query)); [early_error|].
  destruct (cse_search env query (debug request)) as [items | e]; [|early_error].
  destruct items as [[|item items]|]; try early_error.
  match goal with
  | |- match_and_score _ _ ?q ?i ?d = _ -> _ =>
      destruct (match_and_score_cases env request q i d)
        as [(e & d' & H) | [(cands & d' & _ & _ & H) | (cands & bg & d' & _ & Hb & H)]];
      rewrite H; clear H
  end.
  - discriminate.
  - intros H. injection H as <- _. left. repeat split. discriminate.
  - intros H. injection H as <- _. right.
    match type of Hb with
    | find_best_span_from_candidates_debug _ ?q _ _ _ _ = _ => exists q, cands, bg
    end.
    repeat split. exact Hb.
Qed.

Lemma endpoint_cases (r : QuoteResponse) :
  find_quote_origin env request = Ok r -> error_shape r \/ success_shape env request r.
Proof.
  unfold find_quote_origin.
  destruct (find_quote_origin_try env request _) as [[r' | e] dbg] eqn:E.
  - intros H. injection H as <-. now apply try_block_cases in E.
  - rewrite error_response_ok. intros H. injection H as <-.
    left. repeat split. discriminate.
Qed.

End EndpointCases.

(** X2.  Every response of the endpoint has [best_candidate] equal to the
    first candidate (none when the list is empty); the candidates are ranked
    0, 1, 2, ... in order; with a non-negative [top_matches] there are at
    most [top_matches] of them; their similarity scores never increase down
    the list; and a response with an error has no candidates. *)
Theorem response_candidates_are_ranked (env : collaborators) (request : QuoteRequest) :
  exists r,
    find_quote_origin env request = Ok r
    /\ r_best_candidate r = hd_error (r_candidates r)
    /\ map candidate_index (r_candidates r)
       = map Z.of_nat (seq 0 (List.length (r_candidates r)))
    /\ (0 <= top_matches request ->
        Z.of_nat (List.length (r_candidates r)) <= top_matches request)
    /\ StronglySorted similarity_ge (r_candidates r)
    /\ (r_error r <> None -> r_candidates r = []).
Proof.
  destruct (endpoint_total env request) as (r & Hr & _).
  exists r. split; [exact Hr|].
  destruct (endpoint_cases env request r Hr)
    as [(Hc & Hb & He) | (q & cands & bg & Hbg & Hc & Hb & He)].
  - rewrite Hc, Hb. repeat split; try constructor. simpl. intros H. exact H.
  - split; [exact Hb|]. rewrite Hc.
    split; [|split; [|split]].
    + rewrite enumerate_results_index, enumerate_results_length.
      apply map_ext. intros k. lia.
    + intros Hk. rewrite enumerate_results_length. now apply py_slice_prefix_length.
    + apply enumerate_results_sorted. apply py_slice_sorted.
      unfold find_best_span_from_candidates_debug in Hbg.
      match type of Hbg with
      | match sorted_desc ?l with _ => _ end = _ =>
          pose proof (sorted_desc_sorted l) as Hs; destruct (sorted_desc l) eqn:E;
          [discriminate|]
      end.
      injection Hbg as <-. exact Hs.
    + intros H. contradiction.
Qed.


(** X4.  A request without article text, or with a quote that is empty or
    blank, is answered with the validation error and no candidates whatever
    the collaborators are. *)
Theorem validation_errors (env : collaborators) (request : QuoteRequest) :
  let dbg := if debug request then Some [] else None in
  ((article_text request = None \/ article_text request = Some []) ->
   find_quote_origin env request
   = Ok (mk_response (quote_id request) (quote_content request) [] None
           (Some (str "article_text is required")) dbg))
  /\ (forall text,
        article_text request = Some text -> text <> [] ->
        strip (quote_content request) = [] ->
        find_quote_origin env request
        = Ok (mk_response (quote_id request) (quote_content request) [] None
                (Some (str "quote_content is empty")) dbg)).
Proof.
  intros dbg. unfold find_quote_origin, find_quote_origin_try. fold dbg. split.
  - intros [-> | ->]; simpl; now rewrite error_response_ok.
  - intros text -> Hne Hq. destruct text as [|c text]; [contradiction|]. simpl.
    rewrite Hq. simpl. rewrite orb_true_r. now rewrite error_response_ok.
Qed.

Lemma validation_errors_witness :
  find_quote_origin (example_env one_hit (9 # 10))
    (mk_request (str "q7") (str "  ") (Some (str "article")) None false 5)
  = Ok (mk_response (str "q7") (str "  ") [] None
          (Some (str "quote_content is empty")) None).
Proof.
  apply (proj2 (validation_errors (example_env one_hit (9 # 10))
                  (mk_request (str "q7") (str "  ") (Some (str "article")) None false 5))
           (str "article")); [reflexivity | discriminate | reflexivity].
Defined.

(** ** The classifier and the candidate list *)

Section ClassifierFacts.
Variable env : collaborators.
Variable classifier : pystr -> pystr -> result distortion.
Variable request : QuoteRequest.

Let env' := with_classifier env classifier.

Lemma enumerate_without_distortion (quote_en : pystr) (idx : Z) (cands : list span_res) :
  map without_distortion (enumerate_results env quote_en idx cands)
  = map without_distortion (enumerate_results env' quote_en idx cands).
Proof.
  revert idx. induction cands as [|c cands IH]; intros idx; simpl; [reflexivity|].
  now rewrite IH.
Qed.

Lemma hd_without_distortion (l : list CandidateResult) :
  option_map without_distortion (hd_error l) = hd_error (map without_distortion l).
Proof. now destruct l. Qed.

Lemma same_up_to_distortion_refl (a : result QuoteResponse * option debug_dict) :
  same_up_to_distortion a a.
Proof. split; [reflexivity|]. now destruct (fst a). Qed.

Lemma match_and_score_classifier (quote_en : pystr) (items : list search_item)
    (dbg : option debug_dict) :
  same_up_to_distortion (match_and_score env request quote_en items dbg)
    (match_and_score env' request quote_en items dbg).
Proof.
  unfold match_and_score.
  destruct (candidates_for_matching items) as [cands | e];
    [|apply same_up_to_distortion_refl].
  change (match_snippet env') with (match_snippet env).
  destruct (find_best_span_from_candidates_debug _ _ _ _ _ _) as [bg|];
    [|apply same_up_to_distortion_refl].
  destruct (quote_label (enumerate_results env _ _ _)) as [mds label].
  destruct (quote_label (enumerate_results env' _ _ _)) as [mds' label'].
  rewrite !final_response_ok. unfold same_up_to_distortion. simpl.
  rewrite !enumerate_results_length. split; [reflexivity|].
  unfold response_without_distortion. simpl.
  rewrite !hd_without_distortion, enumerate_without_distortion. reflexivity.
Qed.

Lemma try_block_classifier (dbg : option debug_dict) :
  same_up_to_distortion (find_quote_origin_try env request dbg)
    (find_quote_origin_try env' request dbg).
Proof.
  unfold find_quote_origin_try.
  change (build_queries_from_text env') with (build_queries_from_text env).
  change (translate_ko_to_en env') with (translate_ko_to_en env).
  change (cse_search env') with (cse_search env).
  destruct (article_text request) as [text|]; [|apply same_up_to_distortion_refl].
  destruct (negb (truthy text)); [apply same_up_to_distortion_refl|].
  destruct (negb (truthy (quote_content request)) || _);
    [apply same_up_to_distortion_refl|].
  destruct (build_queries_from_text env _ _ _ _) as [result | e];
    [|apply same_up_to_distortion_refl].
  destruct (or_str _ _) as [query|]; [|apply same_up_to_distortion_refl].
  destruct (negb (truthy query)); [apply same_up_to_distortion_refl|].
  destruct (cse_search env query (debug request)) as [items | e];
    [|apply same_up_to_distortion_refl].
  destruct items as [[|item items]|]; try apply same_up_to_distortion_refl.
  apply match_and_score_classifier.
Qed.

End ClassifierFacts.

(** X5.  The distortion classifier has no part in which candidates are
    returned, in their order, spans, similarity scores and URLs, or in the
    error: with any other classifier the endpoint returns the same response
    up to the two distortion fields of the candidates. *)
Theorem classifier_only_sets_distortion (env : collaborators)
    (classifier : pystr -> pystr -> result distortion) (request : QuoteRequest) :
  exists r r',
    find_quote_origin env request = Ok r
    /\ find_quote_origin (with_classifier env classifier) request = Ok r'
    /\ response_without_distortion r = response_without_distortion r'.
Proof.
  unfold find_quote_origin.
  pose proof (try_block_classifier env classifier request
                (if debug request then Some [] else None)) as [Hd Hr].
  destruct (find_quote_origin_try env request _) as [[r | e] dbg];
    destruct (find_quote_origin_try (with_classifier env classifier) request _)
      as [[r' | e'] dbg']; simpl in Hd, Hr; try contradiction; subst.
  - exists r, r'. repeat split. exact Hr.
  - rewrite !error_response_ok. eexists. eexists. repeat split.
Qed.

(** ** The endpoint on top of the retrieval client *)

Lemma reaches_search_response (env : collaborators) (request : QuoteRequest)
    (query : pystr) (search : pystr -> bool -> result (option (list search_item))) :
  reaches_search env request query ->
  (forall e, search query (debug request) = Raise e ->
     exists dbg,
       find_quote_origin (with_search env search) request
       = Ok (mk_response (quote_id request) (quote_content request) [] None
               (Some (str "Search failed: " ++ exn_msg e)) dbg))
  /\ (search query (debug request) = Ok (Some []) ->
      exists dbg,
        find_quote_origin (with_search env search) request
        = Ok (mk_response (quote_id request) (quote_content request) [] None
                (Some (str "No search results found")) dbg)).
Proof.
  intros (text & result & Ht & Tt & Tq & Hs & Hb & Hq & Tquery).
  unfold find_quote_origin, find_quote_origin_try, with_search. simpl.
  rewrite Ht, Tt, Tq. simpl.
  destruct (len (strip (quote_content request)) =? 0) eqn:E;
    [apply Z.eqb_eq in E; contradiction|].
  rewrite Hb, Hq, Tquery. simpl. split.
  - intros e ->. rewrite error_response_ok. eauto.
  - intros ->. rewrite error_response_ok. eauto.
Qed.

(** X6.  With the search of the endpoint wired to [google_cse_search]: when
    a credential is absent the response carries the error "Search failed: "
    followed by the assertion message, and when none of the three GETs of
    the retry budget is answered with status 200 it carries "No search
    results found"; in both cases the endpoint returns a response with no
    candidates instead of raising. *)
Theorem retrieval_failures_are_reported (env : collaborators) (request : QuoteRequest)
    (query : pystr) (getenv : pystr -> option pystr) (key cx : pystr)
    (session_get : nat -> http_outcome (option (list search_item)))
    (jitter : nat -> Q) :
  reaches_search env request query ->
  let wired := with_search env (endpoint_search getenv key cx session_get jitter) in
  (credential_absent getenv key 20 \/ credential_absent getenv cx 5 ->
   exists dbg,
     find_quote_origin wired request
     = Ok (mk_response (quote_id request) (quote_content request) [] None
             (Some (str "Search failed: " ++ assert_message)) dbg))
  /\ (forall api_key cse_cx,
        credential getenv key 20 = Some api_key ->
        credential getenv cx 5 = Some cse_cx ->
        first_ok _ session_get 0 3 = None ->
        exists dbg,
          find_quote_origin wired request
          = Ok (mk_response (quote_id request) (quote_content request) [] None
                  (Some (str "No search results found")) dbg)).
Proof.
  intros Hreach wired. subst wired.
  destruct (reaches_search_response env request query
              (endpoint_search getenv key cx session_get jitter) Hreach) as [Hraise Hnone].
  split.
  - intros Habs.
    apply (Hraise (mk_exn AssertionError assert_message)).
    unfold endpoint_search, google_cse_search_default.
    now rewrite (proj1 (search_asserts_credentials _ _ _ _ _ _ _ _ _ _ _ _ _ _ _ _ _) Habs).
  - intros api_key cse_cx Hk Hc Hf. apply Hnone.
    unfold endpoint_search, google_cse_search_default, google_cse_search.
    rewrite Hk, Hc.
    match goal with
    | |- fst (retry_loop _ ?ei ?sg ?j ?p ?b ?f ?a ?w0) = _ =>
        pose proof (retry_loop_first_ok _ ei sg j p b f a w0) as H
    end.
    cbv zeta in H.
    change (List.length (requests (mk_world [] []))) with 0%nat in H.
    change (Z.to_nat 3) with 3%nat in H |- *.
    rewrite Hf in H. exact (proj1 (proj1 H)).
Qed.

Lemma retrieval_failures_are_reported_witness :
  exists dbg,
    find_quote_origin
      (with_search (example_env None (9 # 10))
         (endpoint_search (fun _ => None) (str "GOOGLE_API_KEY") (str "cx")
            (fun _ => NetFail (str "unreachable")) (fun _ => 0%Q)))
      example_request
    = Ok (mk_response (str "q1001") (str "quote") [] None
            (Some (str "Search failed: " ++ assert_message)) dbg).
Proof.
  apply (proj1 (retrieval_failures_are_reported (example_env None (9 # 10))
                  example_request (str "q") (fun _ => None) (str "GOOGLE_API_KEY")
                  (str "cx") (fun _ => NetFail (str "unreachable")) (fun _ => 0%Q)
                  ltac:(exists (str "article"),
                           (mk_pipeline_result [] None (Some (str "q")));
                         repeat split; try reflexivity; discriminate))).
  left. split; [now left | unfold len; simpl; lia].
Defined.

Import EntitySpec.

(** ** Stripping *)

Lemma lstrip_split (s : pystr) :
  exists pre, s = pre ++ lstrip s /\ forallb isspace pre = true.
Proof.
  induction s as [|c s IH]; simpl.
  - now exists [].
  - destruct (isspace c) eqn:E.
    + destruct IH as (pre & H1 & H2). exists (c :: pre). simpl.
      rewrite E, H2. split; [now f_equal | reflexivity].
    + now exists [].
Qed.

Lemma lstrip_head (s : pystr) (c : N) :
  hd_error (lstrip s) = Some c -> isspace c = false.
Proof.
  induction s as [|x s IH]; simpl; [discriminate|].
  destruct (isspace x) eqn:E; [exact IH|]. simpl. intros H. now injection H as <-.
Qed.

Lemma lstrip_fixed (s : pystr) :
  (forall c, hd_error s = Some c -> isspace c = false) -> lstrip s = s.
Proof.
  destruct s as [|x s]; simpl; [reflexivity|]. intros H.
  now rewrite (H x eq_refl).
Qed.

Lemma rstrip_split (s : pystr) :
  exists suf, s = rstrip s ++ suf /\ forallb isspace suf = true.
Proof.
  unfold rstrip. destruct (lstrip_split (rev s)) as (pre & H1 & H2).
  exists (rev pre). split.
  - rewrite <- rev_app_distr, <- H1. now rewrite rev_involutive.
  - rewrite forallb_forall in *. intros x Hx. apply H2. now apply in_rev.
Qed.

Lemma rstrip_last (s : pystr) (c : N) :
  hd_error (rev (rstrip s)) = Some c -> isspace c = false.
Proof. unfold rstrip. rewrite rev_involutive. apply lstrip_head. Qed.

Lemma rstrip_head (s : pystr) (c : N) :
  hd_error (rstrip s) = Some c -> hd_error s = Some c.
Proof.
  destruct (rstrip_split s) as (suf & H1 & _). intros H.
  rewrite H1. destruct (rstrip s); [discriminate | exact H].
Qed.

(** [strip] leaves no whitespace at either end. *)
Lemma strip_ends (s : pystr) (c : N) :
  hd_error (strip s) = Some c \/ hd_error (rev (strip s)) = Some c ->
  isspace c = false.
Proof.
  unfold strip. intros [H | H].
  - apply rstrip_head in H. now apply lstrip_head in H.
  - now apply rstrip_last in H.
Qed.

(** ** merge_ner_entities: tokens outside the target labels *)

Lemma bio_step_skips (st : list group * list token) (t : token) :
  is_target t = false -> bio_step st t = st.
Proof.
  intros H. destruct st as [mg buffer]. unfold bio_step.
  unfold is_target in H. now rewrite H.
Qed.

Lemma bio_fold_filter (results : list token) (st : list group * list token) :
  fold_left bio_step results st = fold_left bio_step (filter is_target results) st.
Proof.
  revert st. induction results as [|t results IH]; intros st; simpl; [reflexivity|].
  destruct (is_target t) eqn:E; simpl.
  - apply IH.
  - rewrite bio_step_skips by assumption. apply IH.
Qed.

(** X7.  Tokens whose label is not a target label have no effect at all on
    merging: they neither produce an entity nor close the group that is
    open, so removing them from the input leaves the result unchanged. *)
Theorem non_target_tokens_are_transparent (results : list token) :
  merge_ner_entities results = merge_ner_entities (filter is_target results).
Proof.
  unfold merge_ner_entities, bio_groups. now rewrite bio_fold_filter.
Qed.

(** ** merge_ner_entities: what the output holds *)

Lemma flush_tokens (mg : list group) (buffer : list token) :
  flat_map group_tokens (flush mg buffer) = flat_map group_tokens mg ++ buffer.
Proof.
  destruct buffer as [|t ts]; simpl; [now rewrite app_nil_r|].
  rewrite flat_map_app. simpl. now rewrite app_nil_r.
Qed.

(** The state holds only tokens that were read, each once and in order,
    and only tokens with a target label. *)
Lemma bio_step_tokens (st : list group * list token) (t : token) :
  state_tokens (bio_step st t) = state_tokens st
  \/ (is_target t = true /\ state_tokens (bio_step st t) = state_tokens st ++ [t]).
Proof.
  destruct st as [mg buffer]. unfold bio_step, state_tokens.
  fold (is_target t). destruct (is_target t) eqn:E; simpl negb; cbv iota; [|now left].
  destruct (PyStr.eqb (tag_type t) (str "B")).
  - right. split; [reflexivity|]. cbn [fst snd]. now rewrite flush_tokens.
  - destruct (PyStr.eqb (tag_type t) (str "I")).
    + destruct buffer as [|b bs].
      * left. cbn [fst snd flush]. reflexivity.
      * right. split; [reflexivity|].
        destruct (PyStr.eqb _ _ && _); cbn [fst snd].
        -- now rewrite app_assoc.
        -- rewrite flat_map_app. cbn [flat_map group_tokens fst snd].
           rewrite app_nil_r. reflexivity.
    + left. cbn [fst snd]. rewrite flush_tokens. now rewrite app_nil_r.
Qed.

Lemma bio_fold_tokens (results : list token) (st : list group * list token) :
  Forall (fun t => is_target t = true) (state_tokens st) ->
  Forall (fun t => is_target t = true)
    (state_tokens (fold_left bio_step results st))
  /\ (List.length (state_tokens (fold_left bio_step results st))
      <= List.length (state_tokens st) + List.length results)%nat.
Proof.
  revert st. induction results as [|t results IH]; intros st Hst; simpl.
  - split; [exact Hst | lia].
  - destruct (bio_step_tokens st t) as [E | [Ht E]].
    + destruct (IH (bio_step st t)) as [H1 H2]; [now rewrite E|].
      split; [exact H1 | rewrite E in H2; lia].
    + destruct (IH (bio_step st t)) as [H1 H2].
      { rewrite E. apply Forall_app. split; [exact Hst | now constructor]. }
      split; [exact H1|]. rewrite E, length_app in H2. simpl in H2. lia.
Qed.

Lemma bio_groups_tokens (results : list token) :
  Forall (fun t => is_target t = true) (flat_map group_tokens (bio_groups results))
  /\ (List.length (bio_groups results) <= List.length results)%nat.
Proof.
  unfold bio_groups.
  destruct (bio_fold_tokens results ([], [])) as [H1 H2]; [constructor|].
  destruct (fold_left bio_step results ([], [])) as [mg buffer].
  unfold state_tokens in H1, H2. simpl in H1, H2.
  rewrite <- flush_tokens in H1, H2. split; [exact H1|].
  assert (G : forall gs : list group,
             (List.length gs <= List.length (flat_map group_tokens gs))%nat).
  { induction gs as [|g gs IHg]; simpl; [lia|]. rewrite length_app. simpl. lia. }
  specialize (G (flush mg buffer)). lia.
Qed.

Lemma finalize_length (groups : list group) :
  (List.length (finalize groups) <= List.length groups)%nat.
Proof.
  unfold finalize. induction groups as [|g groups IH]; simpl; [lia|].
  rewrite length_app. destruct (keep_word (group_word g)); simpl; lia.
Qed.

Lemma finalize_In (groups : list group) (e : entity) :
  In e (finalize groups) ->
  exists g, In g groups /\ e = mk_entity (entity_type (fst g)) (group_word g)
            /\ keep_word (group_word g) = true.
Proof.
  unfold finalize. rewrite in_flat_map. intros (g & Hg & He). exists g.
  destruct (keep_word (group_word g)); [|contradiction].
  destruct He as [<- | []]. now repeat split.
Qed.

(** X8.  Every entity returned by [merge_ner_entities] has a target label
    and a text of at least two characters with no whitespace at either end,
    and there are at most as many entities as input tokens. *)
Theorem merged_entities_are_clean (results : list token) :
  (List.length (merge_ner_entities results) <= List.length results)%nat
  /\ forall e, In e (merge_ner_entities results) ->
       str_mem (ent_label e) Config.NER_LABELS = true
       /\ 2 <= len (ent_word e)
       /\ (forall c, hd_error (ent_word e) = Some c
                     \/ hd_error (rev (ent_word e)) = Some c -> isspace c = false).
Proof.
  destruct (bio_groups_tokens results) as [Ht Hl]. unfold merge_ner_entities.
  split; [pose proof (finalize_length (bio_groups results)); lia|].
  intros e He. apply finalize_In in He as (g & Hg & -> & Hk). simpl.
  split; [|split].
  - rewrite Forall_forall in Ht. apply (Ht (fst g)).
    apply in_flat_map. exists g. split; [exact Hg | now left].
  - rewrite keep_word_spec in Hk. apply negb_true_iff, orb_false_iff in Hk as [Hk _].
    now apply Z.ltb_ge in Hk.
  - unfold group_word. apply strip_ends.
Qed.

(** ** merge_ner_entities: how a run of tokens merges *)

Lemma buffer_last_snoc (t0 : token) (ts : list token) (t : token) :
  buffer_last t0 (ts ++ [t]) = t.
Proof. unfold buffer_last. apply last_last. Qed.

Lemma chain_fold (label : pystr) (mg : list group) (rest : list token) :
  str_mem label Config.NER_LABELS = true ->
  forall (t0 : token) (ts : list token),
    entity_type (buffer_last t0 ts) = label ->
    chained label (buffer_last t0 ts) rest ->
    fold_left bio_step rest (mg, t0 :: ts) = (mg, t0 :: ts ++ rest).
Proof.
  intros Hl. induction rest as [|t rest IH]; intros t0 ts Hprev Hc;
    cbn [fold_left].
  - now rewrite app_nil_r.
  - destruct Hc as (Htag & Hty & Hadj & Hc).
    assert (Hstep : bio_step (mg, t0 :: ts) t = (mg, t0 :: (ts ++ [t]))).
    { unfold bio_step. rewrite Hty, Hl, Htag, Hprev.
      change (PyStr.eqb (str "I") (str "B")) with false.
      change (PyStr.eqb (str "I") (str "I")) with true. cbv iota. simpl negb. cbv iota.
      rewrite pystr_eqb_refl. apply Z.leb_le in Hadj. rewrite Hadj. reflexivity. }
    rewrite Hstep, IH.
    + now rewrite <- app_assoc.
    + now rewrite buffer_last_snoc.
    + now rewrite buffer_last_snoc.
Qed.

(** X9.  A B-tagged token with a target label, followed by I-tagged tokens
    of the same label that each start at most one character after the end of
    the token before, is merged into one group: the result is the single
    entity whose text is the concatenation of the token texts without the
    continuation marker, stripped, or nothing when that text is filtered
    out.  An I-tagged token of another target label right after the B-tagged
    token starts a group of its own. *)
Theorem chained_tokens_merge (b : token) (rest : list token) :
  is_target b = true ->
  tag_type b = str "B" ->
  chained (entity_type b) b rest ->
  bio_groups (b :: rest) = [(b, rest)]
  /\ merge_ner_entities (b :: rest)
     = (let word :=
          strip (List.concat (map (fun t => remove_marker (tok_word t)) (b :: rest))) in
        if keep_word word then [mk_entity (entity_type b) word] else [])
  /\ (forall t, is_target t = true -> tag_type t = str "I" ->
                entity_type t <> entity_type b ->
                bio_groups [b; t] = [(b, []); (t, [])]).
Proof.
  intros Hb Htag Hc.
  assert (H0 : bio_step ([], []) b = ([], [b])).
  { unfold bio_step. unfold is_target in Hb. rewrite Hb, Htag. reflexivity. }
  assert (Hg : bio_groups (b :: rest) = [(b, rest)]).
  { unfold bio_groups. cbn [fold_left]. rewrite H0.
    rewrite (chain_fold (entity_type b) [] rest Hb b []); [reflexivity | reflexivity |].
    exact Hc. }
  split; [exact Hg|]. split.
  - unfold merge_ner_entities. rewrite Hg. unfold finalize. simpl.
    unfold group_word. simpl. now rewrite app_nil_r.
  - intros t Ht HI Hne. unfold bio_groups. cbn [fold_left]. rewrite H0.
    unfold bio_step. unfold is_target in Ht. rewrite Ht, HI.
    change (PyStr.eqb (str "I") (str "B")) with false.
    change (PyStr.eqb (str "I") (str "I")) with true. cbv iota. simpl negb. cbv iota.
    assert (E : PyStr.eqb (entity_type t) (entity_type (buffer_last b [])) = false).
    { apply pystr_eqb_neq. exact Hne. }
    rewrite E. reflexivity.
Qed.

Lemma chained_tokens_merge_witness :
  merge_ner_entities
    [mk_token (str "PER-B") (str "Tr") 0 2; mk_token (str "PER-I") (str "##um") 2 4;
     mk_token (str "PER-I") (str "##p") 4 5]
  = [mk_entity (str "PER") (str "Trump")].
Proof.
  apply (proj1 (proj2 (chained_tokens_merge
                         (mk_token (str "PER-B") (str "Tr") 0 2)
                         [mk_token (str "PER-I") (str "##um") 2 4;
                          mk_token (str "PER-I") (str "##p") 4 5]
                         eq_refl eq_refl
                         ltac:(simpl; repeat split; lia)))).
Defined.

Import KeywordSpec.

(** ** extract_entities_only: the listed words *)

Lemma is_prefix_refl (a : pystr) : is_prefix a a = true.
Proof. apply is_prefix_spec. exists []. now rewrite app_nil_r. Qed.

Lemma contains_refl (a : pystr) : contains a a = true.
Proof. destruct a; simpl; [reflexivity|]. now rewrite N.eqb_refl, is_prefix_refl. Qed.

Lemma strict_sub_contains (a b c : pystr) :
  strict_sub a b = true -> contains b c = true -> strict_sub a c = true.
Proof.
  intros H1 H2. apply strict_sub_spec in H1 as [Hc Hl].
  apply strict_sub_spec. split; [now apply contains_trans with b|].
  apply contains_length in H2. lia.
Qed.

Lemma contains_not_strict (a b : pystr) :
  contains a b = true -> strict_sub a b = false -> a = b.
Proof.
  intros Hc Hs. unfold strict_sub in Hs. rewrite Hc in Hs. simpl in Hs.
  apply negb_false_iff in Hs. now apply pystr_eqb_eq.
Qed.

Section ListedFacts.
Variable normalize : pystr -> pystr.

Lemma listed_add_word (l0 w0 l w : pystr) (ebt : by_type) :
  listed (add_word l0 w0 ebt) l w <-> (l = l0 /\ w = w0) \/ listed ebt l w.
Proof.
  unfold listed. induction ebt as [|[lbl ws] ebt IH]; simpl.
  - split.
    + intros (ws' & [H | []] & Hw). injection H as <- <-.
      destruct Hw as [<- | []]. now left.
    + intros [[-> ->] | (ws' & [] & _)]. exists [w0]. split; now left.
  - destruct (PyStr.eqb lbl l0) eqn:E.
    + apply pystr_eqb_eq in E. subst lbl. split.
      * intros (ws' & [H | H] & Hw).
        -- injection H as <- <-. destruct (str_mem w0 ws) eqn:M.
           ++ right. exists ws. split; [now left | exact Hw].
           ++ apply in_app_iff in Hw as [Hw | [<- | []]].
              ** right. exists ws. split; [now left | exact Hw].
              ** now left.
        -- right. exists ws'. split; [now right | exact Hw].
      * intros [[-> ->] | (ws' & [H | H] & Hw)].
        -- destruct (str_mem w0 ws) eqn:M.
           ++ exists ws. split; [now left | now apply str_mem_In].
           ++ exists (ws ++ [w0]). split; [now left|].
              apply in_app_iff. right. now left.
        -- injection H as <- <-.
           destruct (str_mem w0 ws).
           ++ exists ws. split; [now left | exact Hw].
           ++ exists (ws ++ [w0]). split; [now left|]. apply in_app_iff. now left.
        -- exists ws'. split; [now right | exact Hw].
    + apply pystr_eqb_neq in E. split.
      * intros (ws' & [H | H] & Hw).
        -- injection H as <- <-. right. exists ws. split; [now left | exact Hw].
        -- destruct (proj1 IH (ex_intro _ ws' (conj H Hw))) as [H1 | (ws1 & H1 & H2)];
             [now left|].
           right. exists ws1. split; [now right | exact H2].
      * intros [H | (ws' & [H | H] & Hw)].
        -- destruct (proj2 IH (or_introl H)) as (ws1 & H1 & H2).
           exists ws1. split; [now right | exact H2].
        -- injection H as <- <-. exists ws. split; [now left | exact Hw].
        -- destruct (proj2 IH (or_intror (ex_intro _ ws' (conj H Hw))))
             as (ws1 & H1 & H2).
           exists ws1. split; [now right | exact H2].
Qed.

Lemma listed_purge_shorter (n l w : pystr) (ebt : by_type) :
  listed (purge_shorter normalize n ebt) l w
  <-> listed ebt l w /\ strict_sub (normalize w) n = false.
Proof.
  unfold listed, purge_shorter. split.
  - intros (ws & H & Hw). apply in_map_iff in H as ([l1 ws1] & E & H1).
    injection E as <- <-. apply filter_In in Hw as [Hw Hk].
    split; [exists ws1; now split | now apply negb_true_iff].
  - intros [(ws & H & Hw) Hk].
    exists (filter (fun w => negb (strict_sub (normalize w) n)) ws). split.
    + apply in_map_iff. exists (l, ws). now split.
    + apply filter_In. split; [exact Hw | now apply negb_true_iff].
Qed.

Lemma covers_step (done : list entity) (st : list pystr * by_type) (e0 : entity) :
  dedup_inv normalize st -> covers normalize done st ->
  covers normalize (done ++ [e0]) (containment_step normalize st e0).
Proof.
  destruct st as [seen ebt]. destruct e0 as [l0 w0].
  intros [Hanti Hwords] (J1 & J5 & J3 & J4). simpl in *.
  unfold containment_step. simpl. set (n0 := normalize w0).
  destruct (subsumed n0 seen) eqn:Esub.
  - unfold subsumed in Esub. apply existsb_exists in Esub as (s & Hs & Hsub).
    repeat split; simpl.
    + intros e He. apply in_app_iff in He as [He | [<- | []]]; [now apply J1|].
      exists s. split; [exact Hs|]. now apply strict_sub_spec in Hsub.
    + intros s' Hs'. destruct (J5 s' Hs') as (e & He & E).
      exists e. split; [apply in_app_iff; now left | exact E].
    + intros l w H. apply in_app_iff. left. now apply J3.
    + intros l w He Hn. apply in_app_iff in He as [He | [E | []]]; [now apply J4|].
      injection E as <- <-. fold n0 in Hn.
      rewrite (Hanti n0 s Hn Hs) in Hsub. discriminate.
  - assert (Hno : forall s, In s seen -> strict_sub n0 s = false).
    { intros s Hs. destruct (strict_sub n0 s) eqn:E; [|reflexivity].
      rewrite <- Esub. symmetry. apply existsb_exists. now exists s. }
    assert (Hdrop : forall x, In x (drop_shorter n0 seen)
                              <-> In x seen /\ strict_sub x n0 = false).
    { intros x. unfold drop_shorter. rewrite filter_In, negb_true_iff. reflexivity. }
    repeat split; simpl.
    + intros e He. apply in_app_iff in He as [He | [<- | []]].
      * destruct (J1 e He) as (s & Hs & Hc).
        destruct (strict_sub s n0) eqn:E.
        -- exists n0. split; [apply set_add_In; now left|].
           apply strict_sub_spec in E as [E _]. now apply contains_trans with s.
        -- exists s. split; [|exact Hc]. apply set_add_In. right. now apply Hdrop.
      * exists n0. split; [apply set_add_In; now left | apply contains_refl].
    + intros s Hs. apply set_add_In in Hs as [-> | Hs].
      * exists (mk_entity l0 w0). split; [apply in_app_iff; right; now left | reflexivity].
      * apply Hdrop in Hs as [Hs _]. destruct (J5 s Hs) as (e & He & E).
        exists e. split; [apply in_app_iff; now left | exact E].
    + intros l w H. apply listed_add_word in H as [[-> ->] | H].
      * apply in_app_iff. right. now left.
      * apply listed_purge_shorter in H as [H _]. apply in_app_iff. left. now apply J3.
    + intros l w He Hn. apply listed_add_word.
      apply in_app_iff in He as [He | [E | []]];
        [|injection E as <- <-; now left].
      right. apply listed_purge_shorter.
      apply set_add_In in Hn as [Hn | Hn].
      * destruct (J1 _ He) as (s & Hs & Hc). simpl in Hc. rewrite Hn in Hc.
        assert (s = n0) as ->.
        { symmetry. apply contains_not_strict; [exact Hc | now apply Hno]. }
        split; [apply J4; [exact He | now rewrite Hn]|].
        rewrite Hn. apply strict_sub_irrefl.
      * apply Hdrop in Hn as [Hn Hk]. split; [now apply J4 | exact Hk].
Qed.

Lemma covers_fold (entities done : list entity) (st : list pystr * by_type) :
  dedup_inv normalize st -> covers normalize done st ->
  dedup_inv normalize (fold_left (containment_step normalize) entities st)
  /\ covers normalize (done ++ entities)
       (fold_left (containment_step normalize) entities st).
Proof.
  revert done st. induction entities as [|e entities IH]; intros done st Hi Hc; simpl.
  - rewrite app_nil_r. now split.
  - replace (done ++ e :: entities) with ((done ++ [e]) ++ entities)
      by now rewrite <- app_assoc.
    apply IH; [now apply containment_step_inv | now apply covers_step].
Qed.

Lemma covers_initial : covers normalize [] ([], []).
Proof.
  repeat split; simpl; try contradiction.
  intros l w (ws & [] & _).
Qed.

Lemma listed_iff_maximal (entities : list entity) (l w : pystr) :
  listed (snd (fold_left (containment_step normalize) entities ([], []))) l w
  <-> In (mk_entity l w) entities /\ maximal normalize entities (normalize w).
Proof.
  destruct (covers_fold entities [] ([], []) (dedup_inv_initial normalize) covers_initial)
    as [[Hanti Hwords] (J1 & J5 & J3 & J4)].
  simpl in J1, J5, J3, J4.
  set (st := fold_left (containment_step normalize) entities ([], [])) in *.
  split.
  - intros H. split; [now apply J3|].
    intros e He. destruct (strict_sub (normalize w) (normalize (ent_word e))) eqn:E;
      [|reflexivity].
    destruct (J1 e He) as (s & Hs & Hc).
    pose proof (strict_sub_contains _ _ _ E Hc) as Hss.
    destruct H as (ws & H1 & H2).
    rewrite (Hanti (normalize w) s (Hwords l ws w H1 H2) Hs) in Hss. discriminate.
  - intros [He Hmax]. apply J4; [exact He|].
    destruct (J1 _ He) as (s & Hs & Hc). simpl in Hc.
    destruct (J5 s Hs) as (e' & He' & E). subst s.
    rewrite (contains_not_strict _ _ Hc (Hmax e' He')). exact Hs.
Qed.

Lemma add_word_keys (l0 w0 : pystr) (ebt : by_type) (l : pystr) :
  In l (map fst (add_word l0 w0 ebt)) <-> l = l0 \/ In l (map fst ebt).
Proof.
  induction ebt as [|[lbl ws] ebt IH]; simpl.
  - split; [intros [H | []]; now left | intros [-> | []]; now left].
  - destruct (PyStr.eqb lbl l0) eqn:E; simpl.
    + apply pystr_eqb_eq in E. subst lbl. intuition (subst; auto).
    + rewrite IH. tauto.
Qed.

Lemma add_word_no_repeats (l0 w0 : pystr) (ebt : by_type) :
  no_repeats ebt -> no_repeats (add_word l0 w0 ebt).
Proof.
  unfold no_repeats. induction ebt as [|[lbl ws] ebt IH]; simpl; intros [Hk Hw].
  - split; [repeat constructor; intros [] |].
    intros l ws [H | []]. injection H as <- <-. repeat constructor. intros [].
  - inversion Hk as [|x xs Hx Hk']; subst.
    destruct (PyStr.eqb lbl l0) eqn:E; simpl.
    + split; [exact Hk|]. intros l ws' [H | H].
      * injection H as <- <-. destruct (str_mem w0 ws) eqn:M.
        -- apply (Hw lbl ws). now left.
        -- apply NoDup_app; [apply (Hw lbl ws); now left | repeat constructor; intros [] |].
           intros x Hx1 [<- | []].
           apply str_mem_In in Hx1. congruence.
      * apply (Hw l ws'). now right.
    + apply pystr_eqb_neq in E.
      destruct IH as [IH1 IH2].
      { split; [exact Hk'|]. intros l ws' H. apply (Hw l ws'). now right. }
      split.
      * constructor; [|exact IH1]. intros H. apply add_word_keys in H as [-> | H];
          [now apply E | now apply Hx].
      * intros l ws' [H | H]; [injection H as <- <-; apply (Hw lbl ws); now left|].
        now apply (IH2 l ws').
Qed.

Lemma purge_shorter_no_repeats (n : pystr) (ebt : by_type) :
  no_repeats ebt -> no_repeats (purge_shorter normalize n ebt).
Proof.
  unfold no_repeats, purge_shorter. intros [Hk Hw]. split.
  - rewrite map_map.
    replace (map (fun x : pystr * list pystr => fst (let '(lbl, ws) := x in
               (lbl, filter (fun w => negb (strict_sub (normalize w) n)) ws))) ebt)
      with (map fst ebt); [exact Hk|].
    apply map_ext. now intros [l ws].
  - intros l ws H. apply in_map_iff in H as ([l1 ws1] & E & H1).
    injection E as <- <-. apply NoDup_filter. now apply (Hw l1 ws1).
Qed.

Lemma no_repeats_fold (entities : list entity) (st : list pystr * by_type) :
  no_repeats (snd st) ->
  no_repeats (snd (fold_left (containment_step normalize) entities st)).
Proof.
  revert st. induction entities as [|e entities IH]; intros st Hst; simpl; [exact Hst|].
  apply IH. destruct st as [seen ebt]. unfold containment_step.
  destruct (subsumed _ _); [exact Hst|]. simpl.
  now apply add_word_no_repeats, purge_shorter_no_repeats.
Qed.

End ListedFacts.

(** X10.  Whatever the order in which the set of seen forms is enumerated,
    a word is listed under a label in the result of the deduplication
    exactly when the input holds that word with that label and no input
    entity has a normal form of which the word's normal form is a strict
    substring: which words are kept does not depend on the order of the
    input. *)
Theorem listed_words_are_the_maximal_ones (normalize : pystr -> pystr)
    (enum : list pystr -> list pystr) (entities : list entity) (label word : pystr) :
  (forall l, Permutation (enum l) l) ->
  (listed (entities_by_type normalize enum entities) label word
   <-> In (mk_entity label word) entities
       /\ maximal normalize entities (normalize word)).
Proof.
  intros Henum. unfold entities_by_type.
  rewrite dedup_loop_is_containment by assumption. apply listed_iff_maximal.
Qed.

Lemma listed_words_are_the_maximal_ones_witness :
  listed (entities_by_type (normalize_korean_phrase ascii_lower) (@rev pystr)
            [loc seoul; loc seoul_si; mk_entity (str "ORG") (str "UN")])
    (str "LOC") seoul_si.
Proof.
  apply (proj2 (listed_words_are_the_maximal_ones
                  (normalize_korean_phrase ascii_lower) (@rev pystr)
                  [loc seoul; loc seoul_si; mk_entity (str "ORG") (str "UN")]
                  (str "LOC") seoul_si
                  (fun l => Permutation_sym (Permutation_rev l)))).
  split; [right; now left|].
  intros e [<- | [<- | [<- | []]]]; reflexivity.
Defined.

(** X11.  In the result of the deduplication every label is a key once and
    no label's list holds the same word twice. *)
Theorem entities_by_type_has_no_repeats (normalize : pystr -> pystr)
    (enum : list pystr -> list pystr) (entities : list entity) :
  (forall l, Permutation (enum l) l) ->
  no_repeats (entities_by_type normalize enum entities).
Proof.
  intros Henum. unfold entities_by_type.
  rewrite dedup_loop_is_containment by assumption.
  apply no_repeats_fold. split; [constructor | intros l ws []].
Qed.

Lemma entities_by_type_has_no_repeats_witness :
  no_repeats (entities_by_type (normalize_korean_phrase ascii_lower) (fun l => l)
                [loc seoul; loc seoul; mk_entity (str "ORG") seoul]).
Proof.
  apply (entities_by_type_has_no_repeats (normalize_korean_phrase ascii_lower)
           (fun l => l) [loc seoul; loc seoul; mk_entity (str "ORG") seoul]).
  intros l. apply Permutation_refl.
Defined.

(** ** _dedupe_preserve: what the output holds *)

Section DedupeOutput.
Variable normalize : pystr -> pystr.

Local Abbreviation D := (dedupe_with normalize).

Lemma first_seen_spec (pre : list pystr) (item : pystr) :
  first_seen normalize pre item = true
  <-> truthy item = true /\ truthy (normalize item) = true
      /\ forall x, In x pre -> truthy x = true -> normalize x <> normalize item.
Proof.
  unfold first_seen. rewrite !andb_true_iff, negb_true_iff. split.
  - intros [[H1 H2] H3]. repeat split; try assumption.
    intros x Hx Tx E.
    assert (H : existsb (fun y => truthy y && PyStr.eqb (normalize y) (normalize item)) pre
                = true).
    { apply existsb_exists. exists x. rewrite Tx, E, pystr_eqb_refl. now split. }
    congruence.
  - intros (H1 & H2 & H3). repeat split; try assumption.
    destruct (existsb _ pre) eqn:E; [|reflexivity].
    apply existsb_exists in E as (x & Hx & Hc).
    apply andb_true_iff in Hc as [Tx Ex]. apply pystr_eqb_eq in Ex.
    exfalso. now apply (H3 x).
Qed.

Lemma dedupe_In (seq : list pystr) (x : pystr) :
  In x (D seq) ->
  In x seq /\ truthy x = true /\ truthy (normalize x) = true.
Proof.
  induction seq as [|item pre IH] using rev_ind; [intros []|].
  rewrite dedupe_snoc. intros H. apply in_app_iff in H as [H | H].
  - destruct (IH H) as (H1 & H2 & H3). repeat split; try assumption.
    apply in_app_iff. now left.
  - destruct (first_seen normalize pre item) eqn:E; [|contradiction].
    destruct H as [<- | []]. apply first_seen_spec in E as (H1 & H2 & _).
    repeat split; try assumption. apply in_app_iff. right. now left.
Qed.

Lemma dedupe_distinct (seq : list pystr) : NoDup (map normalize (D seq)).
Proof.
  induction seq as [|item pre IH] using rev_ind; [constructor|].
  rewrite dedupe_snoc.
  destruct (first_seen normalize pre item) eqn:E; [|now rewrite app_nil_r].
  rewrite map_app. simpl. apply NoDup_app; [exact IH | repeat constructor; intros [] |].
  intros n Hn [<- | []]. apply in_map_iff in Hn as (x & Ex & Hx).
  apply dedupe_In in Hx as (Hx & Tx & _).
  apply first_seen_spec in E as (_ & _ & H). now apply (H x).
Qed.

Lemma dedupe_represents (seq : list pystr) (x : pystr) :
  In x seq -> truthy x = true -> truthy (normalize x) = true ->
  exists y, In y (D seq) /\ normalize y = normalize x.
Proof.
  revert x. induction seq as [|item pre IH] using rev_ind; intros x; [intros []|].
  rewrite dedupe_snoc.
  assert (Hpre : forall z, In z pre -> truthy z = true -> truthy (normalize z) = true ->
                           exists y, In y (D pre ++ (if first_seen normalize pre item
                                                     then [item] else []))
                                     /\ normalize y = normalize z).
  { intros z Hz T1 T2. destruct (IH z Hz T1 T2) as (y & Hy & E).
    exists y. split; [apply in_app_iff; now left | exact E]. }
  intros Hx Tx Tn. apply in_app_iff in Hx as [Hx | [<- | []]]; [now apply Hpre|].
  destruct (first_seen normalize pre item) eqn:E.
  - exists item. split; [apply in_app_iff; right; now left | reflexivity].
  - unfold first_seen in E. rewrite Tx, Tn in E. simpl in E.
    apply negb_false_iff, existsb_exists in E as (z & Hz & Hc).
    apply andb_true_iff in Hc as [Tz Ez]. apply pystr_eqb_eq in Ez.
    destruct (Hpre z Hz Tz) as (y & Hy & Ey); [now rewrite Ez|].
    exists y. split; [exact Hy | now rewrite Ey].
Qed.

Lemma dedupe_idempotent (seq : list pystr) : D (D seq) = D seq.
Proof.
  induction seq as [|item pre IH] using rev_ind; [reflexivity|].
  rewrite dedupe_snoc.
  destruct (first_seen normalize pre item) eqn:E; [|rewrite !app_nil_r; exact IH].
  rewrite dedupe_snoc. rewrite IH.
  assert (H : first_seen normalize (D pre) item = true).
  { apply first_seen_spec in E as (H1 & H2 & H3). apply first_seen_spec.
    repeat split; try assumption. intros x Hx. apply H3.
    now apply dedupe_In in Hx as (Hx & _). }
  now rewrite H.
Qed.

End DedupeOutput.

(** X12.  The output of [_dedupe_preserve] holds only non-empty tokens of
    the input with a non-empty normalized form, no two of them with the same
    normalized form; every such token of the input has a token with its
    normalized form in the output; and deduplicating the output again
    changes nothing. *)
Theorem dedupe_preserve_output (is_word : N -> bool) (lower : pystr -> pystr)
    (seq : list pystr) :
  let norm := _normalize_token is_word lower in
  let out := _dedupe_preserve is_word lower seq in
  (forall x, In x out -> In x seq /\ x <> [] /\ norm x <> [])
  /\ NoDup (map norm out)
  /\ (forall x, In x seq -> x <> [] -> norm x <> [] ->
        exists y, In y out /\ norm y = norm x)
  /\ _dedupe_preserve is_word lower out = out.
Proof.
  intros norm out. subst out. unfold _dedupe_preserve. fold norm.
  split; [|split; [|split]].
  - intros x Hx. apply dedupe_In in Hx as (H1 & H2 & H3).
    repeat split; [exact H1 | destruct x | destruct (norm x)]; discriminate.
  - apply dedupe_distinct.
  - intros x Hx H1 H2. apply dedupe_represents; [exact Hx | |].
    + destruct x; [contradiction | reflexivity].
    + destruct (norm x); [contradiction | reflexivity].
  - apply dedupe_idempotent.
Qed.

(** ** extract_span: the window *)

Lemma join_contains (sep x : pystr) (l : list pystr) :
  In x l -> contains x (join sep l) = true.
Proof.
  intros H. apply contains_spec.
  induction l as [|y l IH]; [contradiction|].
  destruct H as [<- | H].
  - destruct l as [|z l]; simpl.
    + exists [], []. now rewrite app_nil_r.
    + exists [], (sep ++ join sep (z :: l)). reflexivity.
  - destruct (IH H) as (pre & post & E). destruct l as [|z l]; [contradiction|].
    exists (y ++ sep ++ pre), post. cbn [join]. cbn [join] in E. rewrite E.
    now rewrite <- !app_assoc.
Qed.

Lemma nth_In_firstn (l : list pystr) (m k : nat) :
  (k < List.length l)%nat -> (k < m)%nat -> In (nth k l []) (firstn m l).
Proof.
  revert m k. induction l as [|x l IH]; intros m k Hl Hk; simpl in Hl; [lia|].
  destruct m as [|m]; [lia|]. destruct k as [|k]; simpl; [now left|].
  right. apply IH; lia.
Qed.

Lemma window_holds_centre (sentences : list pystr) (lo hi c : Z) :
  0 <= lo <= c -> c <= hi -> c < Z.of_nat (List.length sentences) ->
  In (nth (Z.to_nat c) sentences []) (sentences_between sentences lo hi).
Proof.
  intros Hlo Hhi Hn. unfold sentences_between.
  replace (nth (Z.to_nat c) sentences [])
    with (nth (Z.to_nat c - Z.to_nat lo) (skipn (Z.to_nat lo) sentences) []).
  - apply nth_In_firstn; [rewrite length_skipn|]; lia.
  - rewrite nth_skipn. f_equal. lia.
Qed.

Lemma extract_span_in_range (sentences : list pystr) (center before after : Z)
    (sep : pystr) :
  0 <= center < Z.of_nat (List.length sentences) -> 0 <= after ->
  extract_span sentences center before after sep
  = Ok (join sep (sentences_between sentences (Z.max 0 (center - before))
                    (Z.min (Z.of_nat (List.length sentences) - 1) (center + after))),
        Z.max 0 (center - before),
        Z.min (Z.of_nat (List.length sentences) - 1) (center + after)).
Proof.
  intros [Hc1 Hc2] Ha. unfold extract_span.
  destruct (Z.of_nat (List.length sentences) =? 0) eqn:E0;
    [apply Z.eqb_eq in E0; lia|].
  assert (Ec : (0 <=? center) && (center <? Z.of_nat (List.length sentences)) = true).
  { apply andb_true_iff. split; [now apply Z.leb_le | now apply Z.ltb_lt]. }
  rewrite Ec. cbn [negb]. cbv zeta.
  rewrite slice_is_window; [reflexivity | lia | lia | lia].
Qed.

(** X13.  For an in-range centre and non-negative [num_before] and
    [num_after], [extract_span] returns bounds with
    [0 <= start <= center <= end <= n - 1] that span at most
    [num_before + num_after + 1] sentences, and the centre sentence occurs
    in the returned text. *)
Theorem extract_span_holds_centre (sentences : list pystr)
    (center before after : Z) (sep : pystr) :
  0 <= center < Z.of_nat (List.length sentences) ->
  0 <= before -> 0 <= after ->
  exists span lo hi,
    extract_span sentences center before after sep = Ok (span, lo, hi)
    /\ 0 <= lo <= center /\ center <= hi < Z.of_nat (List.length sentences)
    /\ hi - lo + 1 <= before + after + 1
    /\ contains (nth (Z.to_nat center) sentences []) span = true.
Proof.
  intros Hc Hb Ha.
  rewrite (extract_span_in_range sentences center before after sep Hc Ha).
  eexists. eexists. eexists.
  split; [reflexivity|]. repeat split; try lia.
  apply join_contains. apply window_holds_centre; lia.
Qed.

Lemma extract_span_holds_centre_witness :
  exists span lo hi,
    extract_span [str "a"; str "b"; str "c"; str "d"] 3 2 5 (str " ") = Ok (span, lo, hi)
    /\ 0 <= lo <= 3 /\ 3 <= hi < 4 /\ hi - lo + 1 <= 2 + 5 + 1
    /\ contains (str "d") span = true.
Proof.
  apply (extract_span_holds_centre [str "a"; str "b"; str "c"; str "d"] 3 2 5 (str " "));
    simpl; lia.
Defined.

(** ** clean_text, split_sentences, split_into_sentences *)

Import Sentences.

Lemma lstrip_app_nil (a b : pystr) : lstrip a = [] -> lstrip (a ++ b) = lstrip b.
Proof.
  induction a as [|c a IH]; intros H; [reflexivity|].
  simpl in *. destruct (isspace c); [now apply IH | discriminate].
Qed.

Lemma lstrip_app_keep (a b : pystr) :
  lstrip a <> [] -> lstrip (a ++ b) = lstrip a ++ b.
Proof.
  induction a as [|c a IH]; intros H; [contradiction|].
  simpl in *. destruct (isspace c); [now apply IH | reflexivity].
Qed.

Lemma lstrip_cons_nonspace (s : pystr) (c : N) (r : pystr) :
  lstrip s = c :: r -> isspace c = false.
Proof.
  induction s as [|x s IH]; simpl; [discriminate|].
  destruct (isspace x) eqn:E; [exact IH|]. intros [= <- _]. exact E.
Qed.

Lemma lstrip_idem (s : pystr) : lstrip (lstrip s) = lstrip s.
Proof.
  destruct (lstrip s) as [|c r] eqn:E; [reflexivity|].
  simpl. now rewrite (lstrip_cons_nonspace _ _ _ E).
Qed.

Lemma lstrip_length (s : pystr) : (List.length (lstrip s) <= List.length s)%nat.
Proof.
  induction s as [|c s IH]; simpl; [lia|]. destruct (isspace c); simpl; lia.
Qed.

Lemma rstrip_app_keep (x y : pystr) :
  rstrip y <> [] -> rstrip (x ++ y) = x ++ rstrip y.
Proof.
  unfold rstrip. intros H. rewrite rev_app_distr.
  rewrite lstrip_app_keep.
  - now rewrite rev_app_distr, rev_involutive.
  - intros E. apply H. now rewrite E.
Qed.

Lemma rstrip_app_nil (x y : pystr) : rstrip y = [] -> rstrip (x ++ y) = rstrip x.
Proof.
  unfold rstrip. intros H. rewrite rev_app_distr.
  rewrite lstrip_app_nil; [reflexivity|].
  apply (f_equal (@rev N)) in H. now rewrite rev_involutive in H.
Qed.

Lemma rstrip_keeps_last (a : pystr) (c : N) :
  isspace c = false -> rstrip (a ++ [c]) = a ++ [c].
Proof.
  intros H. unfold rstrip. rewrite rev_app_distr. simpl. rewrite H.
  simpl. now rewrite rev_involutive.
Qed.

Lemma rstrip_length (s : pystr) : (List.length (rstrip s) <= List.length s)%nat.
Proof.
  unfold rstrip. rewrite length_rev. etransitivity; [apply lstrip_length|].
  now rewrite length_rev.
Qed.

Lemma strip_length (s : pystr) : (List.length (strip s) <= List.length s)%nat.
Proof.
  unfold strip. etransitivity; [apply rstrip_length | apply lstrip_length].
Qed.

Lemma join_cons (sep p : pystr) (rest : list pystr) :
  rest <> [] -> join sep (p :: rest) = p ++ sep ++ join sep rest.
Proof. destruct rest; [contradiction | reflexivity]. Qed.

(** *** The words of [str.split] *)

Lemma split_ws_aux_word (w cur s : pystr) :
  forallb (fun c => negb (isspace c)) w = true ->
  split_ws_aux cur (w ++ s) = split_ws_aux (rev w ++ cur) s.
Proof.
  revert cur. induction w as [|c w IH]; intros cur H; [reflexivity|].
  simpl in H. apply andb_true_iff in H as [Hc Hw].
  apply negb_true_iff in Hc. simpl. rewrite Hc, (IH _ Hw).
  now rewrite <- app_assoc.
Qed.

Lemma split_ws_aux_words (s cur : pystr) :
  forallb (fun c => negb (isspace c)) cur = true ->
  Forall (fun w => is_a_word w = true) (split_ws_aux cur s).
Proof.
  assert (R : forall cur, cur <> [] ->
                forallb (fun c => negb (isspace c)) cur = true ->
                is_a_word (rev cur) = true).
  { intros c Hn Hc. unfold is_a_word. apply andb_true_iff. split.
    - destruct (rev c) eqn:E; [|reflexivity].
      apply (f_equal (@rev N)) in E. rewrite rev_involutive in E. now subst.
    - apply forallb_forall. intros x Hx. apply in_rev in Hx.
      now apply (proj1 (forallb_forall _ _) Hc). }
  revert cur. induction s as [|c s IH]; intros cur H; simpl.
  - destruct cur; [constructor|]. constructor; [|constructor].
    apply R; [discriminate | exact H].
  - destruct (isspace c) eqn:E.
    + destruct cur as [|x cur]; [now apply IH|].
      constructor; [apply R; [discriminate | exact H] | now apply IH].
    + apply IH. simpl. now rewrite E, H.
Qed.

Lemma split_ws_words (s : pystr) :
  Forall (fun w => is_a_word w = true) (split_ws s).
Proof. now apply split_ws_aux_words. Qed.

Lemma split_ws_lstrip (s : pystr) : split_ws_aux [] (lstrip s) = split_ws_aux [] s.
Proof.
  induction s as [|c s IH]; [reflexivity|]. simpl.
  destruct (isspace c) eqn:E; [exact IH|]. simpl. now rewrite E.
Qed.

Lemma join_words_nonempty (ws : list pystr) :
  ws <> [] -> Forall (fun w => is_a_word w = true) ws ->
  exists c r, join (str " ") ws = c :: r /\ isspace c = false.
Proof.
  intros Hn Hw. destruct ws as [|w ws]; [contradiction|].
  inversion Hw as [|? ? H1 H2]; subst. unfold is_a_word in H1.
  apply andb_true_iff in H1 as [Ht Hf]. destruct w as [|c w]; [discriminate|].
  simpl in Hf. apply andb_true_iff in Hf as [Hc _]. apply negb_true_iff in Hc.
  destruct ws; simpl; eauto.
Qed.

(** [str.split] undoes [" ".join] on a list of words. *)
Lemma split_ws_join (ws : list pystr) :
  Forall (fun w => is_a_word w = true) ws ->
  split_ws (join (str " ") ws) = ws.
Proof.
  unfold split_ws. induction ws as [|w ws IH]; intros H; [reflexivity|].
  inversion H as [|? ? H1 H2]; subst. pose proof H1 as Hw. unfold is_a_word in H1.
  apply andb_true_iff in H1 as [Ht Hf].
  assert (Hr : rev w <> []).
  { intros E. apply (f_equal (@rev N)) in E. rewrite rev_involutive in E.
    now subst. }
  destruct ws as [|w' ws].
  - cbn [join]. rewrite <- (app_nil_r w) at 1.
    rewrite (split_ws_aux_word _ _ _ Hf), app_nil_r. simpl.
    destruct (rev w) eqn:E; [contradiction|]. now rewrite <- E, rev_involutive.
  - rewrite join_cons by discriminate.
    rewrite (split_ws_aux_word _ _ _ Hf), app_nil_r.
    change (str " " ++ join (str " ") (w' :: ws))
      with (32%N :: join (str " ") (w' :: ws)).
    cbn [split_ws_aux]. change (isspace 32) with true. cbv iota.
    destruct (rev w) eqn:E; [contradiction|]. rewrite <- E, rev_involutive.
    f_equal. now apply IH.
Qed.

(** *** [clean_text] is [" ".join(text.split())] *)

Lemma lstrip_collapse (s : pystr) (b : bool) :
  lstrip (collapse_ws b s) = collapse_ws false (lstrip s).
Proof.
  revert b. induction s as [|c s IH]; intros b; [reflexivity|].
  simpl. destruct (isspace c) eqn:E.
  - destruct b; [apply IH|]. simpl. change (isspace 32) with true. apply IH.
  - simpl. now rewrite E.
Qed.

Lemma rstrip_collapse (s : pystr) :
  (forall cur, cur <> [] -> forallb (fun c => negb (isspace c)) cur = true ->
     rstrip (rev cur ++ collapse_ws false s)
     = join (str " ") (split_ws_aux cur s))
  /\ rstrip (collapse_ws true s) = join (str " ") (split_ws_aux [] s).
Proof.
  induction s as [|c s [IH1 IH2]].
  - split; [|reflexivity]. intros cur Hn Hc. simpl. rewrite app_nil_r.
    destruct cur as [|x cur]; [contradiction|]. simpl in Hc.
    apply andb_true_iff in Hc as [Hx _]. apply negb_true_iff in Hx.
    cbn [rev join]. now apply rstrip_keeps_last.
  - assert (S1 : isspace c = false -> forall cur,
                 forallb (fun c => negb (isspace c)) cur = true ->
                 rstrip (rev cur ++ collapse_ws false (c :: s))
                 = join (str " ") (split_ws_aux cur (c :: s))).
    { intros E cur Hc. simpl. rewrite E.
      change (rev cur ++ c :: collapse_ws false s)
        with (rev cur ++ [c] ++ collapse_ws false s).
      rewrite app_assoc. change (rev cur ++ [c]) with (rev (c :: cur)).
      apply IH1; [discriminate|]. simpl. now rewrite E, Hc. }
    split.
    + intros cur Hn Hc. destruct (isspace c) eqn:E; [|now apply S1].
      simpl. rewrite E. destruct cur as [|x cur]; [contradiction|].
      assert (Hx : isspace x = false).
      { simpl in Hc. apply andb_true_iff in Hc as [Hx _].
        now apply negb_true_iff in Hx. }
      destruct (split_ws_aux [] s) as [|w ws] eqn:Ew.
      * cbn [join]. simpl in IH2.
        change (rev (x :: cur) ++ 32%N :: collapse_ws true s)
          with (rev (x :: cur) ++ [32%N] ++ collapse_ws true s).
        rewrite app_assoc, rstrip_app_nil by exact IH2.
        rewrite rstrip_app_nil by reflexivity.
        cbn [rev]. now apply rstrip_keeps_last.
      * rewrite join_cons by discriminate.
        pose proof (split_ws_aux_words s [] eq_refl) as Hw. rewrite Ew in Hw.
        destruct (join_words_nonempty (w :: ws)) as (d & r & Ej & Hd);
          [discriminate | exact Hw |].
        change (rev (x :: cur) ++ 32%N :: collapse_ws true s)
          with (rev (x :: cur) ++ [32%N] ++ collapse_ws true s).
        rewrite app_assoc, rstrip_app_keep; rewrite IH2.
        { now rewrite <- app_assoc. }
        rewrite Ej. discriminate.
    + destruct (isspace c) eqn:E.
      * simpl. rewrite E. exact IH2.
      * specialize (S1 eq_refl [] eq_refl). simpl in S1. rewrite E in S1.
        simpl. rewrite E. exact S1.
Qed.

Lemma clean_text_join_split (t : pystr) :
  clean_text (Some t) = join (str " ") (split_ws t).
Proof.
  unfold clean_text, strip, split_ws. rewrite lstrip_collapse, <- split_ws_lstrip.
  destruct (lstrip t) as [|c u] eqn:E; [reflexivity|].
  pose proof (lstrip_cons_nonspace _ _ _ E) as Hc.
  destruct (rstrip_collapse u) as [H1 _].
  specialize (H1 [c]). simpl. rewrite Hc. simpl in H1. apply H1; [discriminate|].
  now rewrite Hc.
Qed.

Lemma collapse_length (s : pystr) (b : bool) :
  (List.length (collapse_ws b s) <= List.length s)%nat.
Proof.
  revert b. induction s as [|c s IH]; intros b; simpl; [lia|].
  pose proof (IH true). pose proof (IH false).
  destruct (isspace c); [destruct b|]; simpl; lia.
Qed.

Lemma clean_text_length (t : pystr) : len (clean_text (Some t)) <= len t.
Proof.
  unfold clean_text, len. pose proof (strip_length (collapse_ws false t)).
  pose proof (collapse_length t false). lia.
Qed.

Lemma clean_text_idem (t : pystr) :
  clean_text (Some (clean_text (Some t))) = clean_text (Some t).
Proof.
  rewrite !clean_text_join_split. now rewrite split_ws_join by apply split_ws_words.
Qed.

(** X14.  [clean_text] returns the whitespace-separated words of the text
    joined by single spaces, the empty string for [None]; the words are not
    empty and hold no whitespace; cleaning a cleaned text changes nothing,
    and the result is never longer than the text. *)
Theorem clean_text_joins_the_words (t : pystr) :
  clean_text None = []
  /\ clean_text (Some t) = join (str " ") (split_ws t)
  /\ Forall (fun w => is_a_word w = true) (split_ws t)
  /\ split_ws (clean_text (Some t)) = split_ws t
  /\ clean_text (Some (clean_text (Some t))) = clean_text (Some t)
  /\ len (clean_text (Some t)) <= len t.
Proof.
  split; [reflexivity|]. split; [apply clean_text_join_split|].
  split; [apply split_ws_words|]. split; [|split].
  - rewrite clean_text_join_split. apply split_ws_join, split_ws_words.
  - apply clean_text_idem.
  - apply clean_text_length.
Qed.

(** *** [split_sentences] *)

Lemma single_spaced_word (w rest : pystr) :
  forallb (fun c => negb (isspace c)) w = true ->
  single_spaced (w ++ rest) = single_spaced rest.
Proof.
  induction w as [|c w IH]; intros H; [reflexivity|].
  simpl in H. apply andb_true_iff in H as [Hc Hw]. apply negb_true_iff in Hc.
  cbn [app single_spaced]. rewrite Hc. now apply IH.
Qed.

Lemma single_spaced_join (ws : list pystr) :
  Forall (fun w => is_a_word w = true) ws ->
  single_spaced (join (str " ") ws) = true.
Proof.
  induction ws as [|w ws IH]; intros H; [reflexivity|].
  inversion H as [|? ? H1 H2]; subst. unfold is_a_word in H1.
  apply andb_true_iff in H1 as [_ Hf].
  destruct ws as [|w' ws].
  - cbn [join]. rewrite <- (app_nil_r w). now rewrite single_spaced_word.
  - rewrite join_cons by discriminate. rewrite single_spaced_word by exact Hf.
    destruct (join_words_nonempty (w' :: ws)) as (d & r & Ej & Hd);
      [discriminate | exact H2 |].
    specialize (IH H2). rewrite Ej in *.
    change (str " " ++ d :: r) with (32%N :: d :: r).
    cbn [single_spaced] in *. change (isspace 32) with true. cbv iota.
    rewrite Hd in *. exact IH.
Qed.

Lemma clean_text_single_spaced (t : pystr) :
  single_spaced (clean_text (Some t)) = true.
Proof. rewrite clean_text_join_split. apply single_spaced_join, split_ws_words. Qed.

Lemma re_split_aux_nonempty (ahead : pystr -> bool) (s : pystr)
    (skipping prev_end : bool) (cur : pystr) :
  re_split_aux ahead skipping prev_end cur s <> [].
Proof.
  revert skipping prev_end cur. induction s as [|c s IH]; intros sk pe cur; simpl;
    [discriminate|].
  destruct (isspace c); [|apply IH]. destruct sk; [apply IH|].
  destruct (pe && ahead (lstrip s)); [discriminate | apply IH].
Qed.

(** On a single-spaced text the pieces joined by a space give the text
    back. *)
Lemma re_split_join (ahead : pystr -> bool) (s : pystr) (prev_end : bool)
    (cur : pystr) :
  single_spaced s = true ->
  join (str " ") (re_split_aux ahead false prev_end cur s) = rev cur ++ s.
Proof.
  revert prev_end cur. induction s as [|c s IH]; intros pe cur H.
  - simpl. now rewrite app_nil_r.
  - cbn [single_spaced] in H. apply andb_true_iff in H as [Hc Hs].
    cbn [re_split_aux]. destruct (isspace c) eqn:E.
    + apply andb_true_iff in Hc as [Hc Hd]. apply N.eqb_eq in Hc. subst c.
      destruct s as [|d s]; [discriminate|]. apply negb_true_iff in Hd.
      destruct (pe && ahead (lstrip (d :: s))).
      * rewrite join_cons by apply re_split_aux_nonempty.
        specialize (IH false [] Hs). cbn [re_split_aux] in IH |- *.
        rewrite Hd in IH |- *. rewrite IH. reflexivity.
      * rewrite (IH false (32%N :: cur) Hs). cbn [rev]. now rewrite <- app_assoc.
    + rewrite (IH (sentence_end c) (c :: cur) Hs). cbn [rev].
      now rewrite <- app_assoc.
Qed.

Lemma removelast_cons {A} (a : A) (l : list A) :
  l <> [] -> removelast (a :: l) = a :: removelast l.
Proof. destruct l; [contradiction | reflexivity]. Qed.

Lemma re_split_ends (ahead : pystr -> bool) (s : pystr)
    (skipping prev_end : bool) (cur : pystr) :
  (prev_end = true -> ends_sentence (rev cur) = true) ->
  Forall (fun p => ends_sentence p = true)
         (removelast (re_split_aux ahead skipping prev_end cur s)).
Proof.
  revert skipping prev_end cur.
  induction s as [|c s IH]; intros sk pe cur H; cbn [re_split_aux].
  - constructor.
  - destruct (isspace c) eqn:E.
    + destruct sk; [apply IH; discriminate|].
      destruct (pe && ahead (lstrip s)) eqn:Ep; [|apply IH; discriminate].
      apply andb_true_iff in Ep as [Ep _].
      rewrite removelast_cons by apply re_split_aux_nonempty.
      constructor; [now apply H|]. apply IH. discriminate.
    + apply IH. intros Hc. unfold ends_sentence. now rewrite rev_involutive.
Qed.

(** X15.  [split_sentences] cleans the text first and returns no sentence
    exactly when the cleaned text is empty; the sentences joined by single
    spaces give the cleaned text back, and every sentence but the last ends
    with a full stop, an exclamation mark or a question mark. *)
Theorem split_sentences_round_trip (text : option pystr) :
  (split_sentences text = [] <-> clean_text text = [])
  /\ join (str " ") (split_sentences text) = clean_text text
  /\ Forall (fun p => ends_sentence p = true) (removelast (split_sentences text)).
Proof.
  unfold split_sentences.
  assert (Hs : single_spaced (clean_text text) = true).
  { destruct text; [apply clean_text_single_spaced | reflexivity]. }
  destruct (clean_text text) as [|c t] eqn:E.
  - repeat split; auto.
  - cbn [truthy negb]. split; [|split].
    + split; [|discriminate]. intros H. exfalso.
      exact (re_split_aux_nonempty _ _ _ _ _ H).
    + unfold re_split. now rewrite re_split_join.
    + apply re_split_ends. discriminate.
Qed.

(** *** [split_into_sentences] *)

Lemma re_split_piece_length (ahead : pystr -> bool) (s : pystr)
    (skipping prev_end : bool) (cur p : pystr) :
  In p (re_split_aux ahead skipping prev_end cur s) ->
  (List.length p <= List.length cur + List.length s)%nat.
Proof.
  revert skipping prev_end cur.
  induction s as [|c s IH]; intros sk pe cur H; cbn [re_split_aux] in H.
  - destruct H as [<- | []]. rewrite length_rev. lia.
  - cbn [List.length]. destruct (isspace c).
    + destruct sk; [apply IH in H; lia|].
      destruct (pe && ahead (lstrip s)).
      * destruct H as [<- | H]; [rewrite length_rev; lia|].
        apply IH in H. simpl in H. lia.
      * apply IH in H. simpl in H. lia.
    + apply IH in H. simpl in H. lia.
Qed.

Lemma long_enough_spec (is_ko : bool) (s : pystr) :
  long_enough is_ko s = true <-> (if is_ko then 10 else 20) <= len s.
Proof.
  unfold long_enough. destruct is_ko; cbn [andb negb];
    destruct (len s <? _) eqn:E; cbn [andb negb];
    (apply Z.ltb_lt in E || apply Z.ltb_ge in E); split; intros H;
    try reflexivity; try discriminate; lia.
Qed.

Lemma split_into_sentences_kept (text : option pystr) (is_ko : option bool) :
  let korean := match is_ko with
                | Some b => b
                | None => existsb is_hangul (or_empty text)
                end in
  let least := if korean then 10 else 20 in
  Forall (fun s => clean_text (Some s) = s
                   /\ least <= len s <= len (or_empty text))
         (split_into_sentences text is_ko).
Proof.
  intros korean least.
  apply Forall_forall. intros s Hs. unfold split_into_sentences in Hs.
  apply filter_In in Hs as [Hs Hk]. apply in_map_iff in Hs as (p & <- & Hp).
  apply andb_true_iff in Hk as [_ Hk].
  apply long_enough_spec in Hk.
  apply re_split_piece_length in Hp. simpl in Hp.
  pose proof (clean_text_length p) as Hl. unfold len in Hl |- *.
  split; [apply clean_text_idem|]. split; [|lia].
  unfold least, korean. destruct is_ko; exact Hk.
Qed.

Lemma split_into_sentences_short (text : option pystr) (is_ko : option bool) :
  let korean := match is_ko with
                | Some b => b
                | None => existsb is_hangul (or_empty text)
                end in
  len (or_empty text) < (if korean then 10 else 20) ->
  split_into_sentences text is_ko = [].
Proof.
  intros korean Hshort. pose proof (split_into_sentences_kept text is_ko) as F.
  destruct (split_into_sentences text is_ko) as [|s l]; [reflexivity|].
  inversion F as [|? ? [_ H] _]; subst. fold korean in H. lia.
Qed.

(** X16.  Every sentence that [split_into_sentences] returns is a cleaned
    piece of the text: cleaning it again changes nothing, it is not longer
    than the text, and it has at least 10 characters when the text counts as
    Korean and at least 20 otherwise; a text shorter than that gives no
    sentence.  Without [is_ko] the text counts as Korean exactly when it
    holds a Hangul syllable. *)
Theorem split_into_sentences_lengths (text : option pystr) (is_ko : option bool) :
  let korean := match is_ko with
                | Some b => b
                | None => existsb is_hangul (or_empty text)
                end in
  let least := if korean then 10 else 20 in
  Forall (fun s => clean_text (Some s) = s
                   /\ least <= len s <= len (or_empty text))
         (split_into_sentences text is_ko)
  /\ (len (or_empty text) < least -> split_into_sentences text is_ko = []).
Proof.
  intros korean least. split.
  - apply split_into_sentences_kept.
  - apply split_into_sentences_short.
Qed.

(** ** find_best_match_span_in_snippet *)

Import MatcherSpec.

Lemma extract_span_at (sentences : list pystr) (c : nat) (nb na : Z) :
  (c < List.length sentences)%nat ->
  extract_span sentences (Z.of_nat c) nb na (str " ")
  = Ok (window_text sentences nb na c, window_lo nb c, window_hi sentences na c).
Proof.
  intros H. unfold extract_span.
  destruct (Z.of_nat (List.length sentences) =? 0) eqn:E0;
    [apply Z.eqb_eq in E0; lia|].
  assert (Ec : (0 <=? Z.of_nat c)
               && (Z.of_nat c <? Z.of_nat (List.length sentences)) = true).
  { apply andb_true_iff. split; [apply Z.leb_le | apply Z.ltb_lt]; lia. }
  rewrite Ec. reflexivity.
Qed.

Lemma map_result_spans (sentences : list pystr) (nb na : Z) (idx : list nat) :
  Forall (fun c => (c < List.length sentences)%nat) idx ->
  map_result (fun c => extract_span sentences (Z.of_nat c) nb na (str " ")) idx
  = Ok (map (fun c => (window_text sentences nb na c, window_lo nb c,
                       window_hi sentences na c)) idx).
Proof.
  induction idx as [|c idx IH]; intros H; [reflexivity|].
  inversion H as [|? ? H1 H2]; subst. cbn [map_result map].
  now rewrite (extract_span_at _ _ _ _ H1), (IH H2).
Qed.

Lemma seq_below (n : nat) : Forall (fun c => (c < n)%nat) (seq 0 n).
Proof. apply Forall_forall. intros c H. apply in_seq in H. lia. Qed.

Lemma quote_side (split : pystr -> list pystr) (quote_text : pystr) (nb na : Z) :
  match split quote_text with
  | [] => Ok quote_text
  | _ :: _ =>
      bind (extract_span (split quote_text)
              (Z.of_nat (List.length (split quote_text)) / 2) nb na (str " "))
           (fun r => Ok (fst (fst r)))
  end = Ok (quote_span split quote_text nb na).
Proof.
  unfold quote_span. destruct (split quote_text) as [|q qs] eqn:E; [reflexivity|].
  change 2 with (Z.of_nat 2). rewrite <- Nat2Z.inj_div.
  rewrite extract_span_at; [reflexivity|].
  apply Nat.div_lt; simpl; lia.
Qed.

(** *** [torch.argmax] *)

Lemma Qltb_lt (a b : Q) : Qltb a b = true <-> (a < b)%Q.
Proof.
  unfold Qltb. rewrite negb_true_iff. split; intros H.
  - apply Qnot_le_lt. intros Hle. apply Qle_bool_iff in Hle. congruence.
  - destruct (Qle_bool b a) eqn:E; [|reflexivity].
    apply Qle_bool_iff in E. exfalso. exact (Qlt_not_le _ _ H E).
Qed.

Lemma Qltb_ge (a b : Q) : Qltb a b = false <-> (b <= a)%Q.
Proof.
  unfold Qltb. rewrite negb_false_iff. apply Qle_bool_iff.
Qed.

Lemma argmax_from_spec (l pre : list Q) (best_i : nat) (best : Q) :
  nth_error pre best_i = Some best ->
  (forall j x, nth_error pre j = Some x -> (x <= best)%Q) ->
  (forall j x, (j < best_i)%nat -> nth_error pre j = Some x -> (x < best)%Q) ->
  exists top,
    nth_error (pre ++ l) (argmax_from best_i best (List.length pre) l) = Some top
    /\ (forall j x, nth_error (pre ++ l) j = Some x -> (x <= top)%Q)
    /\ (forall j x, (j < argmax_from best_i best (List.length pre) l)%nat ->
          nth_error (pre ++ l) j = Some x -> (x < top)%Q).
Proof.
  revert pre best_i best. induction l as [|y l IH]; intros pre bi best Hb Hle Hlt.
  - rewrite app_nil_r. simpl. eauto.
  - cbn [argmax_from].
    assert (Hlen : List.length (pre ++ [y]) = S (List.length pre)).
    { rewrite length_app. simpl. lia. }
    replace (pre ++ y :: l) with ((pre ++ [y]) ++ l)
      by (now rewrite <- app_assoc).
    rewrite <- Hlen.
    assert (Hsplit : forall j x, nth_error (pre ++ [y]) j = Some x ->
                       nth_error pre j = Some x
                       \/ (j = List.length pre /\ x = y)).
    { intros j x Hj. destruct (Nat.lt_ge_cases j (List.length pre)) as [Hl | Hg].
      - left. now rewrite nth_error_app1 in Hj.
      - right. rewrite nth_error_app2 in Hj by exact Hg.
        destruct (j - List.length pre)%nat as [|k] eqn:Ek.
        + simpl in Hj. injection Hj as <-. split; [lia | reflexivity].
        + destruct k; discriminate. }
    destruct (Qltb best y) eqn:E.
    + apply Qltb_lt in E. apply IH.
      * rewrite nth_error_app2 by lia. now rewrite Nat.sub_diag.
      * intros j x Hj. destruct (Hsplit j x Hj) as [H | [_ ->]].
        -- apply Qlt_le_weak. eapply Qle_lt_trans; [exact (Hle _ _ H) | exact E].
        -- apply Qle_refl.
      * intros j x Hj Hx. destruct (Hsplit j x Hx) as [H | [-> _]]; [|lia].
        eapply Qle_lt_trans; [exact (Hle _ _ H) | exact E].
    + apply Qltb_ge in E. apply IH.
      * rewrite nth_error_app1; [exact Hb|]. apply nth_error_Some. congruence.
      * intros j x Hj. destruct (Hsplit j x Hj) as [H | [_ ->]];
          [exact (Hle _ _ H) | exact E].
      * intros j x Hj Hx. destruct (Hsplit j x Hx) as [H | [-> _]].
        -- exact (Hlt _ _ Hj H).
        -- exfalso. assert (bi < List.length pre)%nat; [|lia].
           apply nth_error_Some. congruence.
Qed.

Lemma argmax_spec (sims : list Q) :
  sims <> [] ->
  exists i top,
    argmax sims = Ok i
    /\ nth_error sims i = Some top
    /\ (forall j x, nth_error sims j = Some x -> (x <= top)%Q)
    /\ (forall j x, (j < i)%nat -> nth_error sims j = Some x -> (x < top)%Q).
Proof.
  destruct sims as [|x l]; [contradiction|]. intros _.
  destruct (argmax_from_spec l [x] 0 x) as (top & H1 & H2 & H3).
  - reflexivity.
  - intros [|[|j]] y Hy; simpl in Hy; try discriminate.
    injection Hy as <-. apply Qle_refl.
  - intros j y Hj. lia.
  - exists (argmax_from 0 x 1 l), top. repeat split; assumption.
Qed.

Lemma index_nth {A} (l : list A) (i : nat) (x : A) :
  nth_error l i = Some x -> index l i = Ok x.
Proof. unfold index. now intros ->. Qed.

Section MatchFacts.
Variable split : pystr -> list pystr.
Variable model : Type.
Variable get_sentence_model : result model.
Variable similarities : model -> pystr -> list pystr -> result (list Q).

Let matcher := find_best_match_span_in_snippet split model get_sentence_model
                 similarities.

(** The function up to the point where the snippet has sentences. *)
Lemma matcher_unfold (quote_text snippet url : pystr) (nb na : Z) :
  truthy snippet = true -> split snippet <> [] ->
  matcher quote_text (Some snippet) url nb na
  = bind get_sentence_model (fun sim_model =>
      match
        bind (similarities sim_model (quote_span split quote_text nb na)
                (window_texts (split snippet) nb na))
          (fun sims =>
             bind (argmax sims) (fun best_idx =>
             bind (index sims best_idx) (fun best_score =>
             Ok (map (fun c => (window_text (split snippet) nb na c,
                                window_lo nb c,
                                window_hi (split snippet) na c))
                     (seq 0 (List.length (split snippet))),
                 best_idx, best_score))))
      with
      | Raise _ => Ok None
      | Ok (spans, best_idx, best_score) =>
          bind (index spans best_idx) (fun best =>
          let '(best_span_text, s_idx, e_idx) := best in
          bind (index (split snippet) best_idx) (fun best_sentence =>
          Ok (Some (mk_span_res url best_sentence best_score
                      best_span_text s_idx e_idx))))
      end).
Proof.
  intros Ht Hs. unfold matcher, find_best_match_span_in_snippet.
  rewrite Ht. cbn [negb]. cbv zeta. rewrite quote_side. cbn [bind].
  destruct (split snippet) as [|s0 rest] eqn:Es; [contradiction|].
  rewrite <- Es. destruct get_sentence_model as [m|e]; [|reflexivity].
  cbn [bind]. rewrite (map_result_spans _ _ _ _ (seq_below _)).
  cbn [bind]. unfold window_texts. rewrite map_map. cbn [fst]. reflexivity.
Qed.

Lemma matcher_no_sentences (quote_text snippet url : pystr) (nb na : Z) :
  split snippet = [] -> matcher quote_text (Some snippet) url nb na = Ok None.
Proof.
  intros Hs. unfold matcher, find_best_match_span_in_snippet.
  destruct (truthy snippet); [|reflexivity]. cbn [negb]. cbv zeta.
  rewrite quote_side. cbn [bind]. now rewrite Hs.
Qed.

End MatchFacts.

(** X17.  When the model loads and returns one score per span, the snippet
    matcher returns the window around the sentence with the highest score,
    the earliest such sentence when several share it: the score is that
    sentence's, no score is higher and every earlier one is lower; the
    result carries the url it was given, the centre sentence, the text of
    its window and the bounds of the window. *)
Theorem best_match_is_most_similar
    (split : pystr -> list pystr) (model : Type)
    (get_sentence_model : result model)
    (similarities : model -> pystr -> list pystr -> result (list Q))
    (m : model) (quote_text snippet url : pystr) (nb na : Z) (sims : list Q) :
  get_sentence_model = Ok m ->
  truthy snippet = true ->
  split snippet <> [] ->
  similarities m (quote_span split quote_text nb na)
    (window_texts (split snippet) nb na) = Ok sims ->
  List.length sims = List.length (split snippet) ->
  exists r i,
    find_best_match_span_in_snippet split model get_sentence_model similarities
      quote_text (Some snippet) url nb na = Ok (Some r)
    /\ sr_url r = url
    /\ nth_error sims i = Some (sr_best_score r)
    /\ (forall j x, nth_error sims j = Some x -> (x <= sr_best_score r)%Q)
    /\ (forall j x, (j < i)%nat -> nth_error sims j = Some x ->
          (x < sr_best_score r)%Q)
    /\ nth_error (split snippet) i = Some (sr_best_sentence r)
    /\ sr_span_text r = window_text (split snippet) nb na i
    /\ sr_span_start_idx r = Z.max 0 (Z.of_nat i - nb)
    /\ sr_span_end_idx r
       = Z.min (Z.of_nat (List.length (split snippet)) - 1) (Z.of_nat i + na).
Proof.
  intros Hm Ht Hs Hsim Hlen.
  rewrite (matcher_unfold _ _ _ _ _ _ _ nb na Ht Hs), Hm. cbn [bind].
  rewrite Hsim. cbn [bind].
  assert (Hne : sims <> []).
  { intros ->. destruct (split snippet); [contradiction | discriminate]. }
  destruct (argmax_spec sims Hne) as (i & top & Ha & Hi & Hmax & Hfirst).
  rewrite Ha. cbn [bind]. rewrite (index_nth _ _ _ Hi). cbn [bind].
  assert (Hlt : (i < List.length (split snippet))%nat).
  { rewrite <- Hlen. apply nth_error_Some. congruence. }
  destruct (nth_error (split snippet) i) as [sentence|] eqn:En;
    [|apply nth_error_None in En; lia].
  erewrite index_nth.
  2:{ apply map_nth_error. rewrite nth_error_nth' with (d := 0%nat).
      - now rewrite seq_nth.
      - now rewrite length_seq. }
  cbn [bind]. rewrite (index_nth _ _ _ En). cbn [bind].
  eexists. exists i. split; [reflexivity|]. cbn.
  repeat split; try assumption; try reflexivity.
Qed.

Lemma best_match_is_most_similar_witness :
  exists r i,
    match_by_length (str "any quote")
      (Some (str "Short one.A much longer second sentence.Mid size")) (str "u") 0 0
    = Ok (Some r)
    /\ sr_url r = str "u"
    /\ nth_error [9; 29; 8]%Q i = Some (sr_best_score r)
    /\ (forall j x, nth_error [9; 29; 8]%Q j = Some x -> (x <= sr_best_score r)%Q)
    /\ (forall j x, (j < i)%nat -> nth_error [9; 29; 8]%Q j = Some x ->
          (x < sr_best_score r)%Q)
    /\ nth_error
         (split_at_stops (str "Short one.A much longer second sentence.Mid size")) i
       = Some (sr_best_sentence r)
    /\ sr_span_text r
       = window_text
           (split_at_stops (str "Short one.A much longer second sentence.Mid size"))
           0 0 i
    /\ sr_span_start_idx r = Z.max 0 (Z.of_nat i - 0)
    /\ sr_span_end_idx r
       = Z.min (Z.of_nat (List.length
                  (split_at_stops
                     (str "Short one.A much longer second sentence.Mid size"))) - 1)
               (Z.of_nat i + 0).
Proof.
  apply (best_match_is_most_similar split_at_stops unit (Ok tt) length_similarity tt
           (str "any quote")
           (str "Short one.A much longer second sentence.Mid size") (str "u") 0 0
           [9; 29; 8]%Q);
    try reflexivity. vm_compute. discriminate.
Defined.

(** X18.  What the snippet matcher answers without a best span: nothing
    for a missing or empty snippet and for a snippet without sentences, in
    both cases without loading the model; nothing when the model's scores
    cannot be computed; an empty score tensor also gives nothing; and an
    error of loading the model on a snippet with sentences is raised to the
    caller. *)
Theorem best_match_failures
    (split : pystr -> list pystr) (model : Type)
    (get_sentence_model : result model)
    (similarities : model -> pystr -> list pystr -> result (list Q))
    (quote_text url : pystr) (nb na : Z) :
  let matcher := find_best_match_span_in_snippet split model get_sentence_model
                   similarities quote_text in
  matcher None url nb na = Ok None
  /\ matcher (Some []) url nb na = Ok None
  /\ (forall snippet, split snippet = [] -> matcher (Some snippet) url nb na = Ok None)
  /\ (forall snippet m e,
        truthy snippet = true -> split snippet <> [] ->
        get_sentence_model = Ok m ->
        similarities m (quote_span split quote_text nb na)
          (window_texts (split snippet) nb na) = Raise e ->
        matcher (Some snippet) url nb na = Ok None)
  /\ (forall snippet m,
        truthy snippet = true -> split snippet <> [] ->
        get_sentence_model = Ok m ->
        similarities m (quote_span split quote_text nb na)
          (window_texts (split snippet) nb na) = Ok [] ->
        matcher (Some snippet) url nb na = Ok None)
  /\ (forall snippet e,
        truthy snippet = true -> split snippet <> [] ->
        get_sentence_model = Raise e ->
        matcher (Some snippet) url nb na = Raise e).
Proof.
  intros matcher. unfold matcher.
  split; [reflexivity|]. split; [reflexivity|]. split; [|split; [|split]].
  - intros snippet Hs. now apply matcher_no_sentences.
  - intros snippet m e Ht Hs Hm Hsim.
    rewrite (matcher_unfold _ _ _ _ _ _ _ nb na Ht Hs), Hm. cbn [bind].
    now rewrite Hsim.
  - intros snippet m Ht Hs Hm Hsim.
    rewrite (matcher_unfold _ _ _ _ _ _ _ nb na Ht Hs), Hm. cbn [bind].
    now rewrite Hsim.
  - intros snippet e Ht Hs Hm.
    now rewrite (matcher_unfold _ _ _ _ _ _ _ nb na Ht Hs), Hm.
Qed.

(** X19.  With the sentence splitter of the module, a snippet of fewer than
    20 characters is never matched, whatever the model does, and a quote of
    fewer than 20 characters is compared as a whole. *)
Theorem short_texts_have_no_sentences
    (model : Type) (get_sentence_model : result model)
    (similarities : model -> pystr -> list pystr -> result (list Q))
    (quote_text snippet url : pystr) (nb na : Z) :
  (len snippet < 20 ->
   find_best_match_span_in_snippet split_en model get_sentence_model similarities
     quote_text (Some snippet) url nb na = Ok None)
  /\ (len quote_text < 20 -> quote_span split_en quote_text nb na = quote_text).
Proof.
  assert (S : forall t, len t < 20 -> split_en t = []).
  { intros t Ht. unfold split_en.
    now apply (split_into_sentences_short (Some t) (Some false)). }
  split; intros H.
  - now apply matcher_no_sentences, S.
  - unfold quote_span. now rewrite (S _ H).
Qed.

(** ** find_best_span_from_candidates_debug: ties *)

Lemma sorted_desc_nil (l : list span_res) : sorted_desc l = [] -> l = [].
Proof.
  intros H. pose proof (sorted_desc_perm l) as P. rewrite H in P.
  now apply Permutation_sym, Permutation_nil in P.
Qed.

(** The head of the sorted list is the first result with the highest
    score. *)
Lemma sorted_desc_head (l : list span_res) (b : span_res) (rest : list span_res) :
  sorted_desc l = b :: rest ->
  exists pre post,
    l = pre ++ b :: post
    /\ Forall (fun r => (sr_best_score r < sr_best_score b)%Q) pre
    /\ Forall (fun r => (sr_best_score r <= sr_best_score b)%Q) post.
Proof.
  revert b rest. induction l as [|x l IH]; intros b rest H; [discriminate|].
  change (sorted_desc (x :: l)) with (insert_desc x (sorted_desc l)) in H.
  destruct (sorted_desc l) as [|y r] eqn:E.
  - apply sorted_desc_nil in E. subst l. simpl in H. injection H as <- <-.
    exists [], []. repeat split; constructor.
  - destruct (IH y r eq_refl) as (pre & post & Hl & Hpre & Hpost).
    cbn [insert_desc] in H.
    destruct (Qle_bool (sr_best_score y) (sr_best_score x)) eqn:Ele.
    + injection H as <- <-. apply Qle_bool_iff in Ele.
      exists [], l. split; [reflexivity|]. split; [constructor|].
      subst l. apply Forall_app. split.
      * eapply Forall_impl; [|exact Hpre]. intros a Ha. simpl in Ha.
        apply Qlt_le_weak. eapply Qlt_le_trans; [exact Ha | exact Ele].
      * constructor; [exact Ele|].
        eapply Forall_impl; [|exact Hpost]. intros a Ha. simpl in Ha.
        eapply Qle_trans; [exact Ha | exact Ele].
    + injection H as <- <-.
      assert (Hlt : (sr_best_score x < sr_best_score y)%Q).
      { apply Qnot_le_lt. intros Hle. apply Qle_bool_iff in Hle. congruence. }
      exists (x :: pre), post. subst l. split; [reflexivity|].
      split; [constructor; assumption | assumption].
Qed.

(** The sort is stable: results with the same score keep their order. *)
Lemma sorted_desc_stable (q : Q) (l : list span_res) :
  filter (fun r => Qeq_bool (sr_best_score r) q) (sorted_desc l)
  = filter (fun r => Qeq_bool (sr_best_score r) q) l.
Proof.
  assert (I : forall x s,
             filter (fun r => Qeq_bool (sr_best_score r) q) (insert_desc x s)
             = filter (fun r => Qeq_bool (sr_best_score r) q) (x :: s)).
  { intros x s. induction s as [|y s IH]; [reflexivity|].
    cbn [insert_desc].
    destruct (Qle_bool (sr_best_score y) (sr_best_score x)) eqn:Ele;
      [reflexivity|].
    cbn [filter] in IH |- *. rewrite IH.
    destruct (Qeq_bool (sr_best_score x) q) eqn:Ex; [|reflexivity].
    destruct (Qeq_bool (sr_best_score y) q) eqn:Ey; [|reflexivity].
    exfalso. apply Qeq_bool_iff in Ex, Ey.
    assert (Hle : (sr_best_score y <= sr_best_score x)%Q) by (rewrite Ex, Ey; apply Qle_refl).
    apply Qle_bool_iff in Hle. congruence. }
  induction l as [|x l IH]; [reflexivity|].
  change (sorted_desc (x :: l)) with (insert_desc x (sorted_desc l)).
  rewrite I. cbn [filter]. now rewrite IH.
Qed.

(** X20.  Among the kept results, [find_best_span_from_candidates_debug]
    answers with the first one, in candidate order, that has the highest
    score: every kept result before it scores lower and none after it scores
    higher; and in the ranked list results with the same score keep the
    order of their candidates. *)
Theorem best_span_ties_keep_candidate_order
    (match_snippet : pystr -> option pystr -> pystr -> Z -> Z -> result (option span_res))
    (quote_en : pystr) (candidates : list candidate) (num_before num_after : Z)
    (min_score : Q) (bg : best_global) :
  find_best_span_from_candidates_debug match_snippet quote_en candidates
    num_before num_after min_score = Some bg ->
  let kept := global_candidates match_snippet quote_en candidates
                num_before num_after min_score in
  (exists pre post,
      kept = pre ++ bg_best bg :: post
      /\ Forall (fun r => (sr_best_score r < sr_best_score (bg_best bg))%Q) pre
      /\ Forall (fun r => (sr_best_score r <= sr_best_score (bg_best bg))%Q) post)
  /\ (forall q,
        filter (fun r => Qeq_bool (sr_best_score r) q) (bg_top_k_candidates bg)
        = filter (fun r => Qeq_bool (sr_best_score r) q) kept).
Proof.
  intros H kept. unfold find_best_span_from_candidates_debug in H.
  fold kept in H. cbv zeta in H.
  destruct (sorted_desc kept) as [|b rest] eqn:E; [discriminate|].
  injection H as <-. cbn [bg_best bg_top_k_candidates]. split.
  - exact (sorted_desc_head _ _ _ E).
  - intros q. rewrite <- E. apply sorted_desc_stable.
Qed.

Lemma best_span_ties_keep_candidate_order_witness :
  let match_one := fun (_ : pystr) (snippet : option pystr) (url : pystr) (_ _ : Z) =>
                     Ok (Some (mk_span_res url (str "s")
                                 (if PyStr.eqb url (str "a") then 3 # 10 else 9 # 10)
                                 (str "s") 0 0)) in
  let cands := [mk_candidate (Some (str "a")) (Some (str "x"));
                mk_candidate (Some (str "b")) (Some (str "y"));
                mk_candidate (Some (str "c")) (Some (str "z"))] in
  exists bg,
    find_best_span_from_candidates_debug match_one (str "quote") cands 1 1 (1 # 10)
    = Some bg
    /\ sr_url (bg_best bg) = str "b"
    /\ map sr_url (filter (fun r => Qeq_bool (sr_best_score r) (9 # 10))
                     (bg_top_k_candidates bg)) = [str "b"; str "c"].
Proof.
  intros match_one cands. eexists. split; [reflexivity|].
  set (bg := mk_best_global _ _). split; [reflexivity|].
  destruct (best_span_ties_keep_candidate_order match_one (str "quote") cands
              1 1 (1 # 10) bg eq_refl) as [_ H].
  rewrite H. reflexivity.
Defined.

(** ** generate_search_query *)

Import QueryGen.

Lemma split_ws_aux_space (a b cur : pystr) :
  split_ws_aux cur (a ++ 32%N :: b) = split_ws_aux cur a ++ split_ws b.
Proof.
  revert cur. induction a as [|c a IH]; intros cur.
  - cbn [app split_ws_aux]. change (isspace 32) with true. cbv iota.
    destruct cur; reflexivity.
  - cbn [app split_ws_aux]. destruct (isspace c).
    + destruct cur; [apply IH|]. rewrite IH. reflexivity.
    + apply IH.
Qed.

(** The words of parts joined by spaces are the words of the parts. *)
Lemma split_ws_join_parts (parts : list pystr) :
  split_ws (join (str " ") parts) = flat_map split_ws parts.
Proof.
  induction parts as [|p parts IH]; [reflexivity|].
  destruct parts as [|p' parts].
  - cbn [join flat_map]. now rewrite app_nil_r.
  - rewrite join_cons by discriminate.
    change (str " " ++ join (str " ") (p' :: parts))
      with (32%N :: join (str " ") (p' :: parts)).
    unfold split_ws at 1. rewrite split_ws_aux_space.
    change (flat_map split_ws (p :: p' :: parts))
      with (split_ws p ++ flat_map split_ws (p' :: parts)).
    now rewrite <- IH.
Qed.

Lemma single_spaced_collapse (s : pystr) (b : bool) :
  single_spaced s = true ->
  b = false \/ (forall c, hd_error s = Some c -> isspace c = false) ->
  collapse_ws b s = s.
Proof.
  revert b. induction s as [|c s IH]; intros b Hs Hb; [reflexivity|].
  cbn [single_spaced] in Hs. apply andb_true_iff in Hs as [Hc Hs].
  cbn [collapse_ws]. destruct (isspace c) eqn:E.
  - apply andb_true_iff in Hc as [Hc Hd]. apply N.eqb_eq in Hc. subst c.
    destruct Hb as [-> | Hb]; [|specialize (Hb _ eq_refl); congruence].
    f_equal. apply IH; [exact Hs|]. right. intros d Hd'.
    destruct s as [|d' s]; [discriminate|]. injection Hd' as ->.
    now apply negb_true_iff in Hd.
  - f_equal. apply IH; [exact Hs | now left].
Qed.

(** Words joined by single spaces are already stripped. *)
Lemma strip_join_words (ws : list pystr) :
  Forall (fun w => is_a_word w = true) ws ->
  strip (join (str " ") ws) = join (str " ") ws.
Proof.
  intros H.
  rewrite <- (single_spaced_collapse (join (str " ") ws) false) at 1;
    [|now apply single_spaced_join | now left].
  change (strip (collapse_ws false (join (str " ") ws)))
    with (clean_text (Some (join (str " ") ws))).
  rewrite clean_text_join_split. now rewrite split_ws_join.
Qed.

Lemma join_words_truthy (ws : list pystr) :
  Forall (fun w => is_a_word w = true) ws ->
  truthy (join (str " ") ws) = match ws with [] => false | _ => true end.
Proof.
  intros H. destruct ws as [|w ws]; [reflexivity|].
  destruct (join_words_nonempty (w :: ws)) as (c & r & E & _);
    [discriminate | exact H |].
  now rewrite E.
Qed.

Lemma dedupe_length (normalize : pystr -> pystr) (seq : list pystr) :
  (List.length (dedupe_with normalize seq) <= List.length seq)%nat.
Proof.
  induction seq as [|item pre IH] using rev_ind; [simpl; lia|].
  rewrite dedupe_snoc, !length_app.
  destruct (first_seen normalize pre item); simpl; lia.
Qed.

Lemma truthy_nonempty (s : pystr) : truthy s = true <-> s <> [].
Proof. destruct s; simpl; split; congruence. Qed.

Lemma is_a_word_truthy (w : pystr) : is_a_word w = true -> truthy w = true.
Proof. unfold is_a_word. now intros H%andb_true_iff. Qed.

Lemma get_words_listed (key w : pystr) (ebt : by_type) :
  In w (get_words key ebt) -> KeywordSpec.listed ebt key w.
Proof.
  unfold get_words. intros H.
  destruct (find (fun kv => PyStr.eqb (fst kv) key) ebt) as [[k ws]|] eqn:E;
    [|contradiction].
  apply find_some in E as [Hin Hk]. apply pystr_eqb_eq in Hk. simpl in Hk. subst k.
  now exists ws.
Qed.

Section QueryFacts.
Variable is_word : N -> bool.
Variable lower : pystr -> pystr.
Variable resolve_person_name_en : pystr -> result pystr.
Variable translate_ko_to_en : pystr -> result pystr.

Local Abbreviation norm := (_normalize_token is_word lower).
Local Abbreviation dedupe := (_dedupe_preserve is_word lower).
Local Abbreviation query :=
  (generate_search_query is_word lower resolve_person_name_en translate_ko_to_en).

(** The words of the Korean query. *)
Let ko_words (speaker_ko : pystr) (ebt : by_type) (quote_sentence : option pystr)
  : list pystr :=
  dedupe (split_ws (join (str " ")
            (query_ko_parts is_word lower speaker_ko ebt quote_sentence))).

(** The tokens of the English query before the quote. *)
Let en_tokens (name : pystr) (ebt : by_type) : list pystr :=
  dedupe (name :: flat_map (loc_en_tokens translate_ko_to_en)
                    (loc_list is_word lower ebt)).

Lemma ko_words_are_words (speaker_ko : pystr) (ebt : by_type)
    (quote_sentence : option pystr) :
  Forall (fun w => is_a_word w = true) (ko_words speaker_ko ebt quote_sentence).
Proof.
  apply Forall_forall. intros w Hw. unfold ko_words, _dedupe_preserve in Hw.
  apply dedupe_In in Hw as (Hw & _).
  exact (proj1 (Forall_forall _ _) (split_ws_words _) _ Hw).
Qed.

Lemma query_with_speaker (ebt : by_type) (quote_sentence article_date : option pystr)
    (use_wikidata : bool) (speaker_ko : pystr) (rest : list pystr) (name : pystr) :
  get_words (str "PER") ebt = speaker_ko :: rest ->
  speaker_en resolve_person_name_en translate_ko_to_en use_wikidata speaker_ko
  = Ok name ->
  query ebt quote_sentence article_date use_wikidata
  = Ok (or_none (join (str " ") (ko_words speaker_ko ebt quote_sentence)),
        or_none (strip (join (str " ")
                   (en_tokens name ebt
                    ++ match quote_en_full translate_ko_to_en quote_sentence with
                       | Some t => if_truthy t
                       | None => []
                       end)))).
Proof.
  intros Hper Hname. unfold generate_search_query. rewrite Hper, Hname.
  cbn [bind]. cbv zeta. fold (ko_words speaker_ko ebt quote_sentence).
  now rewrite (strip_join_words _ (ko_words_are_words _ _ _)).
Qed.

Lemma query_without_speaker (ebt : by_type) (quote_sentence article_date : option pystr)
    (use_wikidata : bool) :
  get_words (str "PER") ebt = [] ->
  query ebt quote_sentence article_date use_wikidata = Ok (None, None).
Proof. intros H. unfold generate_search_query. now rewrite H. Qed.

Lemma query_resolver_raises (ebt : by_type) (quote_sentence article_date : option pystr)
    (speaker_ko : pystr) (rest : list pystr) (e : exn) :
  get_words (str "PER") ebt = speaker_ko :: rest ->
  resolve_person_name_en speaker_ko = Raise e ->
  query ebt quote_sentence article_date true = Raise e.
Proof.
  intros Hper He. unfold generate_search_query, speaker_en. now rewrite Hper, He.
Qed.

Lemma ko_word_origin (speaker_ko : pystr) (ebt : by_type)
    (quote_sentence : option pystr) (w : pystr) :
  In w (ko_words speaker_ko ebt quote_sentence) ->
  norm w <> []
  /\ (In w (split_ws speaker_ko)
      \/ (exists loc, In loc (firstn 2 (get_words (str "LOC") ebt))
                      /\ In w (split_ws loc))
      \/ (exists q, quote_sentence = Some q /\ In w (split_ws q))).
Proof.
  intros Hw. unfold ko_words, _dedupe_preserve in Hw.
  apply dedupe_In in Hw as (Hw & _ & Hn). split; [now apply truthy_nonempty|].
  rewrite split_ws_join_parts in Hw. apply in_flat_map in Hw as (p & Hp & Hw).
  unfold query_ko_parts in Hp. apply in_app_iff in Hp as [[<- | []] | Hp];
    [now left|].
  apply in_app_iff in Hp as [Hp | Hp].
  - right; left. unfold if_truthy in Hp.
    destruct (truthy _); [|contradiction]. destruct Hp as [<- | []].
    rewrite split_ws_join_parts in Hw. apply in_flat_map in Hw as (loc & Hloc & Hw).
    unfold loc_list, _dedupe_preserve in Hloc. apply dedupe_In in Hloc as (Hloc & _).
    now exists loc.
  - right; right. unfold given in Hp. destruct quote_sentence as [q|]; [|contradiction].
    unfold if_truthy in Hp. destruct (truthy q); [|contradiction].
    destruct Hp as [<- | []]. now exists q.
Qed.

Lemma ko_word_represented (speaker_ko : pystr) (ebt : by_type)
    (quote_sentence : option pystr) (w : pystr) :
  In w (split_ws speaker_ko)
  \/ (exists q, quote_sentence = Some q /\ In w (split_ws q)) ->
  norm w <> [] ->
  exists y, In y (ko_words speaker_ko ebt quote_sentence) /\ norm y = norm w.
Proof.
  intros Hw Hn. unfold ko_words, _dedupe_preserve.
  assert (Hin : In w (split_ws (join (str " ")
                        (query_ko_parts is_word lower speaker_ko ebt quote_sentence)))).
  { rewrite split_ws_join_parts. apply in_flat_map. unfold query_ko_parts.
    destruct Hw as [Hw | (q & -> & Hw)].
    - exists speaker_ko. split; [now left | exact Hw].
    - exists q. split; [|exact Hw]. apply in_app_iff. right.
      apply in_app_iff. right. unfold given, if_truthy.
      destruct q; [contradiction | now left]. }
  apply dedupe_represents; [exact Hin | | now apply truthy_nonempty].
  apply is_a_word_truthy.
  exact (proj1 (Forall_forall _ _) (split_ws_words _) _ Hin).
Qed.

Lemma en_tokens_bound (name : pystr) (ebt : by_type) :
  (List.length (en_tokens name ebt) <= 3)%nat
  /\ NoDup (map norm (en_tokens name ebt)).
Proof.
  split; [|apply dedupe_distinct].
  unfold en_tokens, _dedupe_preserve.
  etransitivity; [apply dedupe_length|]. cbn [List.length].
  assert (H1 : forall l, (List.length (flat_map (loc_en_tokens translate_ko_to_en) l)
                          <= List.length l)%nat).
  { induction l as [|x l IH]; [reflexivity|]. cbn [flat_map].
    rewrite length_app. unfold loc_en_tokens at 1, if_truthy.
    destruct (translate_ko_to_en x); [destruct (truthy _)|]; simpl; lia. }
  specialize (H1 (loc_list is_word lower ebt)).
  assert (H2 : (List.length (loc_list is_word lower ebt) <= 2)%nat).
  { unfold loc_list, _dedupe_preserve. etransitivity; [apply dedupe_length|].
    rewrite length_firstn. lia. }
  lia.
Qed.

End QueryFacts.

(** X21.  When [generate_search_query] returns a Korean query, the query is
    its own whitespace-separated words joined by single spaces; no two of
    the words have the same normalized form; every word has a non-empty
    normalized form and is a word of the speaker, of one of the first two
    locations or of the quote; and every word of the speaker and of the
    quote with a non-empty normalized form is represented by a word of the
    query with the same normalized form.  Without a Korean query no word of
    the speaker or of the quote has a non-empty normalized form. *)
Theorem korean_query_words
    (is_word : N -> bool) (lower : pystr -> pystr)
    (resolve_person_name_en translate_ko_to_en : pystr -> result pystr)
    (ebt : by_type) (quote_sentence article_date : option pystr)
    (use_wikidata : bool) (speaker_ko : pystr) (rest : list pystr)
    (ko en : option pystr) :
  get_words (str "PER") ebt = speaker_ko :: rest ->
  generate_search_query is_word lower resolve_person_name_en translate_ko_to_en
    ebt quote_sentence article_date use_wikidata = Ok (ko, en) ->
  let norm := _normalize_token is_word lower in
  let words := match ko with Some q => split_ws q | None => [] end in
  (forall q, ko = Some q -> q <> [] /\ q = join (str " ") words)
  /\ NoDup (map norm words)
  /\ (forall w, In w words ->
        norm w <> []
        /\ (In w (split_ws speaker_ko)
            \/ (exists loc, In loc (firstn 2 (get_words (str "LOC") ebt))
                            /\ In w (split_ws loc))
            \/ (exists q, quote_sentence = Some q /\ In w (split_ws q))))
  /\ (forall w,
        In w (split_ws speaker_ko)
        \/ (exists q, quote_sentence = Some q /\ In w (split_ws q)) ->
        norm w <> [] -> exists y, In y words /\ norm y = norm w).
Proof.
  intros Hper Hq norm words.
  destruct (speaker_en resolve_person_name_en translate_ko_to_en use_wikidata
              speaker_ko) as [name|e] eqn:Hname.
  2:{ unfold generate_search_query in Hq. rewrite Hper, Hname in Hq. discriminate. }
  rewrite (query_with_speaker _ _ _ _ _ _ _ _ _ _ name Hper Hname) in Hq.
  pose proof (ko_words_are_words is_word lower speaker_ko ebt quote_sentence) as Hw.
  pose proof (ko_word_origin is_word lower speaker_ko ebt quote_sentence) as Ho.
  pose proof (ko_word_represented is_word lower speaker_ko ebt quote_sentence) as Hr.
  set (W := _dedupe_preserve is_word lower
              (split_ws (join (str " ")
                 (query_ko_parts is_word lower speaker_ko ebt quote_sentence)))) in *.
  assert (Hko : or_none (join (str " ") W) = ko).
  { injection Hq as H1 _. exact H1. }
  clear Hq.
  assert (Ew : words = W).
  { unfold words. rewrite <- Hko. unfold or_none.
    rewrite (join_words_truthy _ Hw). destruct W as [|x W'] eqn:EW; [reflexivity|].
    rewrite <- EW in *. now apply split_ws_join. }
  rewrite Ew. split; [|split; [|split]].
  - intros q Eq. rewrite <- Hko in Eq. unfold or_none in Eq.
    destruct (truthy (join (str " ") W)) eqn:T; [|discriminate].
    injection Eq as <-. split; [now apply truthy_nonempty | reflexivity].
  - apply dedupe_distinct.
  - exact Ho.
  - exact Hr.
Qed.

Lemma korean_query_words_witness :
  let ebt := [(str "PER", [str "Kim Kim"]); (str "LOC", [str "Seoul"; str "seoul"])] in
  exists ko en,
    generate_search_query basic_is_word ascii_lower (fun s => Ok s) (fun s => Ok s)
      ebt (Some (str "kim said")) None false = Ok (ko, en)
    /\ ko = Some (str "Kim Seoul said")
    /\ NoDup (map (_normalize_token basic_is_word ascii_lower)
                (match ko with Some q => split_ws q | None => [] end)).
Proof.
  intros ebt. eexists. eexists. split; [reflexivity|]. split; [reflexivity|].
  exact (proj1 (proj2 (korean_query_words basic_is_word ascii_lower
                         (fun s => Ok s) (fun s => Ok s) ebt
                         (Some (str "kim said")) None false (str "Kim Kim") []
                         _ _ eq_refl eq_refl))).
Defined.

(** X22.  [generate_search_query] returns no query at all when no person is
    listed.  With a speaker, a failing translation never makes it fail: only
    an error of the name resolver is raised to the caller, and it returns
    otherwise; the English query then holds at most three tokens before the
    translated quote, no two of them with the same normalized form. *)
Theorem query_builder_outcomes
    (is_word : N -> bool) (lower : pystr -> pystr)
    (resolve_person_name_en translate_ko_to_en : pystr -> result pystr)
    (ebt : by_type) (quote_sentence article_date : option pystr) :
  let query := generate_search_query is_word lower resolve_person_name_en
                 translate_ko_to_en ebt quote_sentence article_date in
  let quote_part := match quote_en_full translate_ko_to_en quote_sentence with
                    | Some t => if_truthy t
                    | None => []
                    end in
  let returns (use_wikidata : bool) :=
    exists ko tokens,
      query use_wikidata
      = Ok (ko, or_none (strip (join (str " ") (tokens ++ quote_part))))
      /\ (List.length tokens <= 3)%nat
      /\ NoDup (map (_normalize_token is_word lower) tokens) in
  (get_words (str "PER") ebt = [] ->
   forall use_wikidata, query use_wikidata = Ok (None, None))
  /\ (forall speaker_ko rest,
        get_words (str "PER") ebt = speaker_ko :: rest ->
        returns false
        /\ (forall name, resolve_person_name_en speaker_ko = Ok name -> returns true)
        /\ (forall e, resolve_person_name_en speaker_ko = Raise e ->
              query true = Raise e)).
Proof.
  intros query quote_part returns. split.
  - intros H use_wikidata. now apply query_without_speaker.
  - intros speaker_ko rest Hper.
    assert (R : forall use_wikidata name,
               speaker_en resolve_person_name_en translate_ko_to_en use_wikidata
                 speaker_ko = Ok name -> returns use_wikidata).
    { intros use_wikidata name Hname. unfold returns, query.
      rewrite (query_with_speaker _ _ _ _ _ _ _ _ _ _ name Hper Hname).
      eexists. eexists. split; [reflexivity|].
      apply en_tokens_bound. }
    split; [|split].
    + eapply R. reflexivity.
    + intros name Hname. apply (R true name). exact Hname.
    + intros e He. unfold query.
      exact (query_resolver_raises is_word lower resolve_person_name_en
               translate_ko_to_en ebt quote_sentence article_date speaker_ko rest e
               Hper He).
Qed.

(** ** The endpoint on top of the pipeline *)

Lemma pipeline_outcome_response (env : collaborators) (request : QuoteRequest)
    (text : pystr) :
  article_text request = Some text -> truthy text = true ->
  truthy (quote_content request) = true ->
  len (strip (quote_content request)) <> 0 ->
  (forall e,
     BackendApi.build_queries_from_text env text (quote_content request)
       (article_date request) (debug request) = Raise e ->
     exists dbg,
       find_quote_origin env request
       = Ok (mk_response (quote_id request) (quote_content request) [] None
               (Some (str "Pipeline failed: " ++ exn_msg e)) dbg))
  /\ (forall ebt,
        BackendApi.build_queries_from_text env text (quote_content request)
          (article_date request) (debug request)
        = Ok (mk_pipeline_result ebt None None) ->
        exists dbg,
          find_quote_origin env request
          = Ok (mk_response (quote_id request) (quote_content request) [] None
                  (Some (str "Could not generate search query")) dbg)).
Proof.
  intros Ht Tt Tq Hs.
  unfold find_quote_origin, find_quote_origin_try.
  rewrite Ht, Tt, Tq. cbn [negb orb].
  destruct (len (strip (quote_content request)) =? 0) eqn:E;
    [apply Z.eqb_eq in E; contradiction|].
  split.
  - intros e ->. simpl. rewrite error_response_ok. eauto.
  - intros ebt ->. simpl. rewrite error_response_ok. eauto.
Qed.

Import Wired.

(** The queries of the pipeline when the translator raises on the quote:
    the English one is the query that is built without any quote. *)
Lemma queries_without_translated_quote
    (is_word : N -> bool) (lower : pystr -> pystr)
    (resolve translate : pystr -> result pystr) (ebt : by_type)
    (quote : pystr) (article_date : option pystr) (e : exn) :
  (forall name, exists en, resolve name = Ok en) ->
  translate quote = Raise e ->
  exists ko en ko',
    generate_search_query is_word lower resolve translate ebt (Some quote)
      article_date true = Ok (ko, en)
    /\ generate_search_query is_word lower resolve translate ebt None
         article_date true = Ok (ko', en).
Proof.
  intros Hres Htr. unfold generate_search_query.
  destruct (get_words (str "PER") ebt) as [|speaker_ko rest].
  - exists None, None, None. split; reflexivity.
  - cbn [speaker_en]. destruct (Hres speaker_ko) as [name ->]. cbn [bind].
    assert (Eq : quote_en_full translate (Some quote) = None).
    { unfold quote_en_full, given, if_truthy.
      destruct (truthy quote); [now rewrite Htr | reflexivity]. }
    rewrite Eq. cbn [quote_en_full given].
    eexists. eexists. eexists. split; reflexivity.
Qed.

(** X3.  With the pipeline and the name resolver of the module behind the
    endpoint, all calling the one translator: when the translator raises on
    the quote, the pipeline still returns its queries, the English one being
    the query it builds without any quote, and the endpoint answers as it
    does with those queries and a translator that returns the quote
    unchanged: the spans are matched and scored against the Korean quote. *)
Theorem translation_failure_falls_back (env : collaborators)
    (request : QuoteRequest) (is_word : N -> bool) (lower : pystr -> pystr)
    (enum : list pystr -> list pystr) (ner : pystr -> list token)
    (lexicon : list (pystr * pystr))
    (wikidata : pystr -> Z -> result (option pystr)) (text : pystr) (e : exn) :
  article_text request = Some text ->
  translate_ko_to_en env (quote_content request) = Raise e ->
  let wired := with_module_pipeline env is_word lower enum ner lexicon wikidata in
  let entities_by_type := snd (Pipeline.extraction lower enum ner text) in
  let queries quote :=
    generate_search_query is_word lower
      (module_resolver lexicon wikidata (translate_ko_to_en env))
      (translate_ko_to_en env) entities_by_type quote (article_date request) true in
  exists ko en ko',
    queries (Some (quote_content request)) = Ok (ko, en)
    /\ queries None = Ok (ko', en)
    /\ BackendApi.build_queries_from_text wired text (quote_content request)
         (article_date request) (debug request)
       = Ok (mk_pipeline_result entities_by_type ko en)
    /\ find_quote_origin wired request
       = find_quote_origin (with_queries env entities_by_type ko en) request.
Proof.
  intros Ht Htr wired entities_by_type queries.
  destruct (queries_without_translated_quote is_word lower
              (module_resolver lexicon wikidata (translate_ko_to_en env))
              (translate_ko_to_en env) entities_by_type (quote_content request)
              (article_date request) e) as (ko & en & ko' & H1 & H2);
    [intros name; eexists; reflexivity | exact Htr |].
  assert (Hp : BackendApi.build_queries_from_text wired text (quote_content request)
                 (article_date request) (debug request)
               = Ok (mk_pipeline_result entities_by_type ko en)).
  { unfold wired, with_module_pipeline, Pipeline.with_pipeline.
    cbn [BackendApi.build_queries_from_text BackendApi.translate_ko_to_en].
    unfold Pipeline.build_queries_from_text. fold entities_by_type.
    rewrite H1. reflexivity. }
  exists ko, en, ko'. split; [exact H1|]. split; [exact H2|]. split; [exact Hp|].
  assert (E : forall dbg0,
             find_quote_origin_try wired request dbg0
             = find_quote_origin_try (with_queries env entities_by_type ko en)
                 request dbg0); [|unfold find_quote_origin; now rewrite E].
  intros dbg0. unfold find_quote_origin_try. rewrite Ht.
  destruct (negb (truthy text)); [reflexivity|].
  destruct (negb (truthy (quote_content request)) || _); [reflexivity|].
  rewrite Hp.
  unfold with_queries at 1 2.
  cbn [BackendApi.build_queries_from_text BackendApi.translate_ko_to_en
       pr_entities_by_type pr_query_en pr_query_ko].
  replace (BackendApi.translate_ko_to_en wired (quote_content request))
    with (@Raise pystr e) by (symmetry; exact Htr).
  destruct (or_str en ko) as [query|]; [|reflexivity].
  destruct (negb (truthy query)); [reflexivity|].
  change (cse_search wired) with (cse_search env).
  change (cse_search (with_queries env entities_by_type ko en)) with (cse_search env).
  destruct (cse_search env query (debug request)) as [[[|item items]|]|err];
    reflexivity.
Qed.

Lemma translation_failure_falls_back_witness :
  let env := EndpointSpec.with_translate (example_env one_hit (9 # 10))
               (fails_on (str "quote")) in
  let wired := with_module_pipeline env basic_is_word ascii_lower (@rev pystr)
                 trump_alone [(str "Trump", str "Donald Trump")]
                 (fun _ _ => Ok None) in
  BackendApi.build_queries_from_text wired (str "article") (str "quote") None false
  = Ok (mk_pipeline_result [(str "PER", [str "Trump"])]
          (Some (str "Trump quote")) (Some (str "Donald Trump")))
  /\ exists r,
       find_quote_origin wired example_request = Ok r
       /\ r_error r = None
       /\ map original_span (r_candidates r) = [str "span"].
Proof.
  intros env wired.
  destruct (translation_failure_falls_back env example_request basic_is_word
              ascii_lower (@rev pystr) trump_alone
              [(str "Trump", str "Donald Trump")] (fun _ _ => Ok None)
              (str "article") (mk_exn RuntimeError (str "model not loaded"))
              eq_refl eq_refl)
    as (ko & en & ko' & H1 & _ & Hp & Hr).
  assert (E : ko = Some (str "Trump quote") /\ en = Some (str "Donald Trump")).
  { vm_compute in H1. injection H1 as <- <-. split; reflexivity. }
  destruct E as [-> ->]. split; [exact Hp|].
  fold wired in Hr. rewrite Hr. eexists. split; [reflexivity|].
  split; reflexivity.
Defined.

(** X23.  With the pipeline and the name resolver of the module behind the
    endpoint, and a request that passes validation: when every person entity
    found in the article has a normal form that is a strict substring of
    another entity's, in particular when no person is found, the endpoint
    answers "Could not generate search query" with no candidates; and when
    a person is listed whose name holds a word with a non-empty normalized
    form, the pipeline returns a query that is not empty and the endpoint
    goes on to the search with it. *)
Theorem no_speaker_no_search (env : collaborators) (request : QuoteRequest)
    (is_word : N -> bool) (lower : pystr -> pystr)
    (enum : list pystr -> list pystr) (ner : pystr -> list token)
    (lexicon : list (pystr * pystr))
    (wikidata : pystr -> Z -> result (option pystr)) (text : pystr) :
  (forall l, Permutation (enum l) l) ->
  article_text request = Some text -> truthy text = true ->
  truthy (quote_content request) = true ->
  len (strip (quote_content request)) <> 0 ->
  let wired := with_module_pipeline env is_word lower enum ner lexicon wikidata in
  let entities := fst (Pipeline.extraction lower enum ner text) in
  let entities_by_type := snd (Pipeline.extraction lower enum ner text) in
  ((forall word,
      In (mk_entity (str "PER") word) entities ->
      exists e, In e entities
                /\ strict_sub (normalize_korean_phrase lower word)
                     (normalize_korean_phrase lower (ent_word e)) = true) ->
   exists dbg,
     find_quote_origin wired request
     = Ok (mk_response (quote_id request) (quote_content request) [] None
             (Some (str "Could not generate search query")) dbg))
  /\ (forall speaker_ko rest w,
        get_words (str "PER") entities_by_type = speaker_ko :: rest ->
        In w (split_ws speaker_ko) ->
        _normalize_token is_word lower w <> [] ->
        exists query, EndpointSpec.reaches_search wired request query).
Proof.
  intros Henum Ht Tt Tq Hs wired entities entities_by_type.
  destruct (pipeline_outcome_response wired request text Ht Tt Tq Hs) as [_ Hnone].
  split.
  - intros Hper. apply (Hnone entities_by_type).
    unfold wired, with_module_pipeline, Pipeline.with_pipeline.
    cbn [BackendApi.build_queries_from_text].
    unfold Pipeline.build_queries_from_text. fold entities_by_type.
    rewrite query_without_speaker; [reflexivity|].
    destruct (get_words (str "PER") entities_by_type) as [|w ws] eqn:E;
      [reflexivity|]. exfalso.
    assert (Hl : KeywordSpec.listed entities_by_type (str "PER") w).
    { apply get_words_listed. rewrite E. now left. }
    unfold entities_by_type, Pipeline.extraction, extract_entities_only in Hl.
    cbn [snd] in Hl. unfold Keywords.entities_by_type in Hl.
    rewrite dedup_loop_is_containment in Hl by exact Henum.
    apply listed_iff_maximal in Hl as [Hin Hmax].
    destruct (Hper w Hin) as (e & He & Hsub).
    rewrite (Hmax e He) in Hsub. discriminate.
  - intros speaker_ko rest w Hper Hw Hn.
    set (resolve := module_resolver lexicon wikidata (BackendApi.translate_ko_to_en env)).
    set (name := NameResolution.resolve_person_name_en lexicon wikidata
                   (BackendApi.translate_ko_to_en env) (Some speaker_ko)).
    pose proof (query_with_speaker is_word lower resolve
                  (BackendApi.translate_ko_to_en env) entities_by_type
                  (Some (quote_content request)) (article_date request) true
                  speaker_ko rest name Hper eq_refl) as Hq.
    pose proof (ko_words_are_words is_word lower speaker_ko entities_by_type
                  (Some (quote_content request))) as Hwords.
    destruct (ko_word_represented is_word lower speaker_ko entities_by_type
                (Some (quote_content request)) w (or_introl Hw) Hn)
      as (y & Hy & _).
    set (W := _dedupe_preserve is_word lower
                (split_ws (join (str " ")
                   (query_ko_parts is_word lower speaker_ko entities_by_type
                      (Some (quote_content request)))))) in *.
    assert (Tko : truthy (join (str " ") W) = true).
    { rewrite (join_words_truthy _ Hwords). destruct W; [contradiction | reflexivity]. }
    match type of Hq with
    | _ = Ok (_, or_none ?X) => set (en := or_none X) in *
    end.
    unfold or_none in Hq at 1. rewrite Tko in Hq.
    assert (Hor : exists query,
               or_str en (Some (join (str " ") W)) = Some query
               /\ truthy query = true).
    { unfold en, or_none. match goal with |- context [truthy ?X] =>
        destruct (truthy X) eqn:T end.
      - eexists. cbn [or_str]. rewrite T. split; [reflexivity | exact T].
      - eexists. cbn [or_str]. split; [reflexivity | exact Tko]. }
    destruct Hor as (query & Hor & Tquery).
    exists query, text, (mk_pipeline_result entities_by_type
                           (Some (join (str " ") W)) en).
    split; [exact Ht|]. split; [exact Tt|]. split; [exact Tq|]. split; [exact Hs|].
    split; [|split; [exact Hor | exact Tquery]].
    unfold wired, with_module_pipeline, Pipeline.with_pipeline.
    cbn [BackendApi.build_queries_from_text].
    unfold Pipeline.build_queries_from_text. fold entities_by_type. fold resolve.
    rewrite Hq. reflexivity.
Qed.

Lemma no_speaker_no_search_witness :
  let wired ner := with_module_pipeline (example_env one_hit (7 # 10)) basic_is_word
                     ascii_lower (@rev pystr) ner [] (fun _ _ => Ok None) in
  fst (Pipeline.extraction ascii_lower (@rev pystr) kim_in_kimpo (str "article"))
  = [mk_entity (str "PER") (str "Kim"); mk_entity (str "LOC") (str "Kimpo")]
  /\ (exists dbg,
        find_quote_origin (wired kim_in_kimpo) example_request
        = Ok (mk_response (quote_id example_request) (quote_content example_request)
                [] None (Some (str "Could not generate search query")) dbg))
  /\ (exists query,
        EndpointSpec.reaches_search (wired trump_alone) example_request query).
Proof.
  intros wired. split; [reflexivity|]. split.
  - refine (proj1 (no_speaker_no_search (example_env one_hit (7 # 10)) example_request
                     basic_is_word ascii_lower (@rev pystr) kim_in_kimpo []
                     (fun _ _ => Ok None) (str "article")
                     (fun l => Permutation_sym (Permutation_rev l))
                     eq_refl eq_refl eq_refl _) _).
    + vm_compute. discriminate.
    + intros word H. vm_compute in H. destruct H as [H | [H | []]].
      * injection H as <-. exists (mk_entity (str "LOC") (str "Kimpo")).
        split; [vm_compute; right; left; reflexivity | reflexivity].
      * discriminate H.
  - refine (proj2 (no_speaker_no_search (example_env one_hit (7 # 10)) example_request
                     basic_is_word ascii_lower (@rev pystr) trump_alone []
                     (fun _ _ => Ok None) (str "article")
                     (fun l => Permutation_sym (Permutation_rev l))
                     eq_refl eq_refl eq_refl _)
              (str "Trump") [] (str "Trump") _ _ _).
    + vm_compute. discriminate.
    + reflexivity.
    + vm_compute. now left.
    + vm_compute. discriminate.
Defined.

(** ** collect_candidates_google_cse *)

Import Collector.

Lemma NoDup_append {A} (a b : list A) :
  NoDup a -> NoDup b -> (forall x, In x a -> ~ In x b) -> NoDup (a ++ b).
Proof.
  induction a as [|x a IH]; intros Ha Hb Hd; [exact Hb|].
  inversion Ha as [|? ? Hx Ha']; subst. cbn [app]. constructor.
  - intros H. apply in_app_iff in H as [H | H]; [contradiction|].
    apply (Hd x); [now left | exact H].
  - apply IH; [exact Ha' | exact Hb|]. intros y Hy. apply Hd. now right.
Qed.

Ltac split_ands := repeat match goal with |- _ /\ _ => split end.

Section CollectFacts.
Variable lower : pystr -> pystr.
Variable search_result : nat -> result (option (list item)).
Variable page : nat -> page_outcome.

Local Abbreviation items_of := (items_loop lower page).
Local Abbreviation pages_of := (pages_loop lower search_result page).
Local Abbreviation domains_of := (domains_loop lower search_result page).

(** What a loop has added: the block of new candidates, with the urls that
    were seen before and the pages fetched meanwhile. *)
Let added (site_filter : option pystr) (seen fetched : list pystr)
    (block : list cse_candidate) : Prop :=
  NoDup (map c_url block)
  /\ Forall (fun c => (forall s, site_filter = Some s ->
                         c_domain c = remove_sub (str "site:") 0 s)
                      /\ c_url c <> []
                      /\ ~ In (c_url c) seen
                      /\ In (c_url c) fetched) block.

Lemma added_nil (site_filter : option pystr) (seen fetched : list pystr) :
  added site_filter seen fetched [].
Proof. split; constructor. Qed.

Lemma added_app (site_filter : option pystr) (seen p1 p2 : list pystr)
    (b1 b2 : list cse_candidate) :
  added site_filter seen p1 b1 ->
  added site_filter (rev (map c_url b1) ++ seen) p2 b2 ->
  added site_filter seen (p1 ++ p2) (b1 ++ b2).
Proof.
  intros [N1 F1] [N2 F2]. split.
  - rewrite map_app. apply NoDup_append; [exact N1 | exact N2|].
    intros u Hu Hu2. apply in_map_iff in Hu2 as (c & <- & Hc).
    apply (proj1 (Forall_forall _ _) F2) in Hc as (_ & _ & Hn & _).
    apply Hn. apply in_app_iff. left. now apply in_rev in Hu.
  - apply Forall_app. split.
    + eapply Forall_impl; [|exact F1]. intros c (H1 & H2 & H3 & H4).
      split_ands; try assumption. apply in_app_iff. now left.
    + eapply Forall_impl; [|exact F2]. intros c (H1 & H2 & H3 & H4).
      split_ands; try assumption.
      * intros H. apply H3. apply in_app_iff. now right.
      * apply in_app_iff. now right.
Qed.

Lemma added_any_site (s : pystr) (seen fetched : list pystr)
    (block : list cse_candidate) :
  added (Some s) seen fetched block -> added None seen fetched block.
Proof.
  intros [N F]. split; [exact N|].
  eapply Forall_impl; [|exact F]. intros c (_ & H2 & H3 & H4).
  split_ands; try assumption. discriminate.
Qed.

Lemma items_loop_adds (site_filter : pystr) (items : list item)
    (candidates : list cse_candidate) (seen : list pystr) (remaining : Z)
    (w : crawl) (candidates' : list cse_candidate) (seen' : list pystr)
    (remaining' : Z) (w' : crawl) :
  items_of site_filter items candidates seen remaining w
  = (candidates', seen', remaining', w') ->
  1 <= remaining ->
  exists block fetched,
    candidates' = candidates ++ block
    /\ seen' = rev (map c_url block) ++ seen
    /\ remaining' = remaining - Z.of_nat (List.length block)
    /\ 0 <= remaining'
    /\ searches w' = searches w
    /\ pages w' = pages w ++ fetched
    /\ naps w' = naps w
    /\ added (Some site_filter) seen fetched block.
Proof.
  revert candidates seen remaining w.
  induction items as [|it rest IH]; intros candidates seen remaining w H Hr.
  - cbn [items_loop] in H. injection H as <- <- <- <-.
    exists [], []. rewrite !app_nil_r. cbn [List.length map rev app].
    split_ands; try reflexivity; try lia. apply added_nil.
  - cbn [items_loop] in H.
    destruct (or_str (get (it_link it)) (get (it_formattedUrl it))) as [url|];
      [|now apply IH].
    destruct (negb (truthy url) || str_mem url seen) eqn:Eskip; [now apply IH|].
    apply orb_false_iff in Eskip as [Et Em]. apply negb_false_iff in Et.
    assert (Hns : ~ In url seen).
    { intros Hin. apply str_mem_In in Hin. congruence. }
    unfold is_valid_page in H.
    set (w1 := mk_crawl (searches w) (pages w ++ [url]) (naps w)) in *.
    destruct (negb (valid_outcome lower (page (List.length (pages w))))).
    + destruct (IH _ _ _ _ H Hr)
        as (block & fetched & H1 & H2 & H3 & H4 & H5 & H6 & H7 & N & F).
      exists block, (url :: fetched). cbn [searches pages naps w1] in H5, H6, H7.
      rewrite <- app_assoc in H6. split_ands; try assumption.
      split; [exact N|].
      eapply Forall_impl; [|exact F]. intros c (A1 & A2 & A3 & A4).
      split_ands; try assumption. now right.
    + set (c := mk_cse_candidate (remove_sub (str "site:") 0 site_filter)
                  (get_or_empty (it_title it)) url
                  (get_or_empty (it_snippet it))) in *.
      assert (Hc : added (Some site_filter) seen [url] [c]).
      { split; [repeat constructor; intros []|].
        constructor; [|constructor]. cbn [c_domain c_url c].
        split_ands; try assumption.
        - now intros s [= <-].
        - now apply truthy_nonempty.
        - now left. }
      destruct (remaining - 1 =? 0) eqn:E0.
      * injection H as <- <- <- <-. apply Z.eqb_eq in E0.
        exists [c], [url]. cbn [List.length map rev app c_url c searches pages naps w1].
        split_ands; try reflexivity; try lia. exact Hc.
      * apply Z.eqb_neq in E0.
        destruct (IH _ _ _ _ H ltac:(lia))
          as (block & fetched & H1 & H2 & H3 & H4 & H5 & H6 & H7 & Hb).
        exists ([c] ++ block), ([url] ++ fetched).
        cbn [searches pages naps w1] in H5, H6, H7.
        rewrite <- app_assoc in H1, H6.
        split_ands; try assumption.
        -- rewrite H2. rewrite map_app, rev_app_distr, <- app_assoc. reflexivity.
        -- rewrite H3, length_app. cbn [List.length]. lia.
        -- apply added_app; [exact Hc | exact Hb].
Qed.

Lemma pages_loop_adds (fuel : nat) (call : Z -> Z -> search_call)
    (site_filter : pystr) (start : Z) (candidates : list cse_candidate)
    (seen : list pystr) (remaining : Z) (w : crawl)
    (res : result (list cse_candidate * list pystr)) (w' : crawl) :
  pages_of fuel call site_filter start candidates seen remaining w = (res, w') ->
  passes_on call -> 1 <= start <= 91 ->
  exists asked fetched,
    searches w' = searches w ++ asked
    /\ Forall in_quota asked
    /\ pages w' = pages w ++ fetched
    /\ forall candidates' seen',
         res = Ok (candidates', seen') ->
         exists block,
           candidates' = candidates ++ block
           /\ seen' = rev (map c_url block) ++ seen
           /\ Z.of_nat (List.length block) <= Z.max 0 remaining
           /\ added (Some site_filter) seen fetched block.
Proof.
  revert start candidates seen remaining w.
  induction fuel as [|fuel IH];
    intros start candidates seen remaining w H Hcall Hstart.
  - cbn [pages_loop] in H. injection H as <- <-.
    exists [], []. rewrite !app_nil_r. split_ands; try constructor.
    intros c' s' [= <- <-]. exists []. rewrite app_nil_r.
    split_ands; try reflexivity; [cbn; lia | apply added_nil].
  - cbn [pages_loop] in H.
    assert (Stop : forall w1 asked,
               searches w1 = searches w ++ asked -> Forall in_quota asked ->
               pages w1 = pages w ->
               (Ok (candidates, seen), w1) = (res, w') ->
               exists asked fetched,
                 searches w' = searches w ++ asked
                 /\ Forall in_quota asked
                 /\ pages w' = pages w ++ fetched
                 /\ forall candidates' seen',
                      res = Ok (candidates', seen') ->
                      exists block,
                        candidates' = candidates ++ block
                        /\ seen' = rev (map c_url block) ++ seen
                        /\ Z.of_nat (List.length block) <= Z.max 0 remaining
                        /\ added (Some site_filter) seen fetched block).
    { intros w1 asked Hs Hq Hp [= <- <-]. exists asked, [].
      rewrite app_nil_r. split_ands; try assumption.
      intros c' s' [= <- <-]. exists []. rewrite app_nil_r.
      split_ands; try reflexivity; [cbn; lia | apply added_nil]. }
    destruct (remaining >? 0) eqn:Er.
    2:{ apply (Stop w []); try reflexivity; try constructor; try exact H.
        now rewrite app_nil_r. }
    apply Z.gtb_lt in Er.
    unfold google_cse_search in H.
    set (c0 := call (Z.min 10 remaining) start) in *.
    set (w1 := mk_crawl (searches w ++ [c0]) (pages w) (naps w)) in *.
    assert (Hq : Forall in_quota [c0]).
    { constructor; [|constructor]. unfold in_quota, c0.
      destruct (Hcall (Z.min 10 remaining) start) as [-> ->]. lia. }
    destruct (search_result (List.length (searches w))) as [[[|it items]|]|e].
    + apply (Stop w1 [c0]); try reflexivity; assumption.
    + destruct (items_of site_filter (it :: items) candidates seen remaining w1)
        as [[[c2 s2] r2] w2] eqn:Ei.
      destruct (items_loop_adds _ _ _ _ _ _ _ _ _ _ Ei ltac:(lia))
        as (b1 & p1 & H1 & H2 & H3 & H4 & H5 & H6 & H7 & Hb1).
      cbn [searches pages naps w1] in H5, H6, H7.
      destruct (start + Z.min 10 remaining >? 91) eqn:E91.
      * injection H as <- <-. exists [c0], p1.
        split_ands; try assumption.
        intros c' s' [= <- <-]. exists b1. split_ands; try assumption. lia.
      * rewrite Z.gtb_ltb in E91. apply Z.ltb_ge in E91.
        destruct (IH _ _ _ _ _ H Hcall ltac:(lia))
          as (asked & p2 & G1 & G2 & G3 & G4).
        cbn [nap searches pages] in G1, G3.
        exists ([c0] ++ asked), (p1 ++ p2). rewrite G1, G3, H5, H6.
        rewrite <- !app_assoc. split_ands; try reflexivity.
        -- apply Forall_app. split; assumption.
        -- intros c' s' Hres. destruct (G4 _ _ Hres) as (b2 & K1 & K2 & K3 & K4).
           exists (b1 ++ b2). subst c2 s2 r2. split_ands.
           ++ now rewrite K1, <- app_assoc.
           ++ rewrite K2, map_app, rev_app_distr, <- app_assoc. reflexivity.
           ++ rewrite length_app. lia.
           ++ now apply added_app.
    + apply (Stop w1 [c0]); try reflexivity; assumption.
    + injection H as <- <-. exists [c0], []. rewrite app_nil_r.
      split_ands; try assumption; try reflexivity. intros c' s' [=].
Qed.

Lemma pages_loop_idle (fuel : nat) (call : Z -> Z -> search_call)
    (site_filter : pystr) (start : Z) (candidates : list cse_candidate)
    (seen : list pystr) (remaining : Z) (w : crawl) :
  remaining <= 0 ->
  pages_of fuel call site_filter start candidates seen remaining w
  = (Ok (candidates, seen), w).
Proof.
  intros H. destruct fuel; [reflexivity|]. cbn [pages_loop].
  destruct (remaining >? 0) eqn:E; [apply Z.gtb_lt in E; lia | reflexivity].
Qed.

(** Enough fuel: each iteration that goes on raises [start], so two bounds
    that both cover the way to 91 give the same outcome. *)
Lemma pages_loop_fuel (fuel fuel' : nat) (call : Z -> Z -> search_call)
    (site_filter : pystr) (start : Z) (candidates : list cse_candidate)
    (seen : list pystr) (remaining : Z) (w : crawl) :
  1 <= start <= 91 ->
  92 - start <= Z.of_nat fuel -> 92 - start <= Z.of_nat fuel' ->
  pages_of fuel call site_filter start candidates seen remaining w
  = pages_of fuel' call site_filter start candidates seen remaining w.
Proof.
  revert fuel' start candidates seen remaining w.
  induction fuel as [|fuel IH];
    intros fuel' start candidates seen remaining w Hs Hf Hf'; [lia|].
  destruct fuel' as [|fuel']; [lia|].
  cbn [pages_loop]. destruct (remaining >? 0) eqn:Er; [|reflexivity].
  apply Z.gtb_lt in Er.
  destruct (google_cse_search search_result _ w) as [[[[|it items]|]|e] w1];
    try reflexivity.
  destruct (items_of site_filter (it :: items) candidates seen remaining w1)
    as [[[c2 s2] r2] w2].
  destruct (start + Z.min 10 remaining >? 91) eqn:E91; [reflexivity|].
  rewrite Z.gtb_ltb in E91. apply Z.ltb_ge in E91.
  apply IH; lia.
Qed.

Lemma domains_loop_fuel (fuel : nat) (call : pystr -> Z -> Z -> search_call)
    (top_per_domain : Z) (domains : list pystr)
    (candidates : list cse_candidate) (seen : list pystr) (w : crawl) :
  (91 <= fuel)%nat ->
  domains_of fuel call top_per_domain domains candidates seen w
  = domains_of 91 call top_per_domain domains candidates seen w.
Proof.
  intros Hf. revert candidates seen w.
  induction domains as [|site rest IH]; intros candidates seen w; [reflexivity|].
  cbn [domains_loop]. rewrite (pages_loop_fuel fuel 91) by lia.
  destruct (pages_of 91 (call site) site 1 candidates seen top_per_domain w)
    as [[[c1 s1]|e] w1]; [apply IH | reflexivity].
Qed.

Lemma domains_loop_adds (fuel : nat) (call : pystr -> Z -> Z -> search_call)
    (top_per_domain : Z) (domains : list pystr)
    (candidates : list cse_candidate) (seen : list pystr) (w : crawl)
    (res : result (list cse_candidate * list pystr)) (w' : crawl) :
  domains_of fuel call top_per_domain domains candidates seen w = (res, w') ->
  (forall site, passes_on (call site)) ->
  exists asked fetched,
    searches w' = searches w ++ asked
    /\ Forall in_quota asked
    /\ pages w' = pages w ++ fetched
    /\ forall candidates' seen',
         res = Ok (candidates', seen') ->
         exists new,
           candidates' = candidates ++ new
           /\ seen' = rev (map c_url new) ++ seen
           /\ in_blocks top_per_domain domains new
           /\ added None seen fetched new.
Proof.
  revert candidates seen w.
  induction domains as [|site rest IH]; intros candidates seen w H Hcall.
  - cbn [domains_loop] in H. injection H as <- <-. exists [], [].
    rewrite !app_nil_r. split_ands; try constructor.
    intros c' s' [= <- <-]. exists []. rewrite app_nil_r.
    split_ands; try reflexivity. apply added_nil.
  - cbn [domains_loop] in H.
    destruct (pages_of fuel (call site) site 1 candidates seen top_per_domain w)
      as [r1 w1] eqn:Ep.
    destruct (pages_loop_adds _ _ _ _ _ _ _ _ _ _ Ep (Hcall site) ltac:(lia))
      as (a1 & p1 & H1 & H2 & H3 & H4).
    destruct r1 as [[c1 s1]|e].
    + destruct (H4 _ _ eq_refl) as (b1 & K1 & K2 & K3 & K4).
      destruct (IH _ _ _ H Hcall) as (a2 & p2 & G1 & G2 & G3 & G4).
      exists (a1 ++ a2), (p1 ++ p2). rewrite G1, G3, H1, H3, <- !app_assoc.
      split_ands; try reflexivity.
      * apply Forall_app. split; assumption.
      * intros c' s' Hres. destruct (G4 _ _ Hres) as (b2 & L1 & L2 & L3 & L4).
        exists (b1 ++ b2). subst c1 s1. split_ands.
        -- now rewrite L1, <- app_assoc.
        -- rewrite L2, map_app, rev_app_distr, <- app_assoc. reflexivity.
        -- cbn [in_blocks]. exists b1, b2.
           split; [reflexivity|]. split; [exact K3|]. split; [|exact L3].
           destruct K4 as [_ F]. eapply Forall_impl; [|exact F].
           intros c (A & _). now apply A.
        -- apply added_app; [now apply added_any_site with (s := site) | exact L4].
    + injection H as <- <-. exists a1, p1. split_ands; try assumption.
      intros c' s' [=].
Qed.

Lemma domains_loop_idle (fuel : nat) (call : pystr -> Z -> Z -> search_call)
    (top_per_domain : Z) (domains : list pystr)
    (candidates : list cse_candidate) (seen : list pystr) (w : crawl) :
  top_per_domain <= 0 ->
  domains_of fuel call top_per_domain domains candidates seen w
  = (Ok (candidates, seen), w).
Proof.
  intros H. revert candidates seen w.
  induction domains as [|site rest IH]; intros candidates seen w; [reflexivity|].
  cbn [domains_loop]. rewrite pages_loop_idle by exact H. apply IH.
Qed.

End CollectFacts.

Lemma call_for_passes_on (query : pystr) (safe : option pystr) (debug : bool)
    (site : pystr) :
  passes_on (call_for query safe debug site).
Proof. intros n s. split; reflexivity. Qed.

(** X24.  [collect_candidates_google_cse] never returns the same url twice
    and no empty url; every returned url has been fetched for validation;
    the candidates come in one block per site filter, in the order of the
    filters, each block with at most [top_per_domain] candidates that carry
    the filter without its "site:" prefix as domain; and every search it
    makes, whether it returns or raises, asks for 1 to 10 results from a
    start index of 1 to 91.  With [top_per_domain] at most 0 it returns the
    empty list without any request.  A bound on the iterations of the inner
    loop above 91 gives the same outcome. *)
Theorem collected_candidates_are_capped
    (lower : pystr -> pystr)
    (search_result : nat -> result (option (list item)))
    (page : nat -> page_outcome)
    (query : pystr) (top_per_domain : Z) (safe : option pystr)
    (domain_list : option (list pystr)) (debug : bool) (w : crawl) :
  let collect := collect_candidates_google_cse lower search_result page
                   query top_per_domain safe domain_list debug w in
  let domains := match domain_list with Some l => l | None => BASE_DOMAINS end in
  (exists asked fetched,
      searches (snd collect) = searches w ++ asked
      /\ Forall in_quota asked
      /\ pages (snd collect) = pages w ++ fetched
      /\ forall candidates,
           fst collect = Ok candidates ->
           NoDup (map c_url candidates)
           /\ Forall (fun c => c_url c <> [] /\ In (c_url c) fetched) candidates
           /\ in_blocks top_per_domain domains candidates)
  /\ (top_per_domain <= 0 -> collect = (Ok [], w))
  /\ (forall fuel, (91 <= fuel)%nat ->
        collect_with lower search_result page fuel query top_per_domain safe
          domain_list debug w = collect).
Proof.
  intros collect domains. unfold collect, collect_candidates_google_cse.
  split; [|split].
  - unfold collect_with. fold domains.
    destruct (domains_loop lower search_result page 91 (call_for query safe debug)
                top_per_domain domains [] [] w) as [res w'] eqn:E.
    destruct (domains_loop_adds _ _ _ _ _ _ _ _ _ _ _ _ E
                (call_for_passes_on query safe debug))
      as (asked & fetched & H1 & H2 & H3 & H4).
    exists asked, fetched.
    destruct res as [[c1 s1]|e]; cbn [snd fst];
      (split; [exact H1|]); (split; [exact H2|]); (split; [exact H3|]).
    + intros candidates [= <-].
      destruct (H4 _ _ eq_refl) as (new & K1 & _ & K3 & [N F]).
      cbn [app] in K1. subst c1. split; [exact N|]. split; [|exact K3].
      eapply Forall_impl; [|exact F]. intros c (_ & A & _ & B). now split.
    + intros candidates [=].
  - intros H. unfold collect_with. now rewrite domains_loop_idle.
  - intros fuel Hf. unfold collect_with. now rewrite domains_loop_fuel.
Qed.

(** ** text_utils.py : dedupe_preserve_order *)

Import Sentences.

Lemma str_mem_same (x : pystr) (l1 l2 : list pystr) :
  (In x l1 <-> In x l2) -> str_mem x l1 = str_mem x l2.
Proof.
  intros H. destruct (str_mem x l1) eqn:E1, (str_mem x l2) eqn:E2;
    try reflexivity.
  - apply str_mem_In, H, str_mem_In in E1. congruence.
  - apply str_mem_In, H, str_mem_In in E2. congruence.
Qed.

Lemma dedupe_order_loop_snoc (items seen result : list pystr) (x : pystr) :
  dedupe_order_loop (items ++ [x]) seen result
  = dedupe_order_loop items seen result
    ++ (if str_mem x (seen ++ items) then [] else [x]).
Proof.
  revert seen result. induction items as [|i rest IH]; intros seen result.
  - cbn [app dedupe_order_loop]. rewrite app_nil_r.
    destruct (str_mem x seen); [now rewrite app_nil_r | reflexivity].
  - cbn [app dedupe_order_loop]. destruct (str_mem i seen) eqn:Ei.
    + rewrite IH. f_equal. rewrite (str_mem_same x (seen ++ rest) (seen ++ i :: rest));
        [reflexivity|].
      rewrite !in_app_iff. cbn [In]. apply str_mem_In in Ei.
      split; [tauto|]. intros [H | [-> | H]]; tauto.
    + rewrite IH. f_equal.
      rewrite (str_mem_same x ((i :: seen) ++ rest) (seen ++ i :: rest));
        [reflexivity|].
      cbn [app In]. rewrite !in_app_iff. cbn [In]. tauto.
Qed.

Lemma dedupe_order_snoc (items : list pystr) (x : pystr) :
  dedupe_preserve_order (items ++ [x])
  = dedupe_preserve_order items ++ (if str_mem x items then [] else [x]).
Proof. unfold dedupe_preserve_order. now rewrite dedupe_order_loop_snoc. Qed.

Lemma dedupe_order_In (items : list pystr) (x : pystr) :
  In x (dedupe_preserve_order items) <-> In x items.
Proof.
  induction items as [|y items IH] using rev_ind; [reflexivity|].
  rewrite dedupe_order_snoc, !in_app_iff, IH.
  destruct (str_mem y items) eqn:E; cbn [In]; [|tauto].
  apply str_mem_In in E. split; [tauto|]. intros [H | [-> | []]]; tauto.
Qed.

Lemma dedupe_order_NoDup (items : list pystr) :
  NoDup (dedupe_preserve_order items).
Proof.
  induction items as [|y items IH] using rev_ind; [constructor|].
  rewrite dedupe_order_snoc. destruct (str_mem y items) eqn:E.
  - now rewrite app_nil_r.
  - apply NoDup_append; [exact IH | repeat constructor; intros [] |].
    intros x Hx [<- | []]. apply (proj1 (dedupe_order_In items y)) in Hx.
    apply (proj2 (str_mem_In y items)) in Hx. congruence.
Qed.

Lemma dedupe_order_fixed (items : list pystr) :
  dedupe_preserve_order items = items <-> NoDup items.
Proof.
  split; [intros <-; apply dedupe_order_NoDup|].
  induction items as [|y items IH] using rev_ind; [reflexivity|].
  intros H. rewrite dedupe_order_snoc.
  pose proof (NoDup_remove_1 _ _ _ H) as H1.
  pose proof (NoDup_remove_2 _ _ _ H) as H2. rewrite app_nil_r in H1, H2.
  rewrite (IH H1). destruct (str_mem y items) eqn:E; [|reflexivity].
  now apply str_mem_In in E.
Qed.

(** X25.  [dedupe_preserve_order] keeps the first occurrence of every item
    and drops the later ones: the result of a list with one more item at the
    end is the result of the list, followed by the new item if the list does
    not hold it already.  So the result has no item twice, holds the same
    items as the input and never more of them, is the input itself exactly
    when the input has no item twice, and is left unchanged by a second
    pass. *)
Theorem dedupe_preserve_order_first_occurrences (items : list pystr) :
  let result := dedupe_preserve_order items in
  NoDup result
  /\ (forall x, In x result <-> In x items)
  /\ (List.length result <= List.length items)%nat
  /\ (result = items <-> NoDup items)
  /\ dedupe_preserve_order result = result
  /\ dedupe_preserve_order [] = []
  /\ forall x,
       dedupe_preserve_order (items ++ [x])
       = if str_mem x items then result else result ++ [x].
Proof.
  intros result. subst result. split_ands.
  - apply dedupe_order_NoDup.
  - intros x. apply dedupe_order_In.
  - induction items as [|y items IH] using rev_ind; [apply Nat.le_refl|].
    rewrite dedupe_order_snoc, !length_app.
    destruct (str_mem y items); cbn [List.length]; lia.
  - apply dedupe_order_fixed.
  - apply dedupe_order_fixed, dedupe_order_NoDup.
  - reflexivity.
  - intros x. rewrite dedupe_order_snoc.
    destruct (str_mem x items); [now rewrite app_nil_r | reflexivity].
Qed.

(** ** text_utils.py : extract_quotes *)

Import Quotes.

Lemma run_until_spec (closer : N) (s run rest : pystr) :
  run_until closer s = (run, rest) ->
  s = run ++ rest /\ ~ In closer run /\ (rest = [] \/ exists r, rest = closer :: r).
Proof.
  revert run rest. induction s as [|c s IH]; intros run rest; cbn [run_until].
  - intros [= <- <-]. repeat split; auto.
  - destruct (c =? closer)%N eqn:E.
    + intros [= <- <-]. apply N.eqb_eq in E. subst c.
      repeat split; auto. right. now exists s.
    + destruct (run_until closer s) as [r1 r2]. intros [= <- <-].
      destruct (IH _ _ eq_refl) as (H1 & H2 & H3). apply N.eqb_neq in E.
      repeat split; [cbn [app]; congruence | | exact H3].
      intros [H | H]; [congruence | contradiction].
Qed.

Lemma run_until_closer (closer : N) (run rest : pystr) :
  ~ In closer run ->
  run_until closer (run ++ closer :: rest) = (run, closer :: rest).
Proof.
  induction run as [|c run IH]; intros H; cbn [app run_until].
  - now rewrite N.eqb_refl.
  - destruct (c =? closer)%N eqn:E.
    + apply N.eqb_eq in E. subst c. exfalso. apply H. now left.
    + rewrite IH; [reflexivity|]. intros Hin. apply H. now right.
Qed.

Lemma run_until_end (closer : N) (run : pystr) :
  ~ In closer run -> run_until closer run = (run, []).
Proof.
  induction run as [|c run IH]; intros H; cbn [run_until]; [reflexivity|].
  destruct (c =? closer)%N eqn:E.
  - apply N.eqb_eq in E. subst c. exfalso. apply H. now left.
  - rewrite IH; [reflexivity|]. intros Hin. apply H. now right.
Qed.

Lemma match_here_some (opener closer : N) (group rest : pystr) :
  group <> [] -> ~ In closer group ->
  match_here opener closer (opener :: group ++ closer :: rest) = Some group.
Proof.
  intros Hg Hc. cbn [match_here]. rewrite N.eqb_refl, run_until_closer by exact Hc.
  destruct group; [contradiction | reflexivity].
Qed.

Lemma match_here_inv (opener closer : N) (s group : pystr) :
  match_here opener closer s = Some group ->
  exists rest,
    s = opener :: group ++ closer :: rest /\ group <> [] /\ ~ In closer group.
Proof.
  destruct s as [|x s]; cbn [match_here]; [discriminate|].
  destruct (x =? opener)%N eqn:E; [|discriminate]. apply N.eqb_eq in E. subst x.
  destruct (run_until closer s) as [run rest] eqn:R.
  destruct run as [|c1 run]; [discriminate|].
  destruct rest as [|y rest]; [discriminate|]. intros [= <-].
  apply run_until_spec in R as (H1 & H2 & [H3 | [r H3]]); [discriminate|].
  injection H3 as -> ->. exists r. repeat split; [now rewrite H1 | discriminate | exact H2].
Qed.

Lemma match_here_other (opener closer x : N) (s : pystr) :
  x <> opener -> match_here opener closer (x :: s) = None.
Proof. intros H. cbn [match_here]. apply N.eqb_neq in H. now rewrite H. Qed.

Lemma findall_skip (opener closer : N) (pre s : pystr) :
  findall opener closer (List.length pre) (pre ++ s) = findall opener closer 0 s.
Proof. induction pre as [|x pre IH]; [reflexivity | exact IH]. Qed.

Lemma findall_match (opener closer : N) (group rest : pystr) :
  group <> [] -> ~ In closer group ->
  findall opener closer 0 (opener :: group ++ closer :: rest)
  = group :: findall opener closer 0 rest.
Proof.
  intros Hg Hc. cbn [findall]. rewrite match_here_some by assumption. f_equal.
  replace (group ++ closer :: rest) with ((group ++ [closer]) ++ rest)
    by now rewrite <- app_assoc.
  rewrite <- (findall_skip opener closer (group ++ [closer]) rest).
  f_equal. rewrite length_app. cbn [List.length]. lia.
Qed.

Lemma findall_before (opener closer : N) (pre s : pystr) :
  ~ In opener pre ->
  findall opener closer 0 (pre ++ s) = findall opener closer 0 s.
Proof.
  induction pre as [|x pre IH]; intros H; [reflexivity|].
  cbn [app findall]. rewrite match_here_other.
  - apply IH. intros Hin. apply H. now right.
  - intros ->. apply H. now left.
Qed.

Lemma findall_no_opener (opener closer : N) (s : pystr) :
  ~ In opener s -> findall opener closer 0 s = [].
Proof.
  intros H. rewrite <- (app_nil_r s). now rewrite findall_before.
Qed.

Lemma findall_empty_pair (opener closer : N) (s : pystr) :
  findall opener closer 0 (opener :: closer :: s)
  = findall opener closer 0 (closer :: s).
Proof.
  cbn [findall match_here run_until]. now rewrite !N.eqb_refl.
Qed.

Lemma findall_unclosed (opener closer : N) (s : pystr) :
  ~ In opener s -> ~ In closer s ->
  findall opener closer 0 (opener :: s) = [].
Proof.
  intros Ho Hc. cbn [findall match_here]. rewrite N.eqb_refl, run_until_end by exact Hc.
  replace (match s with [] => None | _ :: _ => None end) with (@None pystr)
    by now destruct s.
  now apply findall_no_opener.
Qed.

Lemma findall_occur (opener closer : N) (skip : nat) (s : pystr) :
  Forall (fun group =>
            group <> [] /\ ~ In closer group
            /\ exists pre post,
                 s = pre ++ [opener] ++ group ++ [closer] ++ post)
         (findall opener closer skip s).
Proof.
  revert skip. induction s as [|x s IH]; intros skip; [constructor|].
  assert (Later : forall k,
            Forall (fun group =>
                      group <> [] /\ ~ In closer group
                      /\ exists pre post,
                           x :: s = pre ++ [opener] ++ group ++ [closer] ++ post)
                   (findall opener closer k s)).
  { intros k. eapply Forall_impl; [|apply (IH k)].
    intros g (H1 & H2 & pre & post & H3). repeat split; try assumption.
    exists (x :: pre), post. cbn [app] in *. now rewrite H3. }
  cbn [findall]. destruct skip as [|k]; [|apply Later].
  destruct (match_here opener closer (x :: s)) as [group|] eqn:M; [|apply Later].
  constructor; [|apply Later].
  apply match_here_inv in M as (rest & H1 & H2 & H3).
  repeat split; try assumption. exists [], rest. exact H1.
Qed.

(** The characters that the matches take up: each group and its two marks. *)
Lemma findall_room (opener closer : N) (skip : nat) (s : pystr) :
  (skip <= List.length s)%nat ->
  (skip + list_sum (map (fun g => List.length g + 2)%nat
                        (findall opener closer skip s))
   <= List.length s)%nat.
Proof.
  revert skip. induction s as [|x s IH]; intros skip Hs.
  - cbn in *. lia.
  - cbn [findall List.length] in *. destruct skip as [|k].
    + destruct (match_here opener closer (x :: s)) as [group|] eqn:M.
      * apply match_here_inv in M as (rest & H1 & _ & _).
        injection H1 as _ H1.
        assert (Hl : (S (List.length group) <= List.length s)%nat).
        { rewrite H1, length_app. cbn [List.length]. lia. }
        specialize (IH _ Hl). unfold list_sum in *. cbn [map fold_right]. lia.
      * specialize (IH 0%nat ltac:(lia)). lia.
    + specialize (IH k ltac:(lia)). lia.
Qed.

(** X26.  Every quote that [extract_quotes] returns is a non-empty run of
    characters other than the double quote that stands between two double
    quotes in the text, and the quotes with their marks fit in the text side
    by side.  The quotes are taken from left to right: a text that begins,
    after characters other than the double quote, with such a run between
    two double quotes gives that run, followed by the quotes of what comes
    after the closing mark; of two double quotes in a row the first is passed
    over; a text with no double quote, or with one only, gives no quote, and
    so does no text at all. *)
Theorem extract_quotes_reads_left_to_right (text : option pystr) :
  let quotes := extract_quotes text in
  Forall (fun q =>
            q <> [] /\ ~ In dquote q
            /\ exists pre post,
                 or_empty text = pre ++ [dquote] ++ q ++ [dquote] ++ post)
         quotes
  /\ (list_sum (map (fun q => List.length q + 2)%nat quotes)
      <= List.length (or_empty text))%nat
  /\ (forall pre q post,
        ~ In dquote pre -> q <> [] -> ~ In dquote q ->
        extract_quotes (Some (pre ++ [dquote] ++ q ++ [dquote] ++ post))
        = q :: extract_quotes (Some post))
  /\ (forall pre post,
        ~ In dquote pre ->
        extract_quotes (Some (pre ++ [dquote; dquote] ++ post))
        = extract_quotes (Some ([dquote] ++ post)))
  /\ (forall pre post,
        ~ In dquote pre -> ~ In dquote post ->
        extract_quotes (Some (pre ++ [dquote] ++ post)) = []
        /\ extract_quotes (Some pre) = [])
  /\ extract_quotes None = [].
Proof.
  intros quotes. subst quotes. unfold extract_quotes. split_ands.
  - apply findall_occur.
  - apply (findall_room dquote dquote 0). lia.
  - intros pre q post Hp Hq Hc. cbn [or_empty app].
    rewrite findall_before by exact Hp. now apply findall_match.
  - intros pre post Hp. cbn [or_empty app].
    rewrite findall_before by exact Hp. apply findall_empty_pair.
  - intros pre post Hp Hq. cbn [or_empty app]. split.
    + rewrite findall_before by exact Hp. now apply findall_unclosed.
    + now apply findall_no_opener.
  - reflexivity.
Qed.

(** ** text_utils.py : extract_quotes_advanced *)

Lemma dedupe_order_length (items : list pystr) :
  (List.length (dedupe_preserve_order items) <= List.length items)%nat.
Proof.
  induction items as [|y items IH] using rev_ind; [apply Nat.le_refl|].
  rewrite dedupe_order_snoc, !length_app.
  destruct (str_mem y items); cbn [List.length]; lia.
Qed.

Lemma unique_loop_dedupe (min_length : Z) (quotes seen result : list pystr) :
  unique_loop min_length quotes seen result
  = dedupe_order_loop
      (filter (fun q => negb (len q <? min_length)) (map strip quotes))
      seen result.
Proof.
  revert seen result. induction quotes as [|q rest IH]; intros seen result;
    [reflexivity|].
  cbn [unique_loop map filter]. destruct (len (strip q) <? min_length) eqn:E;
    cbn [orb negb]; [apply IH|].
  cbn [dedupe_order_loop]. destruct (str_mem (strip q) seen); apply IH.
Qed.

Lemma found_quotes_occur (text : pystr) :
  Forall (fun raw =>
            raw <> []
            /\ exists opener closer,
                 In (opener, closer) patterns /\ ~ In closer raw
                 /\ exists pre post,
                      text = pre ++ [opener] ++ raw ++ [closer] ++ post)
         (found_quotes text).
Proof.
  unfold found_quotes. apply Forall_forall. intros raw H.
  apply in_flat_map in H as ([o c] & Hp & H). cbn [fst snd] in H.
  pose proof (findall_occur o c 0 text) as F.
  apply (proj1 (Forall_forall _ _) F) in H as (H1 & H2 & H3).
  split; [exact H1|]. exists o, c. now repeat split.
Qed.

(** X27.  [extract_quotes_advanced] is [dedupe_preserve_order] on the
    stripped quotes of at least [min_length] characters: its result holds no
    quote twice, holds exactly the stripped forms of the found quotes that
    are long enough, each without whitespace at either end, and never more
    quotes than were found.  Every found quote is a non-empty run between
    the two marks of one of the four patterns in the text, free of the
    closing mark. *)
Theorem advanced_quotes_are_deduped (text : option pystr) (min_length : Z) :
  let found := found_quotes (or_empty text) in
  let result := extract_quotes_advanced text min_length in
  result = dedupe_preserve_order
             (filter (fun q => negb (len q <? min_length)) (map strip found))
  /\ NoDup result
  /\ (forall q, In q result <->
                exists raw, In raw found /\ q = strip raw /\ min_length <= len q)
  /\ Forall (fun q => forall c,
               hd_error q = Some c \/ hd_error (rev q) = Some c ->
               isspace c = false) result
  /\ (List.length result <= List.length found)%nat
  /\ Forall (fun raw =>
               raw <> []
               /\ exists opener closer,
                    In (opener, closer) patterns /\ ~ In closer raw
                    /\ exists pre post,
                         or_empty text
                         = pre ++ [opener] ++ raw ++ [closer] ++ post)
            found.
Proof.
  intros found result.
  assert (E : result = dedupe_preserve_order
                         (filter (fun q => negb (len q <? min_length))
                                 (map strip found))).
  { unfold result, extract_quotes_advanced, dedupe_preserve_order.
    apply unique_loop_dedupe. }
  assert (M : forall q, In q result <->
                exists raw, In raw found /\ q = strip raw /\ min_length <= len q).
  { intros q. rewrite E, dedupe_order_In, filter_In, in_map_iff.
    rewrite negb_true_iff, Z.ltb_ge. split.
    - intros [(raw & <- & Hr) Hl]. now exists raw.
    - intros (raw & Hr & -> & Hl). split; [now exists raw | exact Hl]. }
  split_ands; try assumption.
  - rewrite E. apply dedupe_order_NoDup.
  - apply Forall_forall. intros q Hq c Hc.
    apply M in Hq as (raw & _ & -> & _). now apply strip_ends in Hc.
  - rewrite E. etransitivity; [apply dedupe_order_length|].
    etransitivity; [apply filter_length_le|]. now rewrite length_map.
  - apply found_quotes_occur.
Qed.

(** ** text_utils.py : normalize_korean_phrase *)

(** The code points of the class: the three middle dots, backslash, right
    bracket, caret, underscore, slash and the letter s. *)
Local Abbreviation class_points :=
  ([183; 8231; 12685; 92; 93; 94; 95; 47; 115]%N).

Lemma normalize_class_points (c : N) :
  TextUtils.normalize_class c = true <-> In c class_points.
Proof.
  unfold TextUtils.normalize_class. cbn [In].
  rewrite !orb_true_iff, andb_true_iff, !N.eqb_eq, !N.leb_le. lia.
Qed.

Lemma space_outside_class (c : N) :
  isspace c = true \/ c = 45%N -> TextUtils.normalize_class c = false.
Proof.
  intros H. destruct (TextUtils.normalize_class c) eqn:E; [|reflexivity].
  apply normalize_class_points in E. cbn [In] in E. unfold isspace in H.
  rewrite !orb_true_iff, !andb_true_iff, !N.eqb_eq, !N.leb_le in H. lia.
Qed.

Lemma ascii_lower_In (c : N) (s : pystr) :
  In c (TextUtils.ascii_lower s)
  <-> (In c s /\ ~ (65 <= c <= 90)%N) \/ (In (c - 32)%N s /\ (97 <= c <= 122)%N).
Proof.
  unfold TextUtils.ascii_lower. rewrite in_map_iff. split.
  - intros (x & Hx & Hin).
    destruct ((65 <=? x) && (x <=? 90))%N eqn:E.
    + apply andb_true_iff in E as [E1 E2]. apply N.leb_le in E1, E2.
      right. subst c. replace (x + 32 - 32)%N with x by lia. split; [exact Hin | lia].
    + left. subst c. split; [exact Hin|]. intros [H1 H2].
      apply N.leb_le in H1, H2. rewrite H1, H2 in E. discriminate.
  - intros [[Hin Hr] | [Hin Hr]].
    + exists c. split; [|exact Hin].
      destruct ((65 <=? c) && (c <=? 90))%N eqn:E; [|reflexivity].
      apply andb_true_iff in E as [E1 E2]. apply N.leb_le in E1, E2. lia.
    + exists (c - 32)%N. split; [|exact Hin].
      assert (E : ((65 <=? c - 32) && (c - 32 <=? 90))%N = true).
      { apply andb_true_iff. split; apply N.leb_le; lia. }
      rewrite E. lia.
Qed.

(** X28.  [normalize_korean_phrase] removes nine code points and no other:
    the three middle dots (U+00B7, U+2027, U+318D), the backslash, the right
    bracket, the caret, the underscore, the slash and the letter s; the
    characters it keeps stay in their order, and what is left is lowered.
    Whitespace and the hyphen are never removed.  With [str.lower] on ASCII
    letters, every whitespace character and hyphen of the text is in the
    normal form, and the normal form holds the letter s exactly when the
    text holds a capital S. *)
Theorem normal_form_keeps_spaces_and_hyphens
    (lower : pystr -> pystr) (text : pystr) :
  let kept := filter (fun c => negb (TextUtils.normalize_class c)) text in
  TextUtils.normalize_korean_phrase lower text = lower kept
  /\ (forall c, In c kept <-> In c text /\ ~ In c class_points)
  /\ (forall c, isspace c = true \/ c = 45%N ->
                count_occ N.eq_dec kept c = count_occ N.eq_dec text c)
  /\ (forall a b,
        TextUtils.normalize_korean_phrase lower (a ++ b)
        = lower (filter (fun c => negb (TextUtils.normalize_class c)) a
                 ++ filter (fun c => negb (TextUtils.normalize_class c)) b))
  /\ (Forall (fun c => ~ In c class_points) text ->
      TextUtils.normalize_korean_phrase lower text = lower text)
  /\ (forall c, isspace c = true \/ c = 45%N ->
                In c text ->
                In c (TextUtils.normalize_korean_phrase TextUtils.ascii_lower text))
  /\ (In 115%N (TextUtils.normalize_korean_phrase TextUtils.ascii_lower text)
      <-> In 83%N text).
Proof.
  intros kept.
  assert (K : forall c, In c kept <-> In c text /\ ~ In c class_points).
  { intros c. unfold kept. rewrite filter_In, negb_true_iff.
    rewrite <- normalize_class_points.
    destruct (TextUtils.normalize_class c); intuition congruence. }
  split_ands.
  - reflexivity.
  - exact K.
  - intros c Hc. apply space_outside_class in Hc. unfold kept. clear K kept.
    induction text as [|x text IH]; [reflexivity|]. cbn [filter count_occ].
    destruct (TextUtils.normalize_class x) eqn:E; cbn [negb count_occ].
    + destruct (N.eq_dec x c) as [->|]; [congruence | exact IH].
    + destruct (N.eq_dec x c); now rewrite IH.
  - intros a b. unfold TextUtils.normalize_korean_phrase. now rewrite filter_app.
  - intros H. unfold TextUtils.normalize_korean_phrase. f_equal.
    clear K kept. induction H as [|x text Hx H IH]; [reflexivity|].
    cbn [filter]. destruct (TextUtils.normalize_class x) eqn:E.
    + now apply normalize_class_points in E.
    + cbn [negb]. now rewrite IH.
  - intros c Hc Hin. unfold TextUtils.normalize_korean_phrase. fold kept.
    apply ascii_lower_In. left. split.
    + apply K. split; [exact Hin|]. rewrite <- normalize_class_points.
      now rewrite (space_outside_class c Hc).
    + unfold isspace in Hc.
      rewrite !orb_true_iff, !andb_true_iff, !N.eqb_eq, !N.leb_le in Hc. lia.
  - unfold TextUtils.normalize_korean_phrase. fold kept.
    rewrite ascii_lower_In, !K. cbn [In]. split.
    + intros [[[_ H] _] | [[H _] _]]; [exfalso; apply H; tauto | exact H].
    + intros H. right. split; [|lia]. split; [exact H|]. lia.
Qed.

(** ** name_resolution.py : resolve_person_name_en *)

Import NameResolution.

Lemma find_some_entry {A} (f : A -> bool) (l : list A) (x : A) :
  find f l = Some x ->
  exists before after,
    l = before ++ x :: after /\ f x = true /\ Forall (fun y => f y = false) before.
Proof.
  induction l as [|y l IH]; cbn [find]; [discriminate|].
  destruct (f y) eqn:E.
  - intros [= <-]. exists [], l. repeat split; [exact E | constructor].
  - intros H. destruct (IH H) as (b & a & H1 & H2 & H3).
    exists (y :: b), a. repeat split; [cbn [app]; congruence | exact H2|].
    now constructor.
Qed.

Lemma find_none_all {A} (f : A -> bool) (l : list A) :
  find f l = None <-> Forall (fun y => f y = false) l.
Proof.
  induction l as [|y l IH]; cbn [find]; [split; [constructor | reflexivity]|].
  destruct (f y) eqn:E.
  - split; [discriminate|]. intros H. inversion H; congruence.
  - rewrite IH. split; [now constructor | intros H; now inversion H].
Qed.

Lemma contains_self (s : pystr) : contains s s = true.
Proof.
  assert (P : forall a, is_prefix a a = true).
  { induction a as [|x a IH]; [reflexivity|]. cbn [is_prefix].
    now rewrite N.eqb_refl, IH. }
  destruct s; cbn [contains]; now rewrite P.
Qed.

Section ResolveFacts.
Variable PERSON_NAME_LEXICON : list (pystr * pystr).

Local Abbreviation resolve := (resolve_person_name_en PERSON_NAME_LEXICON).
Local Abbreviation occurs_in name := (fun kv : pystr * pystr => contains (fst kv) name).

(** A key that occurs in the name: the lexicon decides. *)
Lemma resolve_by_lexicon
    (wikidata : pystr -> Z -> result (option pystr))
    (translate : pystr -> result pystr) (name_ko : option pystr) :
  let name := strip (or_empty name_ko) in
  name <> [] ->
  Exists (fun kv => occurs_in name kv = true) PERSON_NAME_LEXICON ->
  resolve wikidata translate name_ko
  = match lexicon_entry PERSON_NAME_LEXICON name with
    | Some val => val
    | None => match lexicon_part PERSON_NAME_LEXICON name with
              | Some val => val
              | None => []
              end
    end
  /\ exists key val,
       In (key, val) PERSON_NAME_LEXICON /\ contains key name = true
       /\ resolve wikidata translate name_ko = val.
Proof.
  intros name Hn Hex. unfold resolve_person_name_en. fold name.
  destruct name as [|c r] eqn:En; [contradiction|]. cbn [truthy negb].
  rewrite <- En in *. clear Hn.
  unfold lexicon_entry, lexicon_part.
  destruct (find (fun kv => PyStr.eqb (fst kv) name) PERSON_NAME_LEXICON)
    as [[k v]|] eqn:F1; cbn [option_map snd].
  - split; [reflexivity|]. exists k, v.
    pose proof (find_some _ _ F1) as [Hin Hk]. cbn [fst] in Hk.
    apply pystr_eqb_eq in Hk. subst k.
    repeat split; [exact Hin | apply contains_self].
  - destruct (find (fun kv => contains (fst kv) name) PERSON_NAME_LEXICON)
      as [[k v]|] eqn:F2; cbn [option_map snd].
    + split; [reflexivity|]. exists k, v.
      pose proof (find_some _ _ F2) as [Hin Hk]. now repeat split.
    + exfalso. apply find_none_all in F2. apply Exists_exists in Hex as (kv & Hin & Hk).
      apply (proj1 (Forall_forall _ _) F2) in Hin. congruence.
Qed.

End ResolveFacts.

(** X29.  [resolve_person_name_en] answers from the lexicon alone whenever a
    key of the lexicon occurs in the stripped name: Wikidata and the
    translator have no part in the result, which is the value of a key that
    occurs in the name; a key equal to the name goes before every other,
    and the first key in the order of the lexicon before the later ones.  A
    blank name gives the empty string.  When no key occurs in the name, the
    result is the Wikidata label if there is a non-empty one, otherwise the
    translation, and the stripped name itself when the translator raises.
    As the resolver returns on every path, [generate_search_query] with it
    never raises. *)
Theorem lexicon_goes_first
    (PERSON_NAME_LEXICON : list (pystr * pystr))
    (wikidata : pystr -> Z -> result (option pystr))
    (translate : pystr -> result pystr) (name_ko : option pystr) :
  let resolve := resolve_person_name_en PERSON_NAME_LEXICON in
  let name := strip (or_empty name_ko) in
  (name = [] -> resolve wikidata translate name_ko = [])
  /\ (name <> [] ->
      Exists (fun kv => contains (fst kv) name = true) PERSON_NAME_LEXICON ->
      (forall wikidata' translate',
         resolve wikidata' translate' name_ko = resolve wikidata translate name_ko)
      /\ (exists key val,
            In (key, val) PERSON_NAME_LEXICON /\ contains key name = true
            /\ resolve wikidata translate name_ko = val)
      /\ (forall before val after,
            PERSON_NAME_LEXICON = before ++ (name, val) :: after ->
            ~ In name (map fst before) ->
            resolve wikidata translate name_ko = val)
      /\ (~ In name (map fst PERSON_NAME_LEXICON) ->
          forall before key val after,
            PERSON_NAME_LEXICON = before ++ (key, val) :: after ->
            contains key name = true ->
            Forall (fun kv => contains (fst kv) name = false) before ->
            resolve wikidata translate name_ko = val))
  /\ (name <> [] ->
      Forall (fun kv => contains (fst kv) name = false) PERSON_NAME_LEXICON ->
      resolve wikidata translate name_ko
      = match wikidata name 3, translate name with
        | Ok (Some (c :: en)), _ => c :: en
        | _, Ok translated => translated
        | _, Raise _ => name
        end)
  /\ (forall is_word lower ebt quote_sentence article_date use_wikidata,
        exists queries,
          QueryGen.generate_search_query is_word lower
            (fun speaker => Ok (resolve wikidata translate (Some speaker)))
            translate ebt quote_sentence article_date use_wikidata
          = Ok queries).
Proof.
  intros resolve name. split_ands.
  - intros H. unfold resolve, resolve_person_name_en. fold name. now rewrite H.
  - intros Hn Hex.
    pose proof (resolve_by_lexicon PERSON_NAME_LEXICON wikidata translate name_ko
                  Hn Hex) as [E1 E2].
    split_ands.
    + intros wikidata' translate'.
      pose proof (resolve_by_lexicon PERSON_NAME_LEXICON wikidata' translate'
                    name_ko Hn Hex) as [E1' _].
      unfold resolve. fold name in E1, E1'. now rewrite E1, E1'.
    + exact E2.
    + intros before val after HL Hb. unfold resolve. fold name in E1. rewrite E1.
      unfold lexicon_entry.
      assert (F : find (fun kv => PyStr.eqb (fst kv) name) PERSON_NAME_LEXICON
                  = Some (name, val)).
      { rewrite HL. clear HL. induction before as [|[k v] before IH]; cbn [app find fst].
        - now rewrite pystr_eqb_refl.
        - destruct (PyStr.eqb k name) eqn:E.
          + apply pystr_eqb_eq in E. subst k. exfalso. apply Hb. now left.
          + apply IH. intros Hin. apply Hb. now right. }
      now rewrite F.
    + intros Hk before key val after HL Hc Hb. unfold resolve. fold name in E1.
      rewrite E1. unfold lexicon_entry, lexicon_part.
      assert (F1 : find (fun kv => PyStr.eqb (fst kv) name) PERSON_NAME_LEXICON = None).
      { apply find_none_all. apply Forall_forall. intros [k v] Hin. cbn [fst].
        apply pystr_eqb_neq. intros ->. apply Hk. apply in_map_iff.
        now exists (name, v). }
      assert (F2 : find (fun kv => contains (fst kv) name) PERSON_NAME_LEXICON
                   = Some (key, val)).
      { rewrite HL. clear HL E1 E2 Hex Hk F1.
        induction Hb as [|[k v] before Hkv Hb IH]; cbn [app find fst] in *.
        - now rewrite Hc.
        - now rewrite Hkv. }
      now rewrite F1, F2.
  - intros Hn Hno. unfold resolve, resolve_person_name_en. fold name.
    destruct name as [|c r] eqn:En; [contradiction|]. cbn [truthy negb].
    rewrite <- En in *.
    assert (F2 : lexicon_part PERSON_NAME_LEXICON name = None).
    { unfold lexicon_part. now rewrite (proj2 (find_none_all _ _) Hno). }
    assert (F1 : lexicon_entry PERSON_NAME_LEXICON name = None).
    { unfold lexicon_entry.
      rewrite (proj2 (find_none_all _ _)); [reflexivity|].
      eapply Forall_impl; [|exact Hno]. intros [k v] H. cbn [fst] in *.
      apply pystr_eqb_neq. intros ->. now rewrite contains_self in H. }
    rewrite F1, F2. unfold translated_or_name.
    destruct (wikidata name 3) as [[[|c1 en]|]|e]; cbn [truthy];
      destruct (translate name); reflexivity.
  - intros is_word lower ebt quote_sentence article_date use_wikidata.
    unfold QueryGen.generate_search_query, QueryGen.speaker_en.
    destruct (QueryGen.get_words (str "PER") ebt) as [|speaker_ko rest];
      [eexists; reflexivity|].
    destruct use_wikidata; cbn [bind]; eexists; reflexivity.
Qed.
